(** * The alert pipeline of monitoring-tool, embedded and verified

    A shallow embedding of the Go packages [models], [repository],
    [processor], [pool], [collector] and [notifier]: every Go function that
    the verified properties talk about is transcribed as a Rocq function of
    the same name, with the state it mutates passed explicitly and with
    panics and blocking made visible in the result type.

    Conventions.
    - A Go [int]/[int64] and [int32] is a [Z]; arithmetic that can leave the
      range is written with [Go.int64] / [Go.int32] (two's complement
      wrap-around).
    - A Go [float64] is a primitive binary64 [float].
    - A Go [error] is an [option string]; [None] is [nil].
    - A [map[string]string] is a [gmap string string].
    - [time.Now()] and [uuid.New()] read the [World]: a clock reading and a
      supply of fresh identifiers. *)

From Stdlib Require Import ZArith List String Ascii Bool Lia.
From Stdlib Require Import Floats Uint63 DecimalString.
From stdpp Require Import gmap strings list sorting.

Open Scope Z_scope.

Notation "a +++ b" := (String.append a b) (at level 60, right associativity).

(** ** The Go language layer *)

Module Go.

Definition error := option string.

(** Two's complement wrap-around of a [w]-bit signed integer. *)
Definition wrap (w : Z) (z : Z) : Z :=
  (z + 2 ^ (w - 1)) mod 2 ^ w - 2 ^ (w - 1).

Definition int32 (z : Z) : Z := wrap 32 z.
Definition int64 (z : Z) : Z := wrap 64 z.

Definition minInt32 : Z := - 2 ^ 31.
Definition maxInt32 : Z := 2 ^ 31 - 1.
Definition minInt64 : Z := - 2 ^ 63.
Definition maxInt64 : Z := 2 ^ 63 - 1.

Definition is_int32 (z : Z) : Prop := minInt32 <= z <= maxInt32.
Definition is_int64 (z : Z) : Prop := minInt64 <= z <= maxInt64.

(** What running a piece of Go code can come to: a normal return, a
    run-time panic, or a goroutine parked forever on a channel. *)
Inductive Outcome (A : Type) : Type :=
| Done (a : A)
| Panic (msg : string)
| Blocked.
Arguments Done {A} a.
Arguments Panic {A} msg.
Arguments Blocked {A}.

Definition bind {A B : Type} (m : Outcome A) (k : A -> Outcome B) : Outcome B :=
  match m with
  | Done a => k a
  | Panic msg => Panic msg
  | Blocked => Blocked
  end.

(** *** Channels

    A buffered channel is its queue, its capacity and its closed flag. *)
Record Chan (A : Type) : Type := mkChan {
  buf : list A;
  cap : nat;
  closed : bool
}.
Arguments mkChan {A} buf cap closed.
Arguments buf {A} c.
Arguments cap {A} c.
Arguments closed {A} c.

Definition make {A : Type} (n : nat) : Chan A := mkChan [] n false.

Definition len {A : Type} (c : Chan A) : nat := length (buf c).

(** [select { case c <- v: ...; default: ... }]: the send is taken when the
    buffer has room; [true] tells that it was.  Sending on a closed channel
    panics, also inside a [select]. *)
Definition try_send {A : Type} (c : Chan A) (v : A) : Outcome (bool * Chan A) :=
  if closed c then Panic "send on closed channel"
  else if (length (buf c) <? cap c)%nat
       then Done (true, mkChan (buf c ++ [v]) (cap c) false)
       else Done (false, c).

(** [c <- v] outside a [select]: parks the sender while the buffer is full. *)
Definition send {A : Type} (c : Chan A) (v : A) : Outcome (Chan A) :=
  if closed c then Panic "send on closed channel"
  else if (length (buf c) <? cap c)%nat
       then Done (mkChan (buf c ++ [v]) (cap c) false)
       else Blocked.

(** [close(c)]. *)
Definition close {A : Type} (c : Chan A) : Outcome (Chan A) :=
  if closed c then Panic "close of closed channel"
  else Done (mkChan (buf c) (cap c) true).

(** *** Time

    An instant is a number of nanoseconds on the wall clock; a
    [time.Duration] is an [int64] count of nanoseconds. *)
Definition Time := Z.
Definition Duration := Z.

Definition Second : Duration := 1000000000.
Definition Minute : Duration := 60 * Second.

(** [t.Sub(u)]: the difference, saturated to the range of [Duration]. *)
Definition Sub (t u : Time) : Duration :=
  let d := t - u in
  if d <? minInt64 then minInt64
  else if maxInt64 <? d then maxInt64
  else d.

(** [time.Since(t)] is [time.Now().Sub(t)]. *)
Definition Since (now t : Time) : Duration := Sub now t.

(** *** Conversions between integers and [float64] *)

Definition float64_of_nat_range (n : Z) : float :=
  if n <? 2 ^ 63 then PrimFloat.of_uint63 (Uint63.of_Z n)
  else (PrimFloat.of_uint63 (Uint63.of_Z (2 ^ 62)) * 2)%float.

(** [float64(z)] for an integer [z] of at most 64 bits (round to nearest
    even). *)
Definition float64_of_int (z : Z) : float :=
  if z <? 0 then PrimFloat.opp (float64_of_nat_range (- z))
  else float64_of_nat_range z.

(** [int32(x)] for a [float64]: the fraction is discarded; where the value
    does not fit, Go leaves the result to the platform, and amd64 yields
    the "integer indefinite" value [-2^31]. *)
Definition int32_of_float64 (x : float) : Z :=
  match Prim2SF x with
  | S754_zero _ => 0
  | S754_finite s m e =>
      let mag := if 0 <=? e then Z.pos m * 2 ^ e else Z.pos m / 2 ^ (- e) in
      let v := if s then - mag else mag in
      if (minInt32 <=? v) && (v <=? maxInt32) then v else minInt32
  | _ => minInt32
  end.

(** *** [fmt] verbs *)

(** [%d]. *)
Definition fmt_d (z : Z) : string := NilZero.string_of_int (Z.to_int z).

(** [n / d] rounded to the nearest integer, ties to even ([0 <= n], [0 < d]). *)
Definition div_half_even (n d : Z) : Z :=
  let q := n / d in
  let r := n mod d in
  if (d <? 2 * r) || ((d =? 2 * r) && Z.odd q) then q + 1 else q.

Fixpoint zeros (k : nat) : string :=
  match k with
  | O => ""
  | S k' => "0" +++ zeros k'
  end.

Definition pad_left (width : nat) (s : string) : string :=
  zeros (width - String.length s) +++ s.

(** [%.<prec>f]: the exact binary value, rounded half-to-even to [prec]
    decimals. *)
Definition fmt_f (prec : nat) (x : float) : string :=
  let digits (sign : bool) (scaled : Z) : string :=
    let p := 10 ^ Z.of_nat prec in
    (if sign then "-" else "") +++ fmt_d (scaled / p) +++
    (match prec with
     | O => ""
     | _ => "." +++ pad_left prec (fmt_d (scaled mod p))
     end) in
  match Prim2SF x with
  | S754_nan => "NaN"
  | S754_infinity false => "+Inf"
  | S754_infinity true => "-Inf"
  | S754_zero s => digits s 0
  | S754_finite s m e =>
      let n := Z.pos m * 10 ^ Z.of_nat prec in
      digits s (if 0 <=? e then n * 2 ^ e else div_half_even n (2 ^ (- e)))
  end.

End Go.

Import Go.

(** ** Package [models] *)

Module models.

Definition AlertStatus := string.
Definition AlertStatusFiring : AlertStatus := "firing".
Definition AlertStatusResolved : AlertStatus := "resolved".

(** The [Labels] column holds the JSON encoding of a [map[string]string];
    the embedding keeps the map that the JSON text denotes. *)
Record Alert : Type := mkAlert {
  ID : N;
  Status : AlertStatus;
  Severity : string;
  Message : string;
  Source : string;
  Labels : gmap string string;
  Value : float;
  TriggeredAt : Time;
  ResolvedAt : option Time;
  CreatedAt : Time;
  UpdatedAt : Time
}.

(** What [time.Now()] and [uuid.New()] read: the clock stands still for the
    length of one call, and identifiers are drawn from a supply that never
    gives the same one twice. *)
Record World : Type := mkWorld {
  clock : Time;
  uuids : N
}.

Definition Now (w : World) : Time := clock w.

Definition uuid_New (w : World) : N * World :=
  (uuids w, mkWorld (clock w) (N.succ (uuids w))).

Definition NewAlert (severity message source : string) (value : float)
           (labels : gmap string string) (w : World) : Alert * World :=
  let now := Now w in
  let '(id, w') := uuid_New w in
  (mkAlert id AlertStatusFiring severity message source labels value
           now None now now, w').

Definition Resolve (a : Alert) (w : World) : Alert :=
  let now := Now w in
  mkAlert (ID a) AlertStatusResolved (Severity a) (Message a) (Source a)
          (Labels a) (Value a) (TriggeredAt a) (Some now) (CreatedAt a) now.

Definition IsFiring (a : Alert) : bool := String.eqb (Status a) AlertStatusFiring.

Definition GetLabelsMap (a : Alert) : gmap string string := Labels a.

End models.

Import models.

(** ** Package [repository] *)

Module repository.

(** The [AlertRepo] interface.  Every method returns the receiver's state
    after the call next to its Go results. *)
Class AlertRepo (R : Type) : Type := {
  Create : R -> Alert -> error * R;
  GetRecent : R -> Z -> Outcome (list Alert * error * R);
  Count : R -> Z * error * R;
  CountByStatus : R -> AlertStatus -> Z * error * R;
  CountBySeverity : R -> string -> Z * error * R
}.

(** *** The in-memory adapter *)

Record InMemoryAlertRepo : Type := mkInMemoryAlertRepo {
  alerts : list Alert
}.

Definition NewInMemoryAlertRepo : InMemoryAlertRepo := mkInMemoryAlertRepo [].

Definition InMemoryAlertRepo_Create (r : InMemoryAlertRepo) (alert : Alert)
  : error * InMemoryAlertRepo :=
  (None, mkInMemoryAlertRepo (alerts r ++ [alert])).

(** [r.alerts[start:]] panics when [start] exceeds the length. *)
Definition InMemoryAlertRepo_GetRecent (r : InMemoryAlertRepo) (limit : Z)
  : Outcome (list Alert * error * InMemoryAlertRepo) :=
  let n := Z.of_nat (length (alerts r)) in
  let start := int64 (n - limit) in
  let start := if start <? 0 then 0 else start in
  if n <? start then Panic "slice bounds out of range"
  else Done (drop (Z.to_nat start) (alerts r), None, r).

Definition InMemoryAlertRepo_Count (r : InMemoryAlertRepo)
  : Z * error * InMemoryAlertRepo :=
  (int64 (Z.of_nat (length (alerts r))), None, r).

Definition InMemoryAlertRepo_CountByStatus (r : InMemoryAlertRepo) (status : AlertStatus)
  : Z * error * InMemoryAlertRepo :=
  (fold_left (fun count alert =>
                if String.eqb (Status alert) status then int64 (count + 1) else count)
             (alerts r) 0,
   None, r).

Definition InMemoryAlertRepo_CountBySeverity (r : InMemoryAlertRepo) (severity : string)
  : Z * error * InMemoryAlertRepo :=
  (fold_left (fun count alert =>
                if String.eqb (Severity alert) severity
                   && String.eqb (Status alert) AlertStatusFiring
                then int64 (count + 1) else count)
             (alerts r) 0,
   None, r).

#[export] Instance InMemoryAlertRepo_AlertRepo : AlertRepo InMemoryAlertRepo := {
  Create := InMemoryAlertRepo_Create;
  GetRecent := InMemoryAlertRepo_GetRecent;
  Count := InMemoryAlertRepo_Count;
  CountByStatus := InMemoryAlertRepo_CountByStatus;
  CountBySeverity := InMemoryAlertRepo_CountBySeverity
}.

(** *** The PostgreSQL adapter

    The database behind the gorm handle is the table's rows together with
    the error, if any, that the driver reports for a statement. *)

Record PostgresAlertRepo : Type := mkPostgresAlertRepo {
  rows : list Alert;
  db_error : error
}.

Definition PostgresAlertRepo_Create (r : PostgresAlertRepo) (alert : Alert)
  : error * PostgresAlertRepo :=
  match db_error r with
  | Some e => (Some e, r)
  | None => (None, mkPostgresAlertRepo (rows r ++ [alert]) None)
  end.

(** [ORDER BY triggered_at DESC]. *)
Definition newer_first (a b : Alert) : Prop := TriggeredAt b <= TriggeredAt a.

#[export] Instance newer_first_dec (a b : Alert) : Decision (newer_first a b).
Proof.
  unfold newer_first. apply _.
Defined.

#[export] Instance newer_first_total : Total newer_first.
Proof.
  intros a b. unfold newer_first. lia.
Qed.

#[export] Instance newer_first_trans : Transitive newer_first.
Proof.
  intros a b c. unfold newer_first. lia.
Qed.

(** [Order("triggered_at DESC").Limit(limit).Find(&alerts)]: gorm writes the
    [LIMIT] clause for a limit that is not negative. *)
Definition PostgresAlertRepo_GetRecent (r : PostgresAlertRepo) (limit : Z)
  : Outcome (list Alert * error * PostgresAlertRepo) :=
  match db_error r with
  | Some e => Done ([], Some e, r)
  | None =>
      let ordered := merge_sort newer_first (rows r) in
      Done (if 0 <=? limit then take (Z.to_nat limit) ordered else ordered, None, r)
  end.

Definition PostgresAlertRepo_Count (r : PostgresAlertRepo)
  : Z * error * PostgresAlertRepo :=
  match db_error r with
  | Some e => (0, Some e, r)
  | None => (int64 (Z.of_nat (length (rows r))), None, r)
  end.

Definition PostgresAlertRepo_CountByStatus (r : PostgresAlertRepo) (status : AlertStatus)
  : Z * error * PostgresAlertRepo :=
  match db_error r with
  | Some e => (0, Some e, r)
  | None =>
      (int64 (Z.of_nat (length (filter (fun a => Status a = status) (rows r)))), None, r)
  end.

Definition PostgresAlertRepo_CountBySeverity (r : PostgresAlertRepo) (severity : string)
  : Z * error * PostgresAlertRepo :=
  match db_error r with
  | Some e => (0, Some e, r)
  | None =>
      (int64 (Z.of_nat (length
         (filter (fun a => Severity a = severity /\ Status a = AlertStatusFiring) (rows r)))),
       None, r)
  end.

#[export] Instance PostgresAlertRepo_AlertRepo : AlertRepo PostgresAlertRepo := {
  Create := PostgresAlertRepo_Create;
  GetRecent := PostgresAlertRepo_GetRecent;
  Count := PostgresAlertRepo_Count;
  CountByStatus := PostgresAlertRepo_CountByStatus;
  CountBySeverity := PostgresAlertRepo_CountBySeverity
}.

End repository.

Import repository.

(** ** Package [processor]: the event bus and the state manager *)

Module processor.

(** A [context.Context], as far as the pipeline looks at it: [ctx.Done()] is
    closed exactly when [ctx.Err()] is not [nil]. *)
Record Context : Type := mkContext {
  ctx_Err : error
}.

Definition Background : Context := mkContext None.

Record AlertEvent : Type := mkAlertEvent {
  Event_Alert : Alert;
  Event_Timestamp : Time
}.

(** A line written through the [logger] package. *)
Record LogLine : Type := mkLogLine {
  log_level : string;
  log_msg : string
}.

(** The calls a function makes on its collaborators, in program order. *)
Inductive Effect : Type :=
| CallCreate (alert : Alert)
| CallPublish (event : AlertEvent)
| Logged (line : LogLine).

Definition LogInfo (msg : string) : Effect := Logged (mkLogLine "info" msg).
Definition LogWarn (msg : string) : Effect := Logged (mkLogLine "warn" msg).
Definition LogError (msg : string) : Effect := Logged (mkLogLine "error" msg).

(** The alerts handed to [AlertRepo.Create] and the events handed to
    [EventBus.Publish] along a trace. *)
Fixpoint created (t : list Effect) : list Alert :=
  match t with
  | [] => []
  | CallCreate a :: t' => a :: created t'
  | _ :: t' => created t'
  end.

Fixpoint published (t : list Effect) : list AlertEvent :=
  match t with
  | [] => []
  | CallPublish e :: t' => e :: published t'
  | _ :: t' => published t'
  end.

Section Bus.

(** [O] is the type of the subscribed [AlertObserver]s. *)
Context {O : Type}.

(** [wg] counts the dispatcher goroutines that have not returned. *)
Record EventBus : Type := mkEventBus {
  observers : list O;
  eventChan : Chan AlertEvent;
  stopCh : Chan unit;
  wg : nat
}.

Definition NewEventBus : EventBus :=
  mkEventBus [] (make 200) (make 0) 0.

Definition Subscribe (eb : EventBus) (observer : O) : EventBus * list Effect :=
  (mkEventBus (observers eb ++ [observer]) (eventChan eb) (stopCh eb) (wg eb),
   [LogInfo "Observer subscribed to event bus"]).

Definition Publish (eb : EventBus) (event : AlertEvent)
  : Outcome (EventBus * list Effect) :=
  bind (try_send (eventChan eb) event) (fun '(sent, ch) =>
    if sent
    then Done (mkEventBus (observers eb) ch (stopCh eb) (wg eb), [])
    else Done (eb, [LogWarn "Event bus channel full, dropping event"])).

Definition Start (eb : EventBus) : EventBus * list Effect :=
  (mkEventBus (observers eb) (eventChan eb) (stopCh eb) (S (wg eb)),
   [LogInfo "Starting Alert Event Bus"]).

(** [close(eb.stopCh); eb.wg.Wait()]: the dispatcher leaves its loop on
    the closed stop channel, which is what [Wait] waits for. *)
Definition EventBus_Stop (eb : EventBus) : Outcome EventBus :=
  bind (close (stopCh eb)) (fun ch =>
    Done (mkEventBus (observers eb) (eventChan eb) ch 0)).

End Bus.

Arguments EventBus O : clear implicits.

(** The [AlertObserver] interface; the observer's state after the call is
    returned next to the error. *)
Class AlertObserver (O : Type) : Type := {
  AlertObserver_OnAlert : O -> AlertEvent -> error * O
}.

Section Dispatch.

Context {O : Type} `{AlertObserver O}.

(** [notifyObservers]: one goroutine per observer calls [OnAlert] and logs
    its error.  For one event each goroutine touches its own observer only,
    so they are run here one after the other, in the order of the list.
    The dispatcher does not wait for them: the calls for successive events
    may overlap, which this sequential reading does not show. *)
Definition notifyObservers (eb : EventBus O) (event : AlertEvent)
  : EventBus O * list Effect :=
  let results := map (fun obs => AlertObserver_OnAlert obs event) (observers eb) in
  (mkEventBus (map snd results) (eventChan eb) (stopCh eb) (wg eb),
   flat_map (fun r => match fst r with
                      | Some _ => [LogError "Observer notification failed"]
                      | None => []
                      end) results).

(** One turn of the dispatcher's loop through its
    [case event := <-eb.eventChan] branch: the event at the head of the
    channel is taken and the observers are notified of it. *)
Definition dispatcher_receive (eb : EventBus O)
  : option (AlertEvent * EventBus O * list Effect) :=
  match buf (eventChan eb) with
  | [] => None
  | event :: rest =>
      let '(eb', logs) :=
        notifyObservers
          (mkEventBus (observers eb)
                      (mkChan rest (cap (eventChan eb)) (closed (eventChan eb)))
                      (stopCh eb) (wg eb))
          event in
      Some (event, eb', logs)
  end.

(** The states a bus goes through from its construction on. *)
Inductive bus_reachable : EventBus O -> Prop :=
| bus_new : bus_reachable NewEventBus
| bus_Subscribe eb observer :
    bus_reachable eb -> bus_reachable (fst (Subscribe eb observer))
| bus_Publish eb event eb' logs :
    bus_reachable eb -> Publish eb event = Done (eb', logs) -> bus_reachable eb'
| bus_Start eb :
    bus_reachable eb -> bus_reachable (fst (Start eb))
| bus_receive eb event eb' logs :
    bus_reachable eb -> dispatcher_receive eb = Some (event, eb', logs) ->
    bus_reachable eb'
| bus_Stop eb eb' :
    bus_reachable eb -> EventBus_Stop eb = Done eb' -> bus_reachable eb'.

End Dispatch.

Section StateManager.

Context {R : Type} `{AlertRepo R} {O : Type}.

Record AlertStateManager : Type := mkAlertStateManager {
  alertRepo : R;
  eventBus : EventBus O
}.

Definition NewAlertStateManager (alertRepo : R) (eventBus : EventBus O)
  : AlertStateManager :=
  mkAlertStateManager alertRepo eventBus.

Definition ProcessAlert (asm : AlertStateManager) (alert : Alert) (w : World)
  : Outcome (bool * error * AlertStateManager * list Effect) :=
  let '(err, repo') := Create (alertRepo asm) alert in
  match err with
  | Some e =>
      Done (false, Some e, mkAlertStateManager repo' (eventBus asm),
            [CallCreate alert])
  | None =>
      let event := mkAlertEvent alert (Now w) in
      bind (Publish (eventBus asm) event) (fun '(bus', logs) =>
        Done (true, None, mkAlertStateManager repo' bus',
              [CallCreate alert; CallPublish event] ++ logs
              ++ [LogInfo "Alert created and published"]))
  end.

End StateManager.

Arguments AlertStateManager R O : clear implicits.

End processor.

Import processor.

(** ** Package [pool] *)

Module pool.

Definition ErrStopped : string := "worker pool is stopped".
Definition ErrQueueFull : string := "task queue is full".
Definition ErrTimeout : string := "worker pool shutdown timeout exceeded".

Section Pool.

(** A task is a closure; the pool only moves it around. *)
Context {Task : Type}.

(** [wg] counts the worker goroutines that have not returned. *)
Record WorkerPool : Type := mkWorkerPool {
  workerCount : Z;
  taskQueue : Chan Task;
  stopChan : Chan unit;
  wg : nat;
  stopped : bool
}.

Definition NewWorkerPool (workerCount queueSize : Z) : WorkerPool :=
  let workerCount := if workerCount <=? 0 then 1 else workerCount in
  let queueSize := if queueSize <=? 0 then 100 else queueSize in
  mkWorkerPool workerCount (make (Z.to_nat queueSize)) (make 0) 0 false.

(** One [wg.Add(1); go wp.worker(ctx, i)] per worker. *)
Definition Start (wp : WorkerPool) : WorkerPool :=
  mkWorkerPool (workerCount wp) (taskQueue wp) (stopChan wp)
               (wg wp + Z.to_nat (workerCount wp)) (stopped wp).

(** A worker's [case task, ok := <-wp.taskQueue]: it takes the task at the
    head of the queue, if there is one. *)
Definition worker_receive (wp : WorkerPool) : option (Task * WorkerPool) :=
  match buf (taskQueue wp) with
  | [] => None
  | task :: rest =>
      Some (task,
            mkWorkerPool (workerCount wp)
                         (mkChan rest (cap (taskQueue wp)) (closed (taskQueue wp)))
                         (stopChan wp) (wg wp) (stopped wp))
  end.

Definition Submit (wp : WorkerPool) (task : Task) : Outcome (error * WorkerPool) :=
  if stopped wp then Done (Some ErrStopped, wp)
  else
    bind (try_send (taskQueue wp) task) (fun '(sent, q) =>
      if sent
      then Done (None, mkWorkerPool (workerCount wp) q (stopChan wp) (wg wp) (stopped wp))
      else Done (Some ErrQueueFull, wp)).

Definition SubmitWithContext (wp : WorkerPool) (ctx : Context) (task : Task)
  : Outcome (error * WorkerPool) :=
  match ctx_Err ctx with
  | Some e => Done (Some e, wp)
  | None => Submit wp task
  end.

(** After [close(wp.stopChan)] every worker returns once the task it is
    running has ended, which is what [wp.wg.Wait()] waits for. *)
Definition Stop (wp : WorkerPool) : Outcome WorkerPool :=
  if stopped wp then Done wp
  else
    bind (close (stopChan wp)) (fun sc =>
    bind (close (taskQueue wp)) (fun q =>
      Done (mkWorkerPool (workerCount wp) q sc 0 true))).

Definition GetWorkerCount (wp : WorkerPool) : Z := workerCount wp.
Definition GetQueueSize (wp : WorkerPool) : Z := Z.of_nat (len (taskQueue wp)).
Definition IsStopped (wp : WorkerPool) : bool := stopped wp.

(** The states a pool goes through from its construction on. *)
Inductive reachable : WorkerPool -> Prop :=
| reach_new (workerCount queueSize : Z) :
    reachable (NewWorkerPool workerCount queueSize)
| reach_Start wp :
    reachable wp -> reachable (Start wp)
| reach_Submit wp task e wp' :
    reachable wp -> Submit wp task = Done (e, wp') -> reachable wp'
| reach_receive wp task wp' :
    reachable wp -> worker_receive wp = Some (task, wp') -> reachable wp'
| reach_Stop wp wp' :
    reachable wp -> Stop wp = Done wp' -> reachable wp'.

(** While the pool is not stopped both of its channels are open, and the
    queue never holds more tasks than its capacity. *)
Definition pool_inv (wp : WorkerPool) : Prop :=
  (length (buf (taskQueue wp)) <= cap (taskQueue wp))%nat
  /\ (stopped wp = false ->
      closed (taskQueue wp) = false /\ closed (stopChan wp) = false).

(** One operation on the pool, by a client or by a worker. *)
Inductive pool_step : WorkerPool -> WorkerPool -> Prop :=
| step_Start wp : pool_step wp (Start wp)
| step_Submit wp task e wp' :
    Submit wp task = Done (e, wp') -> pool_step wp wp'
| step_receive wp task wp' :
    worker_receive wp = Some (task, wp') -> pool_step wp wp'
| step_Stop wp wp' :
    Stop wp = Done wp' -> pool_step wp wp'.

End Pool.

Arguments WorkerPool Task : clear implicits.

End pool.

Import pool.

(** ** Package [config] *)

Module config.

Record EmailConfig : Type := mkEmailConfig {
  Enabled : bool;
  SMTPHost : string;
  SMTPPort : Z;
  Username : string;
  Password : string;
  From : string;
  To : list string
}.

Record AlertRulesConfig : Type := mkAlertRulesConfig {
  PodRestartThreshold : Z;
  PodCPUThreshold : Z;
  PodMemoryThreshold : Z;
  NodeCPUThreshold : Z;
  NodeMemoryThreshold : Z;
  MetricsCheckInterval : Z;
  PodCPUPercent : float;
  PodMemoryPercent : float;
  NodeCPUPercent : float;
  NodeMemoryPercent : float
}.

(** The "Compute percent fields" step of [Load]. *)
Definition computePercentFields (c : AlertRulesConfig) : AlertRulesConfig :=
  mkAlertRulesConfig
    (PodRestartThreshold c) (PodCPUThreshold c) (PodMemoryThreshold c)
    (NodeCPUThreshold c) (NodeMemoryThreshold c) (MetricsCheckInterval c)
    (float64_of_int (PodCPUThreshold c)) (float64_of_int (PodMemoryThreshold c))
    (float64_of_int (NodeCPUThreshold c)) (float64_of_int (NodeMemoryThreshold c)).

(** *** The database settings *)

Record PostgresConfig : Type := mkPostgresConfig {
  AutoMigrate : bool;
  pg_Host : string;
  pg_Port : Z;
  pg_User : string;
  pg_Password : string;
  pg_Database : string;
  pg_SSLMode : string
}.

(** [strings.ReplaceAll(s, "@", "%40")]: the text to replace is one byte
    long, so the replacement goes byte by byte. *)
Fixpoint ReplaceAll_at (s : string) : string :=
  match s with
  | EmptyString => EmptyString
  | String c s' =>
      if Ascii.eqb c "@" then ("%40" +++ ReplaceAll_at s') else String c (ReplaceAll_at s')
  end.

Definition MigrationDatabaseURL (p : PostgresConfig) : string :=
  let password := ReplaceAll_at (pg_Password p) in
  "postgres://" +++ pg_User p +++ ":" +++ password +++ "@" +++ pg_Host p +++ ":"
                +++ fmt_d (pg_Port p) +++ "/" +++ pg_Database p
                +++ "?sslmode=" +++ pg_SSLMode p.

End config.

Import config.

(** ** Package [collector]: alert builders *)

Module collector.

Definition SeverityCritical : string := "critical".
Definition SeverityHigh : string := "high".
Definition SeverityMedium : string := "medium".
Definition SeverityLow : string := "low".

Definition AlertType := string.

Definition AlertTypePodFailed : AlertType := "pod_failed".
Definition AlertTypePodOOMKilled : AlertType := "pod_oom_killed".
Definition AlertTypePodCrashLoop : AlertType := "pod_crash_loop".
Definition AlertTypePodRestartThreshold : AlertType := "pod_restart_threshold".
Definition AlertTypePodImagePullError : AlertType := "pod_image_pull".
Definition AlertTypePodPending : AlertType := "pod_pending".
Definition AlertTypePodUnknown : AlertType := "pod_unknown".
Definition AlertTypeNodeNotReady : AlertType := "node_not_ready".
Definition AlertTypeNodeMemoryPressure : AlertType := "node_memory_pressure".
Definition AlertTypeNodeDiskPressure : AlertType := "node_disk_pressure".
Definition AlertTypeNodePIDPressure : AlertType := "node_pid_pressure".
Definition AlertTypePodCPUHigh : AlertType := "pod_cpu_high".
Definition AlertTypePodMemoryHigh : AlertType := "pod_memory_high".
Definition AlertTypeNodeCPUHigh : AlertType := "node_cpu_high".
Definition AlertTypeNodeMemoryHigh : AlertType := "node_memory_high".

(** *** The parts of [corev1.Pod] and [corev1.Node] that the collector reads *)

Record ContainerStateWaiting : Type := mkWaiting {
  Waiting_Reason : string;
  Waiting_Message : string
}.

Record ContainerStateTerminated : Type := mkTerminated {
  Terminated_Reason : string
}.

(** [State_Waiting] and [LastTerminationState_Terminated] are pointers:
    [None] is [nil]. [RestartCount] is an [int32]. *)
Record ContainerStatus : Type := mkContainerStatus {
  cs_Name : string;
  RestartCount : Z;
  State_Waiting : option ContainerStateWaiting;
  LastTerminationState_Terminated : option ContainerStateTerminated
}.

Record Pod : Type := mkPod {
  pod_Namespace : string;
  pod_Name : string;
  CreationTimestamp : Time;
  Status_Phase : string;
  Status_Reason : string;
  Status_Message : string;
  ContainerStatuses : list ContainerStatus
}.

Definition PodPending : string := "Pending".
Definition PodFailed : string := "Failed".
Definition PodUnknown : string := "Unknown".

Record NodeCondition : Type := mkNodeCondition {
  cond_Type : string;
  cond_Status : string;
  cond_Reason : string
}.

Record Node : Type := mkNode {
  node_Name : string;
  Conditions : list NodeCondition
}.

Definition NodeReady : string := "Ready".
Definition NodeMemoryPressure : string := "MemoryPressure".
Definition NodeDiskPressure : string := "DiskPressure".
Definition NodePIDPressure : string := "PIDPressure".
Definition ConditionTrue : string := "True".

(** *** Helpers that pick the container an alert is about *)

Definition isOOMKilled (cs : ContainerStatus) : bool :=
  match LastTerminationState_Terminated cs with
  | Some t => String.eqb (Terminated_Reason t) "OOMKilled"
  | None => false
  end.

Definition isCrashLoop (cs : ContainerStatus) : bool :=
  match State_Waiting cs with
  | Some wt => String.eqb (Waiting_Reason wt) "CrashLoopBackOff"
  | None => false
  end.

Definition isImagePullError (cs : ContainerStatus) : bool :=
  match State_Waiting cs with
  | Some wt => String.eqb (Waiting_Reason wt) "ImagePullBackOff"
               || String.eqb (Waiting_Reason wt) "ErrImagePull"
  | None => false
  end.

Definition waiting_message (cs : ContainerStatus) : string :=
  match State_Waiting cs with
  | Some wt => Waiting_Message wt
  | None => ""
  end.

Definition getOOMKilledContainer (pod : Pod) : string :=
  match List.find isOOMKilled (ContainerStatuses pod) with
  | Some cs => cs_Name cs
  | None => "unknown"
  end.

Definition getCrashLoopContainer (pod : Pod) : string * string :=
  match List.find isCrashLoop (ContainerStatuses pod) with
  | Some cs => (cs_Name cs, waiting_message cs)
  | None => ("unknown", "unknown")
  end.

(** The loop keeps the running maximum and the name that reached it. *)
Definition getHighestRestartContainer (pod : Pod) : string :=
  snd (fold_left
         (fun '(maxRestarts, containerName) cs =>
            if maxRestarts <? RestartCount cs
            then (RestartCount cs, cs_Name cs)
            else (maxRestarts, containerName))
         (ContainerStatuses pod) (0, "unknown")).

Definition getImagePullError (pod : Pod) : string * string :=
  match List.find isImagePullError (ContainerStatuses pod) with
  | Some cs => (cs_Name cs, waiting_message cs)
  | None => ("unknown", "unknown")
  end.

Definition getNodeConditionReason (node : Node) (conditionType : string) : string :=
  match List.find (fun c => String.eqb (cond_Type c) conditionType) (Conditions node) with
  | Some c => if String.eqb (cond_Reason c) "" then cond_Status c else cond_Reason c
  | None => "Unknown"
  end.

(** *** Builders *)

Definition BuildPodAlert (pod : Pod) (alertType : AlertType) (value : float)
  : World -> Alert * World :=
  let labels : gmap string string :=
    <["alert_type" := alertType]>
      (<["pod" := pod_Name pod]> (<["namespace" := pod_Namespace pod]> ∅)) in
  let who := "Pod " +++ pod_Namespace pod +++ "/" +++ pod_Name pod in
  let '(severity, message, labels) :=
    if String.eqb alertType AlertTypePodFailed then
      (SeverityCritical,
       who +++ " has FAILED - Phase: " +++ Status_Phase pod
           +++ ", Reason: " +++ Status_Reason pod
           +++ (if String.eqb (Status_Message pod) "" then ""
                else ", Message: " +++ Status_Message pod),
       labels)
    else if String.eqb alertType AlertTypePodOOMKilled then
      let containerName := getOOMKilledContainer pod in
      (SeverityCritical,
       who +++ " container '" +++ containerName
           +++ "' was OOM KILLED - Out of memory",
       <["container" := containerName]> labels)
    else if String.eqb alertType AlertTypePodCrashLoop then
      let '(containerName, reason) := getCrashLoopContainer pod in
      (SeverityHigh,
       who +++ " container '" +++ containerName
           +++ "' is in CRASH LOOP BACKOFF - Reason: " +++ reason,
       <["reason" := reason]> (<["container" := containerName]> labels))
    else if String.eqb alertType AlertTypePodRestartThreshold then
      let restartCount := int32_of_float64 value in
      let containerName := getHighestRestartContainer pod in
      (SeverityHigh,
       who +++ " has EXCESSIVE RESTARTS - Total restarts: " +++ fmt_d restartCount
           +++ ", Container: " +++ containerName,
       <["container" := containerName]> labels)
    else if String.eqb alertType AlertTypePodImagePullError then
      let '(containerName, imageError) := getImagePullError pod in
      (SeverityHigh,
       who +++ " container '" +++ containerName
           +++ "' cannot pull image - LogError: " +++ imageError,
       <["container" := containerName]> labels)
    else if String.eqb alertType AlertTypePodPending then
      (SeverityMedium,
       who +++ " is PENDING for extended period - Reason: " +++ Status_Reason pod
           +++ (if String.eqb (Status_Message pod) "" then ""
                else ", Details: " +++ Status_Message pod),
       labels)
    else if String.eqb alertType AlertTypePodUnknown then
      (SeverityCritical,
       who +++ " is in UNKNOWN state - Last known phase: " +++ Status_Phase pod,
       labels)
    else
      (SeverityMedium,
       who +++ " issue detected - Type: " +++ alertType,
       labels) in
  NewAlert severity message "k8s_pod" value labels.

Definition BuildNodeAlert (node : Node) (alertType : AlertType) (value : float)
  : World -> Alert * World :=
  let labels : gmap string string :=
    <["alert_type" := alertType]> (<["node" := node_Name node]> ∅) in
  let who := "Node " +++ node_Name node in
  let '(severity, message) :=
    if String.eqb alertType AlertTypeNodeNotReady then
      (SeverityCritical,
       who +++ " is NOT READY - Status: " +++ getNodeConditionReason node NodeReady)
    else if String.eqb alertType AlertTypeNodeMemoryPressure then
      (SeverityHigh, who +++ " has MEMORY PRESSURE - Available memory is low")
    else if String.eqb alertType AlertTypeNodeDiskPressure then
      (SeverityHigh, who +++ " has DISK PRESSURE - Disk space is running low")
    else if String.eqb alertType AlertTypeNodePIDPressure then
      (SeverityMedium, who +++ " has PID PRESSURE - Too many processes running")
    else
      (SeverityMedium, who +++ " issue detected - Type: " +++ alertType) in
  NewAlert severity message "k8s_node" value labels.

Definition BuildPodMetricAlert (namespace podName : string) (alertType : AlertType)
           (value threshold : float) : World -> Alert * World :=
  let labels : gmap string string :=
    <["metric" := ""]>
      (<["alert_type" := alertType]>
         (<["pod" := podName]> (<["namespace" := namespace]> ∅))) in
  let who := "Pod " +++ namespace +++ "/" +++ podName in
  let numbers := fmt_f 1 value +++ "% (threshold: " +++ fmt_f 1 threshold +++ "%)" in
  let '(severity, message, labels) :=
    if String.eqb alertType AlertTypePodCPUHigh then
      (SeverityHigh, who +++ " CPU usage is HIGH: " +++ numbers,
       <["metric" := "cpu"]> labels)
    else if String.eqb alertType AlertTypePodMemoryHigh then
      (SeverityHigh, who +++ " Memory usage is HIGH: " +++ numbers,
       <["metric" := "memory"]> labels)
    else
      (SeverityMedium, who +++ " metric alert", labels) in
  NewAlert severity message "k8s_pod_metrics" value labels.

Definition BuildNodeMetricAlert (nodeName : string) (alertType : AlertType)
           (value threshold : float) : World -> Alert * World :=
  let labels : gmap string string :=
    <["metric" := ""]>
      (<["alert_type" := alertType]> (<["node" := nodeName]> ∅)) in
  let who := "Node " +++ nodeName in
  let numbers := fmt_f 1 value +++ "% (threshold: " +++ fmt_f 1 threshold +++ "%)" in
  let '(severity, message, labels) :=
    if String.eqb alertType AlertTypeNodeCPUHigh then
      (SeverityCritical, who +++ " CPU usage is CRITICAL: " +++ numbers,
       <["metric" := "cpu"]> labels)
    else if String.eqb alertType AlertTypeNodeMemoryHigh then
      (SeverityCritical, who +++ " Memory usage is CRITICAL: " +++ numbers,
       <["metric" := "memory"]> labels)
    else
      (SeverityMedium, who +++ " metric alert", labels) in
  NewAlert severity message "k8s_node_metrics" value labels.

(** *** The pod watcher *)

(** The fields of [PodWatcher] that rule evaluation reads. *)
Record PodWatcher : Type := mkPodWatcher {
  restartThreshold : Z;
  pendingTimeout : Duration
}.

Definition NewPodWatcher (cfg : AlertRulesConfig) : PodWatcher :=
  mkPodWatcher (int32 (PodRestartThreshold cfg)) (5 * Minute).

(** [if cond { alert := build(...); alerts = append(alerts, alert) }] *)
Definition emit (cond : bool) (build : World -> Alert * World)
           (st : list Alert * World) : list Alert * World :=
  if cond
  then let '(alert, w') := build (snd st) in (fst st ++ [alert], w')
  else st.

(** The body of the loop over [pod.Status.ContainerStatuses]. *)
Definition evaluateContainer (pod : Pod) (acc : Z * (list Alert * World))
           (cs : ContainerStatus) : Z * (list Alert * World) :=
  let '(totalRestarts, st) := acc in
  let totalRestarts := int32 (totalRestarts + RestartCount cs) in
  let st := emit (isOOMKilled cs)
                 (BuildPodAlert pod AlertTypePodOOMKilled
                                (float64_of_int (RestartCount cs))) st in
  let st := emit (isCrashLoop cs)
                 (BuildPodAlert pod AlertTypePodCrashLoop
                                (float64_of_int (RestartCount cs))) st in
  let st := emit (isImagePullError cs)
                 (BuildPodAlert pod AlertTypePodImagePullError 1%float) st in
  (totalRestarts, st).

Definition evaluatePodConditions (pw : PodWatcher) (pod : Pod) (w : World)
  : list Alert * World :=
  let st := ([], w) in
  let st := emit (String.eqb (Status_Phase pod) PodFailed)
                 (BuildPodAlert pod AlertTypePodFailed 1%float) st in
  let st := emit (String.eqb (Status_Phase pod) PodUnknown)
                 (BuildPodAlert pod AlertTypePodUnknown 1%float) st in
  let '(totalRestarts, st) :=
    fold_left (evaluateContainer pod) (ContainerStatuses pod) (0, st) in
  let st := emit (restartThreshold pw <? totalRestarts)
                 (BuildPodAlert pod AlertTypePodRestartThreshold
                                (float64_of_int totalRestarts)) st in
  let st := emit (String.eqb (Status_Phase pod) PodPending
                  && (pendingTimeout pw <? Since (Now (snd st)) (CreationTimestamp pod)))
                 (BuildPodAlert pod AlertTypePodPending 1%float) st in
  st.

(** *** The node watcher *)

Definition evaluateCondition (node : Node) (st : list Alert * World)
           (condition : NodeCondition) : list Alert * World :=
  if String.eqb (cond_Type condition) NodeReady then
    emit (negb (String.eqb (cond_Status condition) ConditionTrue))
         (BuildNodeAlert node AlertTypeNodeNotReady 1%float) st
  else if String.eqb (cond_Type condition) NodeMemoryPressure then
    emit (String.eqb (cond_Status condition) ConditionTrue)
         (BuildNodeAlert node AlertTypeNodeMemoryPressure 1%float) st
  else if String.eqb (cond_Type condition) NodeDiskPressure then
    emit (String.eqb (cond_Status condition) ConditionTrue)
         (BuildNodeAlert node AlertTypeNodeDiskPressure 1%float) st
  else if String.eqb (cond_Type condition) NodePIDPressure then
    emit (String.eqb (cond_Status condition) ConditionTrue)
         (BuildNodeAlert node AlertTypeNodePIDPressure 1%float) st
  else st.

Definition evaluateNodeConditions (node : Node) (w : World) : list Alert * World :=
  fold_left (evaluateCondition node) (Conditions node) ([], w).

(** *** The metrics client and the metrics watcher *)

Record PodMetrics : Type := mkPodMetrics {
  pm_Namespace : string;
  pm_PodName : string;
  pm_CPUUsageMillicores : Z;
  pm_CPUUsagePercent : float;
  pm_MemoryUsageBytes : Z;
  pm_MemoryUsagePercent : float;
  CPURequestMillis : Z;
  MemoryRequestBytes : Z
}.

Record NodeMetrics : Type := mkNodeMetrics {
  nm_NodeName : string;
  nm_CPUUsageMillicores : Z;
  nm_CPUUsagePercent : float;
  nm_MemoryUsageBytes : Z;
  nm_MemoryUsagePercent : float;
  CPUCapacityMillis : Z;
  MemoryCapacityBytes : Z
}.

(** What the metrics server reports for a container ([MilliValue] of the
    CPU and [Value] of the memory usage) and what the pod's spec requests
    for it; all four are [int64]. *)
Record ContainerUsage : Type := mkContainerUsage {
  usage_cpu : Z;
  usage_memory : Z
}.

Record ContainerRequests : Type := mkContainerRequests {
  request_cpu : Z;
  request_memory : Z
}.

Definition sum_int64 {A : Type} (f : A -> Z) (l : list A) : Z :=
  fold_left (fun total x => int64 (total + f x)) l 0.

(** [GetPodMetrics], given the answers of the two API calls it makes. *)
Definition GetPodMetrics (namespace podName : string)
           (podMetrics : list ContainerUsage + string)
           (pod : list ContainerRequests + string)
  : option PodMetrics * error :=
  match podMetrics with
  | inr err => (None, Some ("failed to get pod metrics: " +++ err))
  | inl containers =>
      match pod with
      | inr err => (None, Some ("failed to get pod details: " +++ err))
      | inl specs =>
          let totalCPUUsage := sum_int64 usage_cpu containers in
          let totalMemoryUsage := sum_int64 usage_memory containers in
          let totalCPURequest := sum_int64 request_cpu specs in
          let totalMemoryRequest := sum_int64 request_memory specs in
          let cpuPercent :=
            if 0 <? totalCPURequest
            then (float64_of_int totalCPUUsage / float64_of_int totalCPURequest * 100)%float
            else 0%float in
          let memPercent :=
            if 0 <? totalMemoryRequest
            then (float64_of_int totalMemoryUsage / float64_of_int totalMemoryRequest * 100)%float
            else 0%float in
          (Some (mkPodMetrics namespace podName totalCPUUsage cpuPercent
                              totalMemoryUsage memPercent
                              totalCPURequest totalMemoryRequest),
           None)
      end
  end.

Section MetricsWatcher.

Context {R : Type} `{AlertRepo R} {O : Type}.

(** The state a check runs in: the state manager it feeds, the world it
    reads, and the calls made so far. *)
Definition CheckState : Type := AlertStateManager R O * World * list Effect.

(** [alert := Build...(...)] followed by
    [if _, err := mw.stateManager.ProcessAlert(ctx, alert); err != nil
     { logger.LogError()... } else { logger.LogInfo()... }]. *)
Definition buildAndProcess (build : World -> Alert * World)
           (failed succeeded : string) (st : CheckState) : Outcome CheckState :=
  let '(asm, w, trace) := st in
  let '(alert, w') := build w in
  bind (ProcessAlert asm alert w') (fun '(_, err, asm', effects) =>
    Done (asm', w',
          trace ++ effects
          ++ [match err with
              | Some _ => LogError failed
              | None => LogInfo succeeded
              end])).

Definition when (cond : bool) (body : CheckState -> Outcome CheckState)
           (st : CheckState) : Outcome CheckState :=
  if cond then body st else Done st.

(** The body of the loop of [checkPodMetrics]. *)
Definition checkPodMetric (thresholds : AlertRulesConfig) (st : CheckState)
           (metrics : PodMetrics) : Outcome CheckState :=
  if (CPURequestMillis metrics =? 0) && (MemoryRequestBytes metrics =? 0)
  then Done st
  else
    bind (when ((0 <? CPURequestMillis metrics)
                && PrimFloat.ltb (PodCPUPercent thresholds) (pm_CPUUsagePercent metrics))
               (buildAndProcess
                  (BuildPodMetricAlert (pm_Namespace metrics) (pm_PodName metrics)
                                       AlertTypePodCPUHigh
                                       (pm_CPUUsagePercent metrics)
                                       (PodCPUPercent thresholds))
                  "Failed to create pod CPU alert" "Pod CPU alert created")
               st)
         (when ((0 <? MemoryRequestBytes metrics)
                && PrimFloat.ltb (PodMemoryPercent thresholds)
                                 (pm_MemoryUsagePercent metrics))
               (buildAndProcess
                  (BuildPodMetricAlert (pm_Namespace metrics) (pm_PodName metrics)
                                       AlertTypePodMemoryHigh
                                       (pm_MemoryUsagePercent metrics)
                                       (PodMemoryPercent thresholds))
                  "Failed to create pod memory alert" "Pod memory alert created")).

(** The body of the loop of [checkNodeMetrics]. *)
Definition checkNodeMetric (thresholds : AlertRulesConfig) (st : CheckState)
           (metrics : NodeMetrics) : Outcome CheckState :=
  bind (when (PrimFloat.ltb (NodeCPUPercent thresholds) (nm_CPUUsagePercent metrics))
             (buildAndProcess
                (BuildNodeMetricAlert (nm_NodeName metrics) AlertTypeNodeCPUHigh
                                      (nm_CPUUsagePercent metrics)
                                      (NodeCPUPercent thresholds))
                "Failed to create node CPU alert" "Node CPU alert created")
             st)
       (when (PrimFloat.ltb (NodeMemoryPercent thresholds) (nm_MemoryUsagePercent metrics))
             (buildAndProcess
                (BuildNodeMetricAlert (nm_NodeName metrics) AlertTypeNodeMemoryHigh
                                      (nm_MemoryUsagePercent metrics)
                                      (NodeMemoryPercent thresholds))
                "Failed to create node memory alert" "Node memory alert created")).

(** [for _, x := range xs { body }] over a state that can panic. *)
Fixpoint range {A : Type} (body : CheckState -> A -> Outcome CheckState)
         (xs : list A) (st : CheckState) : Outcome CheckState :=
  match xs with
  | [] => Done st
  | x :: xs' => bind (body st x) (range body xs')
  end.

Definition logging (e : Effect) (st : CheckState) : CheckState :=
  let '(asm, w, trace) := st in (asm, w, trace ++ [e]).

(** [checkPodMetrics], given the answer of [GetAllPodsMetrics]. *)
Definition checkPodMetrics (thresholds : AlertRulesConfig)
           (fetched : list PodMetrics * error) (st : CheckState)
  : Outcome (error * CheckState) :=
  match snd fetched with
  | Some err => Done (Some err, logging (LogError "Failed to get pod metrics") st)
  | None =>
      bind (range (checkPodMetric thresholds) (fst fetched)
                  (logging (LogInfo "Checking pod metrics") st))
           (fun st' => Done (None, st'))
  end.

(** [checkNodeMetrics], given the answer of [GetAllNodesMetrics]. *)
Definition checkNodeMetrics (thresholds : AlertRulesConfig)
           (fetched : list NodeMetrics * error) (st : CheckState)
  : Outcome (error * CheckState) :=
  match snd fetched with
  | Some err => Done (Some err, logging (LogError "Failed to get node metrics") st)
  | None =>
      bind (range (checkNodeMetric thresholds) (fst fetched)
                  (logging (LogInfo "Checking node metrics") st))
           (fun st' => Done (None, st'))
  end.

End MetricsWatcher.

(** *** Watch events and their processing *)

(** [watch.EventType] is a string: "ADDED", "MODIFIED", "DELETED", ... *)
Record PodEvent : Type := mkPodEvent {
  PodEvent_Type : string;
  PodEvent_Pod : Pod;
  PodEvent_Timestamp : Time
}.

Record NodeEvent : Type := mkNodeEvent {
  NodeEvent_Type : string;
  NodeEvent_Node : Node;
  NodeEvent_Timestamp : Time
}.

Definition LogDebug (msg : string) : Effect := Logged (mkLogLine "debug" msg).

Section Watchers.

Context {R : Type} `{AlertRepo R} {O : Type}.

(** The body of the loop of [processEvent]: the alert goes to the state
    manager; an error is logged and the loop goes on; a created alert is
    logged at warn level. *)
Definition processOne (failed created : string) (st : CheckState (R := R) (O := O))
           (alert : Alert) : Outcome CheckState :=
  let '(asm, w, trace) := st in
  bind (ProcessAlert asm alert w) (fun '(flag, err, asm', effects) =>
    Done (asm', w,
          trace ++ effects
          ++ match err with
             | Some _ => [LogError failed]
             | None => if flag then [LogWarn created] else []
             end)).

(** [PodWatcher.processEvent]; it returns nil whatever happens to the
    alerts. *)
Definition PodWatcher_processEvent (pw : PodWatcher) (event : PodEvent)
           (st : CheckState (R := R) (O := O)) : Outcome (error * CheckState) :=
  let '(asm, w, trace) := st in
  let pod := PodEvent_Pod event in
  let '(alerts, w') := evaluatePodConditions pw pod w in
  bind (range (processOne "Failed to process alert" "New pod alert created") alerts
              (asm, w', trace ++ [LogDebug "Processing pod event"]))
       (fun st' => Done (None, st')).

(** [NodeWatcher.processEvent]. *)
Definition NodeWatcher_processEvent (event : NodeEvent)
           (st : CheckState (R := R) (O := O)) : Outcome (error * CheckState) :=
  let '(asm, w, trace) := st in
  let node := NodeEvent_Node event in
  let '(alerts, w') := evaluateNodeConditions node w in
  bind (range (processOne "Failed to process alert" "New node alert created") alerts
              (asm, w', trace ++ [LogDebug "Processing node event"]))
       (fun st' => Done (None, st')).

End Watchers.

(** *** The metrics client, continued *)

(** What the metrics server reports for a node ([MilliValue] of the CPU and
    [Value] of the memory usage) and the capacity in the node's status; all
    four are [int64]. *)
Record NodeUsage : Type := mkNodeUsage {
  node_usage_cpu : Z;
  node_usage_memory : Z
}.

Record NodeCapacity : Type := mkNodeCapacity {
  capacity_cpu : Z;
  capacity_memory : Z
}.

(** [GetNodeMetrics], given the answers of the two API calls it makes.  The
    percentages divide by the capacity unguarded. *)
Definition GetNodeMetrics (nodeName : string)
           (nodeMetrics : NodeUsage + string)
           (node : NodeCapacity + string)
  : option NodeMetrics * error :=
  match nodeMetrics with
  | inr err => (None, Some ("failed to get node metrics: " +++ err))
  | inl usage =>
      match node with
      | inr err => (None, Some ("failed to get node details: " +++ err))
      | inl capacity =>
          let cpuUsage := node_usage_cpu usage in
          let memUsage := node_usage_memory usage in
          let cpuCapacity := capacity_cpu capacity in
          let memCapacity := capacity_memory capacity in
          let cpuPercent :=
            (float64_of_int cpuUsage / float64_of_int cpuCapacity * 100)%float in
          let memPercent :=
            (float64_of_int memUsage / float64_of_int memCapacity * 100)%float in
          (Some (mkNodeMetrics nodeName cpuUsage cpuPercent memUsage memPercent
                               cpuCapacity memCapacity),
           None)
      end
  end.

(** An item of the list that the metrics server returns for all pods,
    together with the answers that [GetPodMetrics] gets for it. *)
Record PodMetricsItem : Type := mkPodMetricsItem {
  item_Namespace : string;
  item_Name : string;
  item_metrics : list ContainerUsage + string;
  item_pod : list ContainerRequests + string
}.

(** [GetAllPodsMetrics]: a pod whose metrics cannot be got is logged and
    left out. *)
Definition GetAllPodsMetrics (listed : list PodMetricsItem + string)
  : list PodMetrics * error * list Effect :=
  match listed with
  | inr err => ([], Some ("failed to list pod metrics: " +++ err), [])
  | inl items =>
      let step (acc : list PodMetrics * list Effect) (item : PodMetricsItem) :=
        match GetPodMetrics (item_Namespace item) (item_Name item)
                            (item_metrics item) (item_pod item) with
        | (Some metrics, None) => (fst acc ++ [metrics], snd acc)
        | _ => (fst acc, snd acc ++ [LogWarn "Failed to get pod metrics"])
        end in
      let '(allMetrics, logs) := fold_left step items ([], []) in
      (allMetrics, None, logs)
  end.

(** *** The Kubernetes client's stop channel *)

Record K8sClient : Type := mkK8sClient {
  k8s_stopCh : Chan unit
}.

(** [select { case <-kc.stopCh: default: close(kc.stopCh) }]: the receive is
    ready exactly when the channel has been closed. *)
Definition K8sClient_Stop (kc : K8sClient) : Outcome K8sClient :=
  if closed (k8s_stopCh kc) then Done kc
  else bind (close (k8s_stopCh kc)) (fun ch => Done (mkK8sClient ch)).

(** *** The metrics watcher's loop *)

(** The interval of [NewMetricsWatcher]:
    [time.Duration(cfg.Kubernetes.MetricsInterval) * time.Second], and 60
    seconds when this is zero. *)
Definition NewMetricsWatcher_interval (MetricsInterval : Z) : Duration :=
  let interval := int64 (int64 MetricsInterval * Second) in
  if interval =? 0 then 60 * Second else interval.

(** [time.NewTicker(d)] panics unless [d] is positive. *)
Definition NewTicker (d : Duration) : Outcome Duration :=
  if d <=? 0 then Panic "non-positive interval for NewTicker" else Done d.

(** The two closures that [checkAllMetrics] hands to the worker pool. *)
Inductive MetricsTask : Type :=
| PodMetricsCheck
| NodeMetricsCheck.

Definition checkAllMetrics (wp : WorkerPool MetricsTask) (ctx : Context)
  : Outcome (WorkerPool MetricsTask * list Effect) :=
  bind (SubmitWithContext wp ctx PodMetricsCheck) (fun '(err1, wp1) =>
  bind (SubmitWithContext wp1 ctx NodeMetricsCheck) (fun '(err2, wp2) =>
    Done (wp2,
          [LogInfo "Checking all metrics"]
          ++ match err1 with
             | Some _ =>
                 [LogWarn "Failed to submit pod metrics check (worker pool queue full)"]
             | None => []
             end
          ++ match err2 with
             | Some _ =>
                 [LogWarn "Failed to submit node metrics check (worker pool queue full)"]
             | None => []
             end))).

(** The start of [metricsLoop]: the ticker is made, then the first check
    runs. *)
Definition metricsLoop_start (interval : Duration) (wp : WorkerPool MetricsTask)
           (ctx : Context) : Outcome (WorkerPool MetricsTask * list Effect) :=
  bind (NewTicker interval) (fun _ => checkAllMetrics wp ctx).

End collector.

Import collector.

(** ** Package [notifier]: the email dispatcher *)

Module notifier.

Definition lf : string := String (ascii_of_nat 10) EmptyString.
Definition crlf : string := String (ascii_of_nat 13) lf.

(** One call of [smtp.SendMail(addr, auth, from, to, msg)]; [auth] is
    [smtp.PlainAuth("", username, password, host)]. *)
Record Mail : Type := mkMail {
  mail_addr : string;
  auth_username : string;
  auth_password : string;
  auth_host : string;
  mail_from : string;
  mail_to : list string;
  mail_msg : string
}.

(** The network as the dispatcher meets it: every [SendMail] call made so
    far, the errors with which the coming calls are going to fail (a call
    succeeds once they are used up), and the time spent in [time.Sleep]. *)
Record Net : Type := mkNet {
  attempts : list Mail;
  failures : list string;
  slept : Duration
}.

Definition SendMail (net : Net) (mail : Mail) : error * Net :=
  match failures net with
  | e :: rest => (Some e, mkNet (attempts net ++ [mail]) rest (slept net))
  | [] => (None, mkNet (attempts net ++ [mail]) [] (slept net))
  end.

Definition Sleep (d : Duration) (net : Net) : Net :=
  mkNet (attempts net) (failures net) (slept net + d).

Record EmailDispatcher : Type := mkEmailDispatcher {
  config : EmailConfig
}.

Definition NewEmailDispatcher (cfg : EmailConfig) : EmailDispatcher :=
  mkEmailDispatcher cfg.

Section OnAlert.

(** [t.Format(time.RFC3339)] in the process's time zone, and the text of
    the [datatypes.JSON] value that [%v] prints. *)
Variable format_RFC3339 : Time -> string.
Variable json_text : gmap string string -> string.

Definition subject (event : AlertEvent) : string :=
  "Alert: " +++ Severity (Event_Alert event) +++ " - " +++ Source (Event_Alert event).

Definition body (event : AlertEvent) : string :=
  let a := Event_Alert event in
  lf +++ "Monitoring Alert" +++ lf +++ lf
     +++ "Severity: " +++ Severity a +++ lf
     +++ "Source: " +++ Source a +++ lf
     +++ "Message: " +++ Message a +++ lf
     +++ "Value: " +++ fmt_f 2 (Value a) +++ lf
     +++ "Timestamp: " +++ format_RFC3339 (CreatedAt a) +++ lf +++ lf
     +++ "Labels:" +++ lf
     +++ json_text (Labels a) +++ lf +++ lf
     +++ "--" +++ lf
     +++ "Monitoring Engine" +++ lf.

(** [for attempt := 0; attempt < 2; attempt++ { ... }] and the return
    after it, with [remaining] iterations still to run and [err] the
    loop's variable. *)
Fixpoint sendLoop (remaining : nat) (mail : Mail) (err : error) (net : Net)
  : error * Net * list Effect :=
  match remaining with
  | O =>
      (Some ("email dispatch failed after retries: "
             +++ match err with Some e => e | None => "%!w(<nil>)" end),
       net, [])
  | S remaining' =>
      let '(err', net') := SendMail net mail in
      match err' with
      | None => (None, net', [LogInfo "Alert email sent"])
      | Some _ => sendLoop remaining' mail err' (Sleep (1 * Second) net')
      end
  end.

Definition OnAlert (ed : EmailDispatcher) (event : AlertEvent) (net : Net)
  : error * Net * list Effect :=
  if String.eqb (SMTPHost (config ed)) "" || String.eqb (Username (config ed)) ""
  then (None, net, [LogWarn "Email configuration incomplete, skipping email dispatch"])
  else
    let message := "Subject: " +++ subject event +++ crlf +++ crlf +++ body event in
    let addr := SMTPHost (config ed) +++ ":" +++ fmt_d (SMTPPort (config ed)) in
    sendLoop 2 (mkMail addr (Username (config ed)) (Password (config ed))
                       (SMTPHost (config ed)) (From (config ed)) (To (config ed))
                       message)
             None net.

End OnAlert.

End notifier.

Import notifier.

(** ** Package [service] *)

Module service.

Record SeverityCounts : Type := mkSeverityCounts {
  Critical : Z;
  High : Z;
  Medium : Z;
  Low : Z
}.

Section Service.

Context {R : Type} `{AlertRepo R}.

Record alertService : Type := mkAlertService {
  repo : R
}.

Definition NewAlertService (repo : R) : alertService := mkAlertService repo.

Definition CreateAlert (s : alertService) (alert : Alert) : error * alertService :=
  let '(err, r) := Create (repo s) alert in (err, mkAlertService r).

Definition GetRecentAlerts (s : alertService) (limit : Z)
  : Outcome (list Alert * error * alertService) :=
  let limit := if (limit <=? 0) || (1000 <? limit) then 100 else limit in
  bind (GetRecent (repo s) limit) (fun '(alerts, err, r) =>
    Done (alerts, err, mkAlertService r)).

Definition GetTotalAlertsCount (s : alertService) : Z * error * alertService :=
  let '(n, err, r) := Count (repo s) in (n, err, mkAlertService r).

Definition GetFiringAlertsCount (s : alertService) : Z * error * alertService :=
  let '(n, err, r) := CountByStatus (repo s) AlertStatusFiring in
  (n, err, mkAlertService r).

Definition GetSeverityCounts (s : alertService)
  : option SeverityCounts * error * alertService :=
  let '(critical, err, r1) := CountBySeverity (repo s) "critical" in
  match err with
  | Some e => (None, Some e, mkAlertService r1)
  | None =>
      let '(high, err, r2) := CountBySeverity r1 "high" in
      match err with
      | Some e => (None, Some e, mkAlertService r2)
      | None =>
          let '(medium, err, r3) := CountBySeverity r2 "medium" in
          match err with
          | Some e => (None, Some e, mkAlertService r3)
          | None =>
              let '(low, err, r4) := CountBySeverity r3 "low" in
              match err with
              | Some e => (None, Some e, mkAlertService r4)
              | None =>
                  (Some (mkSeverityCounts critical high medium low), None,
                   mkAlertService r4)
              end
          end
      end
  end.

End Service.

Arguments alertService R : clear implicits.

End service.

(** ** Package [handlers] *)

Module handlers.

(** [strconv.Atoi] *)

Definition ErrSyntax : string := "invalid syntax".
Definition ErrRange : string := "value out of range".

Inductive Parsed : Type :=
| ParsedOk (n : Z)
| ParsedSyntax
| ParsedRange.

Definition maxUint64 : Z := 18446744073709551615.

(** The digit loop of [strconv.ParseUint] in base 10; it stops at the first
    character that is no digit, and at the first digit that takes the number
    beyond [uint64]. *)
Fixpoint ParseUint (s : string) (n : Z) : Parsed :=
  match s with
  | EmptyString => ParsedOk n
  | String c s' =>
      let d := Z.of_nat (nat_of_ascii c) - 48 in
      if (0 <=? d) && (d <=? 9)
      then
        if maxUint64 / 10 + 1 <=? n then ParsedRange
        else
          let n1 := 10 * n + d in
          if maxUint64 <? n1 then ParsedRange else ParseUint s' n1
      else ParsedSyntax
  end.

(** An optional sign and decimal digits; a value outside [int] comes back as
    the nearest bound together with a range error. *)
Definition Atoi (s : string) : Z * error :=
  let '(neg, body) :=
    match s with
    | String "-"%char s' => (true, s')
    | String "+"%char s' => (false, s')
    | _ => (false, s)
    end in
  match body with
  | EmptyString => (0, Some ErrSyntax)
  | _ =>
      match ParseUint body 0 with
      | ParsedSyntax => (0, Some ErrSyntax)
      | ParsedRange => (if neg then minInt64 else maxInt64, Some ErrRange)
      | ParsedOk un =>
          if negb neg && (maxInt64 <? un) then (maxInt64, Some ErrRange)
          else if neg && (maxInt64 + 1 <? un) then (minInt64, Some ErrRange)
          else (if neg then - un else un, None)
      end
  end.

(** The JSON answers of [GetRecentAlerts]: [200] with the alerts and their
    count, or [500] with the error. *)
Inductive Response : Type :=
| StatusOK (alerts : list Alert) (count : Z)
| StatusInternalServerError (err : string).

Section Handler.

Context {R : Type} `{AlertRepo R}.

Record AlertHandler : Type := mkAlertHandler {
  handler_service : service.alertService R
}.

Definition NewAlertHandler (svc : service.alertService R) : AlertHandler :=
  mkAlertHandler svc.

(** [query] is the [limit] parameter of the request, if it has one
    ([c.DefaultQuery("limit", "50")]). *)
Definition GetRecentAlerts (h : AlertHandler) (query : option string)
  : Outcome (Response * AlertHandler) :=
  let limitStr := match query with Some v => v | None => "50" end in
  let '(limit, err) := Atoi limitStr in
  let limit :=
    if match err with Some _ => true | None => false end || (limit <=? 0)
    then 50 else limit in
  bind (service.GetRecentAlerts (handler_service h) limit) (fun '(alerts, err, svc) =>
    match err with
    | Some e => Done (StatusInternalServerError e, mkAlertHandler svc)
    | None => Done (StatusOK alerts (Z.of_nat (length alerts)), mkAlertHandler svc)
    end).

End Handler.

Arguments AlertHandler R : clear implicits.

End handlers.

(** ** Package [websocket]: the hub *)

Module websocket.

Record Message : Type := mkMessage {
  msg_Type : string;
  msg_Payload : string;
  msg_Timestamp : Time
}.

(** A client's connection: whether writes on it fail, whether it has been
    closed, and what has been written on it. *)
Record Conn : Type := mkConn {
  conn_failing : bool;
  conn_closed : bool;
  conn_written : list Message
}.

(** [Client.WriteJSON]: the write fails on a broken or closed connection. *)
Definition WriteJSON (c : Conn) (v : Message) : error * Conn :=
  if conn_failing c || conn_closed c then (Some "write failed", c)
  else (None, mkConn false false (conn_written c ++ [v])).

Inductive HubEffect : Type :=
| ConnClosed (client : nat)
| HubLogged (line : LogLine).

(** A [*Client] is named by a number; [clients] maps each registered client
    to its connection.  [register] and [unregister] are unbuffered. *)
Record Hub : Type := mkHub {
  clients : gmap nat Conn;
  broadcast : Chan Message;
  register : Chan nat;
  unregister : Chan nat
}.

Definition NewHub : Hub := mkHub ∅ (make 500) (make 0) (make 0).

(** The [register] branch of [Run]'s loop. *)
Definition Run_register (h : Hub) (client : nat) (conn : Conn) : Hub * list HubEffect :=
  (mkHub (<[client := conn]> (clients h)) (broadcast h) (register h) (unregister h),
   [HubLogged (mkLogLine "info" "WebSocket client registered")]).

(** The [unregister] branch of [Run]'s loop. *)
Definition Run_unregister (h : Hub) (client : nat) : Hub * list HubEffect :=
  match clients h !! client with
  | Some _ =>
      (mkHub (delete client (clients h)) (broadcast h) (register h) (unregister h),
       [ConnClosed client; HubLogged (mkLogLine "info" "WebSocket client unregistered")])
  | None => (h, [HubLogged (mkLogLine "info" "WebSocket client unregistered")])
  end.

(** The loop over the snapshot of the clients in the [broadcast] branch of
    [Run]'s loop.  After a failed write the loop itself sends the client on
    the unbuffered [unregister] channel, whose only receiver is this very
    loop. *)
Fixpoint writeAll (h : Hub) (snapshot : list (nat * Conn)) (message : Message)
         (effects : list HubEffect) : Outcome (Hub * list HubEffect) :=
  match snapshot with
  | [] => Done (h, effects)
  | (client, conn) :: rest =>
      let '(err, conn') := WriteJSON conn message in
      let h' := mkHub (<[client := conn']> (clients h)) (broadcast h) (register h)
                      (unregister h) in
      match err with
      | None => writeAll h' rest message effects
      | Some _ =>
          bind (send (unregister h') client) (fun ch =>
            writeAll (mkHub (clients h') (broadcast h') (register h') ch) rest message
                     (effects ++ [HubLogged (mkLogLine "error" "WebSocket write failed")]))
      end
  end.

(** The [broadcast] branch of [Run]'s loop, for the message it received. *)
Definition Run_broadcast (h : Hub) (message : Message) : Outcome (Hub * list HubEffect) :=
  writeAll h (map_to_list (clients h)) message [].

(** [Hub.Broadcast] *)
Definition Broadcast (h : Hub) (msg : Message) : Outcome (Hub * list HubEffect) :=
  bind (try_send (broadcast h) msg) (fun '(sent, ch) =>
    if sent
    then Done (mkHub (clients h) ch (register h) (unregister h), [])
    else Done (h, [HubLogged (mkLogLine "warn" "Broadcast channel full")])).

Section OnAlert.

(** [json.Marshal] of an alert: its text, or its error. *)
Variable Marshal : Alert -> string + string.

(** [Hub.OnAlert] *)
Definition Hub_OnAlert (h : Hub) (event : AlertEvent) (w : World)
  : Outcome (error * Hub * list HubEffect) :=
  match Marshal (Event_Alert event) with
  | inr err =>
      Done (Some err, h,
            [HubLogged (mkLogLine "error" "Failed to marshal alert for WebSocket broadcast")])
  | inl payload =>
      bind (Broadcast h (mkMessage "alert" payload (Now w))) (fun '(h', effects) =>
        Done (None, h', effects))
  end.

End OnAlert.

End websocket.

(** ** Vocabulary of the specification *)

Module spec.

(** The [alert_type] label of an alert. *)
Definition alert_type (a : Alert) : option string := Labels a !! "alert_type".

(** The severity column of the rule table, as the specification lists it. *)
Definition table_severity (alertType : string) : option string :=
  if bool_decide (alertType ∈ ["pod_failed"; "pod_unknown"; "pod_oom_killed";
                               "node_not_ready"])
  then Some "critical"
  else if bool_decide (alertType ∈ ["pod_crash_loop"; "pod_image_pull";
                                    "pod_restart_threshold"; "node_memory_pressure";
                                    "node_disk_pressure"; "pod_cpu_high";
                                    "pod_memory_high"])
  then Some "high"
  else if bool_decide (alertType ∈ ["pod_pending"; "node_pid_pressure"])
  then Some "medium"
  else if bool_decide (alertType ∈ ["node_cpu_high"; "node_memory_high"])
  then Some "critical"
  else None.

(** An alert follows the table when its severity is the one listed for its
    [alert_type] label. *)
Definition follows_table (a : Alert) : Prop :=
  exists t, alert_type a = Some t /\ table_severity t = Some (Severity a).

(** An alert with its id set aside. *)
Definition ids_aside (a : Alert) : Alert :=
  mkAlert 0%N (Status a) (Severity a) (Message a) (Source a) (Labels a) (Value a)
          (TriggeredAt a) (ResolvedAt a) (CreatedAt a) (UpdatedAt a).

(** An alert with its id and the clock readings taken at its creation set
    aside. *)
Definition content (a : Alert) : Alert :=
  mkAlert 0%N (Status a) (Severity a) (Message a) (Source a) (Labels a) (Value a)
          0 (ResolvedAt a) 0 0.

(** Insertion in creation order leaves a list in this order. *)
Definition older_first (a b : Alert) : Prop := TriggeredAt a <= TriggeredAt b.

#[export] Instance older_first_trans : Transitive older_first.
Proof.
  intros a b c. unfold older_first. lia.
Qed.

(** An alert of type [t] is among [l]. *)
Definition emits (t : string) (l : list Alert) : Prop :=
  exists a, a ∈ l /\ alert_type a = Some t.

(** The [int32] total that the loop of [evaluatePodConditions] computes. *)
Definition totalRestarts (pod : Pod) : Z :=
  fold_left (fun total cs => int32 (total + RestartCount cs)) (ContainerStatuses pod) 0.

(** The clock reading of an alert test: what [evaluatePodConditions]
    compares with the pending timeout. *)
Definition pendingFor (pod : Pod) (w : World) : Duration :=
  Since (Now w) (CreationTimestamp pod).

(** *** What an evaluation decides on

    An evaluation decides on a list of alerts to build, each given by the
    arguments of its builder, and builds them one after the other. *)

Fixpoint buildAll {B : Type} (build : B -> World -> Alert * World)
         (plan : list B) (w : World) : list Alert * World :=
  match plan with
  | [] => ([], w)
  | b :: plan' =>
      let '(alert, w') := build b w in
      let '(rest, w'') := buildAll build plan' w' in
      (alert :: rest, w'')
  end.

(** Appending the alerts of a plan to the state of an evaluation. *)
Definition run {B : Type} (build : B -> World -> Alert * World) (plan : list B)
           (st : list Alert * World) : list Alert * World :=
  (fst st ++ fst (buildAll build plan (snd st)), snd (buildAll build plan (snd st))).

Definition one (cond : bool) {B : Type} (b : B) : list B :=
  if cond then [b] else [].

Definition buildPod (pod : Pod) (b : AlertType * float) : World -> Alert * World :=
  BuildPodAlert pod (fst b) (snd b).

Definition buildNode (node : Node) (b : AlertType * float) : World -> Alert * World :=
  BuildNodeAlert node (fst b) (snd b).

Definition buildPodMetric (metrics : PodMetrics) (b : AlertType * float * float)
  : World -> Alert * World :=
  BuildPodMetricAlert (pm_Namespace metrics) (pm_PodName metrics)
                      (fst (fst b)) (snd (fst b)) (snd b).

Definition buildNodeMetric (metrics : NodeMetrics) (b : AlertType * float * float)
  : World -> Alert * World :=
  BuildNodeMetricAlert (nm_NodeName metrics) (fst (fst b)) (snd (fst b)) (snd b).

Definition containerPlan (cs : ContainerStatus) : list (AlertType * float) :=
  one (isOOMKilled cs) (AlertTypePodOOMKilled, float64_of_int (RestartCount cs))
  ++ one (isCrashLoop cs) (AlertTypePodCrashLoop, float64_of_int (RestartCount cs))
  ++ one (isImagePullError cs) (AlertTypePodImagePullError, 1%float).

(** [pending] tells whether the pod has been pending for longer than the
    timeout at the clock reading of the evaluation. *)
Definition podPlan (pw : PodWatcher) (pod : Pod) (pending : bool)
  : list (AlertType * float) :=
  one (String.eqb (Status_Phase pod) PodFailed) (AlertTypePodFailed, 1%float)
  ++ one (String.eqb (Status_Phase pod) PodUnknown) (AlertTypePodUnknown, 1%float)
  ++ flat_map containerPlan (ContainerStatuses pod)
  ++ one (restartThreshold pw <? totalRestarts pod)
         (AlertTypePodRestartThreshold, float64_of_int (totalRestarts pod))
  ++ one (String.eqb (Status_Phase pod) PodPending && pending)
         (AlertTypePodPending, 1%float).

Definition conditionPlan (condition : NodeCondition) : list (AlertType * float) :=
  if String.eqb (cond_Type condition) NodeReady then
    one (negb (String.eqb (cond_Status condition) ConditionTrue))
        (AlertTypeNodeNotReady, 1%float)
  else if String.eqb (cond_Type condition) NodeMemoryPressure then
    one (String.eqb (cond_Status condition) ConditionTrue)
        (AlertTypeNodeMemoryPressure, 1%float)
  else if String.eqb (cond_Type condition) NodeDiskPressure then
    one (String.eqb (cond_Status condition) ConditionTrue)
        (AlertTypeNodeDiskPressure, 1%float)
  else if String.eqb (cond_Type condition) NodePIDPressure then
    one (String.eqb (cond_Status condition) ConditionTrue)
        (AlertTypeNodePIDPressure, 1%float)
  else [].

Definition nodePlan (node : Node) : list (AlertType * float) :=
  flat_map conditionPlan (Conditions node).

Definition podMetricPlan (thresholds : AlertRulesConfig) (metrics : PodMetrics)
  : list (AlertType * float * float) :=
  if (CPURequestMillis metrics =? 0) && (MemoryRequestBytes metrics =? 0) then []
  else
    one ((0 <? CPURequestMillis metrics)
         && PrimFloat.ltb (PodCPUPercent thresholds) (pm_CPUUsagePercent metrics))
        (AlertTypePodCPUHigh, pm_CPUUsagePercent metrics, PodCPUPercent thresholds)
    ++ one ((0 <? MemoryRequestBytes metrics)
            && PrimFloat.ltb (PodMemoryPercent thresholds) (pm_MemoryUsagePercent metrics))
           (AlertTypePodMemoryHigh, pm_MemoryUsagePercent metrics,
            PodMemoryPercent thresholds).

Definition nodeMetricPlan (thresholds : AlertRulesConfig) (metrics : NodeMetrics)
  : list (AlertType * float * float) :=
  one (PrimFloat.ltb (NodeCPUPercent thresholds) (nm_CPUUsagePercent metrics))
      (AlertTypeNodeCPUHigh, nm_CPUUsagePercent metrics, NodeCPUPercent thresholds)
  ++ one (PrimFloat.ltb (NodeMemoryPercent thresholds) (nm_MemoryUsagePercent metrics))
         (AlertTypeNodeMemoryHigh, nm_MemoryUsagePercent metrics,
          NodeMemoryPercent thresholds).

(** The alert types that each evaluation can decide on. *)
Definition pod_alert_types : list AlertType :=
  [AlertTypePodFailed; AlertTypePodUnknown; AlertTypePodOOMKilled;
   AlertTypePodCrashLoop; AlertTypePodImagePullError;
   AlertTypePodRestartThreshold; AlertTypePodPending].

Definition node_alert_types : list AlertType :=
  [AlertTypeNodeNotReady; AlertTypeNodeMemoryPressure; AlertTypeNodeDiskPressure;
   AlertTypeNodePIDPressure].

Definition pod_metric_alert_types : list AlertType :=
  [AlertTypePodCPUHigh; AlertTypePodMemoryHigh].

Definition node_metric_alert_types : list AlertType :=
  [AlertTypeNodeCPUHigh; AlertTypeNodeMemoryHigh].

(** The number of alerts of type [t] among [l]. *)
Definition count_type (t : string) (l : list Alert) : nat :=
  length (filter (fun a => alert_type a = Some t) l).

(** The sum of the containers' restart counts, as a plain integer. *)
Definition sumRestarts (pod : Pod) : Z :=
  fold_right Z.add 0 (map RestartCount (ContainerStatuses pod)).

(** The event channel of the bus behind a state manager has not been
    closed (nothing in the pipeline closes it). *)
Definition bus_open {R O : Type} (asm : AlertStateManager R O) : Prop :=
  closed (eventChan (eventBus asm)) = false.

(** The pending test of [evaluatePodConditions] at the clock reading of [w]. *)
Definition pendingTooLong (pw : PodWatcher) (pod : Pod) (w : World) : bool :=
  pendingTimeout pw <? pendingFor pod w.

(** A pod alert built at clock reading [t], for examples. *)
Definition sample_alert (t : Time) (id : N) : Alert :=
  fst (NewAlert "high" "Test alert" "test" 0%float ∅ (mkWorld t id)).

(** Three alerts stored in the order of their creation, as the repository's
    tests store them. *)
Definition three_alerts : InMemoryAlertRepo :=
  snd (Create (snd (Create (snd (Create NewInMemoryAlertRepo (sample_alert 1 0)))
                           (sample_alert 2 1)))
              (sample_alert 3 2)).

Definition three_rows : PostgresAlertRepo :=
  mkPostgresAlertRepo (alerts three_alerts) None.

(** The pool of scenario S6, with tasks named by numbers, and a bus that
    has been started. *)
Definition small_pool : WorkerPool nat := NewWorkerPool 2 3.

Definition started_bus : EventBus nat := fst (processor.Start NewEventBus).

Definition cancelled : Context := mkContext (Some "context canceled").

(** A state manager over the in-memory repository, and one over a database
    that refuses every statement. *)
Definition memory_manager : AlertStateManager InMemoryAlertRepo nat :=
  NewAlertStateManager NewInMemoryAlertRepo started_bus.

Definition broken_db_manager : AlertStateManager PostgresAlertRepo nat :=
  NewAlertStateManager (mkPostgresAlertRepo [] (Some "connection refused")) started_bus.

(** A dispatcher whose configuration names no SMTP host. *)
Definition unconfigured_dispatcher : EmailDispatcher :=
  NewEmailDispatcher (mkEmailConfig true "" 587 "alerts" "secret" "a@example.org"
                                    ["b@example.org"]).

Definition idle_net : Net := mkNet [] [] 0.

(** A pod that has been pending since clock reading [0], without container
    statuses yet; a pod with one container that has never restarted. *)
Definition pending_pod : Pod := mkPod "prod" "web-7" 0 PodPending "" "" [].

Definition quiet_pod : Pod :=
  mkPod "prod" "web-7" 0 "Running" "" ""
        [mkContainerStatus "app" 0 None None].

(** The rules' defaults of the configuration tests, and rules with a
    negative restart threshold. *)
Definition default_rules : AlertRulesConfig :=
  computePercentFields (mkAlertRulesConfig 3 80 85 70 75 60 0 0 0 0).

Definition eager_rules : AlertRulesConfig :=
  computePercentFields (mkAlertRulesConfig (-1) 80 85 70 75 60 0 0 0 0).

(** The snapshot of scenario S4: 450m of CPU used with 500m requested, no
    memory request; a node with a failing kubelet; a node snapshot. *)
Definition busy_pod_metrics : PodMetrics :=
  mkPodMetrics "a" "b" 450 90%float 1000 0%float 500 0.

Definition unready_node : Node :=
  mkNode "n1" [mkNodeCondition NodeReady "False" "KubeletNotReady"].

Definition busy_node_metrics : NodeMetrics :=
  mkNodeMetrics "n1" 3900 97.5%float 1000 12.5%float 4000 8000.

(** The pod of scenario S1: container [app] was OOM-killed and has
    restarted four times. *)
Definition oom_pod : Pod :=
  mkPod "prod" "web-7" 0 "Running" "" ""
        [mkContainerStatus "app" 4 None (Some (mkTerminated "OOMKilled"))].

(** *** Drivers for the queue properties *)

(** [Submit] called for each task in turn, with the error of each call. *)
Fixpoint SubmitAll {Task : Type} (wp : WorkerPool Task) (tasks : list Task)
  : Outcome (list error * WorkerPool Task) :=
  match tasks with
  | [] => Done ([], wp)
  | task :: tasks' =>
      bind (Submit wp task) (fun '(e, wp') =>
      bind (SubmitAll wp' tasks') (fun '(es, wp'') =>
        Done (e :: es, wp'')))
  end.

(** The workers taking up to [n] tasks off the queue, one after the other. *)
Fixpoint receiveAll {Task : Type} (n : nat) (wp : WorkerPool Task)
  : list Task * WorkerPool Task :=
  match n with
  | O => ([], wp)
  | S n' =>
      match worker_receive wp with
      | Some (task, wp') =>
          let '(tasks, wp'') := receiveAll n' wp' in (task :: tasks, wp'')
      | None => ([], wp)
      end
  end.

(** An observer that counts the events it is given. *)
#[export] Instance counting_observer : AlertObserver nat := {
  AlertObserver_OnAlert n _ := (None, S n)
}.

(** A dispatcher with a complete configuration, and networks on which the
    first call, or every call, of [SendMail] fails. *)
Definition configured_dispatcher : EmailDispatcher :=
  NewEmailDispatcher (mkEmailConfig true "smtp.example.org" 587 "alerts" "secret"
                                    "a@example.org" ["b@example.org"]).

Definition flaky_net : Net := mkNet [] ["connection reset"] 0.

Definition dead_net : Net :=
  mkNet [] ["connection refused"; "connection refused"; "connection refused"] 0.

(** A hub with two clients, the second of which has a broken connection. *)
Definition healthy_conn : websocket.Conn := websocket.mkConn false false [].

Definition broken_conn : websocket.Conn := websocket.mkConn true false [].

Definition one_client_hub : websocket.Hub :=
  fst (websocket.Run_register websocket.NewHub 1%nat healthy_conn).

Definition two_client_hub : websocket.Hub :=
  fst (websocket.Run_register one_client_hub 2%nat broken_conn).

(** A pod with two OOM-killed containers. *)
Definition twice_oom_pod : Pod :=
  mkPod "prod" "api-1" 0 "Running" "" ""
        [mkContainerStatus "app" 1 None (Some (mkTerminated "OOMKilled"));
         mkContainerStatus "sidecar" 2 None (Some (mkTerminated "OOMKilled"))].

End spec.

Import spec.

(** ** Proof automation for the builders *)

(** Deciding the cases of a builder's [switch] for a given alert type. *)
Ltac decide_switch :=
  repeat match goal with
         | |- context [String.eqb ?a ?b] =>
             let r := eval vm_compute in (String.eqb a b) in
             change (String.eqb a b) with r; cbv iota
         end.

Ltac split_builder :=
  repeat (cbv beta iota zeta;
          match goal with
          | |- context [getCrashLoopContainer ?p] => destruct (getCrashLoopContainer p)
          | |- context [getImagePullError ?p] => destruct (getImagePullError p)
          | |- context [if ?c then _ else _] => destruct c
          end);
  cbv beta iota zeta.

(** * Verified properties *)

(** ** Integers *)

Lemma int64_id (z : Z) : is_int64 z -> int64 z = z.
Proof.
  unfold is_int64, minInt64, maxInt64, int64, wrap. intros Hz.
  rewrite Z.mod_small; lia.
Qed.

Lemma int32_id (z : Z) : is_int32 z -> int32 z = z.
Proof.
  unfold is_int32, minInt32, maxInt32, int32, wrap. intros Hz.
  rewrite Z.mod_small; lia.
Qed.

Lemma int32_range (z : Z) : is_int32 (int32 z).
Proof.
  unfold is_int32, minInt32, maxInt32, int32, wrap.
  pose proof (Z.mod_pos_bound (z + 2 ^ (32 - 1)) (2 ^ 32) ltac:(lia)). lia.
Qed.

(** ** The repository *)

Section Repository.

Implicit Types (r : InMemoryAlertRepo) (p : PostgresAlertRepo) (limit : Z).

Lemma InMemory_GetRecent_in_range r limit :
  0 <= limit <= maxInt64 ->
  Z.of_nat (length (alerts r)) <= maxInt64 ->
  InMemoryAlertRepo_GetRecent r limit
  = Done (drop (length (alerts r) - Z.to_nat limit) (alerts r), None, r).
Proof.
  intros Hlimit Hlen. unfold InMemoryAlertRepo_GetRecent.
  set (n := Z.of_nat (length (alerts r))) in *.
  assert (Hn : 0 <= n) by (subst n; lia).
  rewrite int64_id by (unfold is_int64, minInt64, maxInt64 in *; lia).
  destruct (n - limit <? 0) eqn:Hneg.
  - apply Z.ltb_lt in Hneg.
    replace (n <? 0) with false by (symmetry; apply Z.ltb_ge; lia).
    do 3 f_equal. simpl. subst n.
    replace (length (alerts r) - Z.to_nat limit)%nat with 0%nat by lia.
    reflexivity.
  - apply Z.ltb_ge in Hneg.
    replace (n <? n - limit) with false by (symmetry; apply Z.ltb_ge; lia).
    do 3 f_equal. subst n. f_equal. lia.
Qed.

Lemma InMemory_GetRecent_negative r limit :
  limit < 0 ->
  Z.of_nat (length (alerts r)) - limit <= maxInt64 ->
  InMemoryAlertRepo_GetRecent r limit = Panic "slice bounds out of range".
Proof.
  intros Hlimit Hlen. unfold InMemoryAlertRepo_GetRecent.
  set (n := Z.of_nat (length (alerts r))) in *.
  assert (Hn : 0 <= n) by (subst n; lia).
  rewrite int64_id by (unfold is_int64, minInt64, maxInt64 in *; lia).
  replace (n - limit <? 0) with false by (symmetry; apply Z.ltb_ge; lia).
  replace (n <? n - limit) with true by (symmetry; apply Z.ltb_lt; lia).
  reflexivity.
Qed.

Lemma Sorted_drop {A : Type} (R : relation A) `{!Transitive R} (k : nat) (l : list A) :
  Sorted R l -> Sorted R (drop k l).
Proof.
  intros Hl. apply StronglySorted_Sorted.
  apply (StronglySorted_app_1_r R (take k l)).
  rewrite take_drop. by apply Sorted_StronglySorted.
Qed.

Lemma Sorted_take {A : Type} (R : relation A) `{!Transitive R} (k : nat) (l : list A) :
  Sorted R l -> Sorted R (take k l).
Proof.
  intros Hl. apply StronglySorted_Sorted.
  apply (StronglySorted_app_1_l R _ (drop k l)).
  rewrite take_drop. by apply Sorted_StronglySorted.
Qed.

End Repository.

(** C4 as stated fails on the in-memory adapter: with three alerts stored in
    creation order, [GetRecent 2] returns two alerts with the older one
    first, which is not descending by [triggered_at]. *)
Lemma GetRecent_in_memory_not_descending :
  exists res,
    GetRecent three_alerts 2 = Done (res, None, three_alerts)
    /\ Z.of_nat (length res) <= 2
    /\ ~ Sorted newer_first res.
Proof.
  eexists. split; [reflexivity |]. split; [simpl; lia |].
  intros Hsorted. apply Sorted_inv in Hsorted as [_ Hhd].
  apply HdRel_inv in Hhd. unfold newer_first in Hhd. simpl in Hhd. lia.
Qed.

(** C4, amended: for a limit that is not negative the in-memory adapter
    returns at most [limit] alerts, namely the last stored ones in the order
    in which they were stored (oldest first when alerts are stored in
    creation order); the PostgreSQL adapter returns, for a positive limit,
    at most [limit] of its rows in descending order of [triggered_at]. *)
Theorem GetRecent_at_most_limit (r : InMemoryAlertRepo) (p : PostgresAlertRepo)
  (limit : Z)
  (Hlimit : 0 <= limit <= maxInt64)
  (Hlen : Z.of_nat (length (alerts r)) <= maxInt64)
  (Hdb : db_error p = None) :
  (exists older res,
      GetRecent r limit = Done (res, None, r)
      /\ Z.of_nat (length res) <= limit
      /\ alerts r = older ++ res
      /\ (Sorted older_first (alerts r) -> Sorted older_first res))
  /\ (0 < limit ->
      exists res,
        GetRecent p limit = Done (res, None, p)
        /\ Z.of_nat (length res) <= limit
        /\ Sorted newer_first res
        /\ res ⊆+ rows p).
Proof.
  split.
  - exists (take (length (alerts r) - Z.to_nat limit) (alerts r)).
    exists (drop (length (alerts r) - Z.to_nat limit) (alerts r)).
    split; [by apply InMemory_GetRecent_in_range |].
    split; [rewrite length_drop; lia |].
    split; [by rewrite take_drop |].
    apply Sorted_drop, _.
  - intros Hpos. simpl. unfold PostgresAlertRepo_GetRecent. rewrite Hdb.
    replace (0 <=? limit) with true by (symmetry; apply Z.leb_le; lia).
    eexists. split; [reflexivity |].
    split; [rewrite length_take; lia |].
    split.
    + apply Sorted_take; [apply _ |]. apply Sorted_merge_sort, _.
    + etrans; [apply sublist_submseteq, sublist_take |].
      by rewrite merge_sort_Permutation.
Qed.

Lemma GetRecent_at_most_limit_witness :
  (exists older res,
      GetRecent three_alerts 2 = Done (res, None, three_alerts)
      /\ Z.of_nat (length res) <= 2
      /\ alerts three_alerts = older ++ res
      /\ (Sorted older_first (alerts three_alerts) -> Sorted older_first res))
  /\ exists res,
      GetRecent three_rows 2 = Done (res, None, three_rows)
      /\ Z.of_nat (length res) <= 2
      /\ Sorted newer_first res
      /\ res ⊆+ rows three_rows.
Proof.
  assert (Hlimit : 0 <= 2 <= maxInt64) by (unfold maxInt64; lia).
  assert (Hlen : Z.of_nat (length (alerts three_alerts)) <= maxInt64)
    by (unfold maxInt64; simpl; lia).
  pose proof (GetRecent_at_most_limit three_alerts three_rows 2 Hlimit Hlen eq_refl)
    as [Hmem Hpg].
  split; [exact Hmem | apply Hpg; lia].
Defined.

(** C10: for a limit that is not negative, [InMemoryAlertRepo.GetRecent]
    returns exactly [min limit (number of stored alerts)] alerts with a nil
    error and leaves the stored list as it was; for a negative limit the
    lower bound [len(alerts) - limit] of the slice exceeds the length and the
    slice expression panics. *)
Theorem InMemory_GetRecent_min (r : InMemoryAlertRepo) (limit : Z)
  (Hlimit : is_int64 limit)
  (Hlen : Z.of_nat (length (alerts r)) <= maxInt64) :
  (0 <= limit ->
   exists res,
     InMemoryAlertRepo_GetRecent r limit = Done (res, None, r)
     /\ Z.of_nat (length res) = Z.min limit (Z.of_nat (length (alerts r))))
  /\ (limit < 0 ->
      Z.of_nat (length (alerts r)) - limit <= maxInt64 ->
      InMemoryAlertRepo_GetRecent r limit = Panic "slice bounds out of range").
Proof.
  split.
  - intros Hpos. eexists. split.
    + apply InMemory_GetRecent_in_range; [unfold is_int64 in Hlimit; lia | done].
    + rewrite length_drop. lia.
  - intros Hneg Hfit. by apply InMemory_GetRecent_negative.
Qed.

Lemma InMemory_GetRecent_min_witness :
  (exists res,
     InMemoryAlertRepo_GetRecent three_alerts 2 = Done (res, None, three_alerts)
     /\ Z.of_nat (length res) = Z.min 2 (Z.of_nat (length (alerts three_alerts))))
  /\ InMemoryAlertRepo_GetRecent three_alerts (-1) = Panic "slice bounds out of range".
Proof.
  assert (Hlen : Z.of_nat (length (alerts three_alerts)) <= maxInt64)
    by (unfold maxInt64; simpl; lia).
  split.
  - apply (InMemory_GetRecent_min three_alerts 2); [| exact Hlen | lia].
    unfold is_int64, minInt64, maxInt64; lia.
  - apply (InMemory_GetRecent_min three_alerts (-1)); [| exact Hlen | lia |].
    + unfold is_int64, minInt64, maxInt64; lia.
    + unfold maxInt64; simpl; lia.
Defined.

(** ** The worker pool *)

Section PoolProperties.

Context {Task : Type}.
Implicit Types (wp : WorkerPool Task) (task : Task).

Lemma Submit_inv wp task e wp' :
  pool_inv wp -> Submit wp task = Done (e, wp') -> pool_inv wp'.
Proof.
  intros [Hcap Hopen]. unfold Submit.
  destruct (stopped wp) eqn:Hstopped.
  { intros [= <- <-]. split; [done | intros Hf; congruence]. }
  destruct (Hopen eq_refl) as [Hq Hs]. unfold try_send. rewrite Hq. simpl.
  destruct (Nat.ltb_spec (length (buf (taskQueue wp))) (cap (taskQueue wp))) as [Hroom | Hfull];
    intros [= <- <-].
  - split; simpl; [rewrite length_app; simpl; lia | done].
  - split; [done | intros _; done].
Qed.

Lemma Stop_inv wp wp' : pool_inv wp -> Stop wp = Done wp' -> pool_inv wp'.
Proof.
  intros [Hcap Hopen]. unfold Stop.
  destruct (stopped wp) eqn:Hstopped.
  { intros [= <-]. split; [done | intros Hf; congruence]. }
  destruct (Hopen eq_refl) as [Hq Hs]. unfold close. rewrite Hq, Hs. simpl.
  intros [= <-]. split; simpl; [done | discriminate].
Qed.

Lemma reachable_inv wp : reachable wp -> pool_inv wp.
Proof.
  induction 1 as [wc qs | wp _ IH | wp task e wp' _ IH Hsubmit
                  | wp task wp' _ IH Hrecv | wp wp' _ IH Hstop].
  - split; simpl; [lia | done].
  - exact IH.
  - eapply Submit_inv; eauto.
  - destruct IH as [Hcap Hopen]. unfold worker_receive in Hrecv.
    destruct (buf (taskQueue wp)) as [| t rest] eqn:Hbuf; [discriminate |].
    injection Hrecv as <- <-. split; simpl in *; [lia | exact Hopen].
  - eapply Stop_inv; eauto.
Qed.

(** C6: [Submit] always returns, and never parks its caller: on a stopped
    pool it returns the Stopped error, on a running pool it puts the task at
    the back of the queue and returns nil when the queue has room, and
    returns the QueueFull error when the queue is at capacity;
    [SubmitWithContext] returns the context's error when the context is
    already done, and is [Submit] otherwise. *)
Theorem Submit_never_blocks wp task (ctx : Context) (Hreach : reachable wp) :
  (exists e wp', Submit wp task = Done (e, wp'))
  /\ (stopped wp = true -> Submit wp task = Done (Some ErrStopped, wp))
  /\ (stopped wp = false ->
      (len (taskQueue wp) < cap (taskQueue wp))%nat ->
      exists wp',
        Submit wp task = Done (None, wp')
        /\ buf (taskQueue wp') = buf (taskQueue wp) ++ [task]
        /\ stopped wp' = false)
  /\ (stopped wp = false ->
      len (taskQueue wp) = cap (taskQueue wp) ->
      Submit wp task = Done (Some ErrQueueFull, wp))
  /\ (forall e, ctx_Err ctx = Some e ->
                SubmitWithContext wp ctx task = Done (Some e, wp))
  /\ (ctx_Err ctx = None -> SubmitWithContext wp ctx task = Submit wp task).
Proof.
  destruct (reachable_inv wp Hreach) as [Hcap Hopen].
  assert (Hrunning : stopped wp = false ->
            Submit wp task
            = if (len (taskQueue wp) <? cap (taskQueue wp))%nat
              then Done (None,
                         mkWorkerPool (workerCount wp)
                           (mkChan (buf (taskQueue wp) ++ [task]) (cap (taskQueue wp)) false)
                           (stopChan wp) (pool.wg wp) (stopped wp))
              else Done (Some ErrQueueFull, wp)).
  { intros Hs. destruct (Hopen Hs) as [Hq _]. unfold Submit, try_send, len.
    rewrite Hs, Hq. simpl. by destruct (_ <? _)%nat. }
  repeat split.
  - destruct (stopped wp) eqn:Hs.
    + unfold Submit. rewrite Hs. eauto.
    + rewrite (Hrunning eq_refl). destruct (_ <? _)%nat; eauto.
  - intros Hs. unfold Submit. by rewrite Hs.
  - intros Hs Hroom. rewrite (Hrunning Hs).
    apply Nat.ltb_lt in Hroom. rewrite Hroom. eexists. split; [reflexivity |]. done.
  - intros Hs Hfull. rewrite (Hrunning Hs).
    replace (_ <? _)%nat with false; [done |].
    symmetry. apply Nat.ltb_ge. lia.
  - intros e He. unfold SubmitWithContext. by rewrite He.
  - intros He. unfold SubmitWithContext. by rewrite He.
Qed.

(** Stopping a pool that has been reached from its construction returns,
    leaves the pool stopped, and a further [Stop] changes nothing. *)
Lemma Stop_idempotent wp :
  reachable wp ->
  exists wp1,
    Stop wp = Done wp1 /\ IsStopped wp1 = true /\ Stop wp1 = Done wp1.
Proof.
  intros Hreach. destruct (reachable_inv wp Hreach) as [_ Hopen].
  unfold Stop at 1. destruct (stopped wp) eqn:Hs.
  - exists wp. unfold IsStopped, Stop. by rewrite Hs.
  - destruct (Hopen eq_refl) as [Hq Hc]. unfold close. rewrite Hq, Hc. simpl.
    eexists. split; [reflexivity |]. done.
Qed.

End PoolProperties.

Lemma Submit_never_blocks_witness :
  (exists wp',
      Submit small_pool 7%nat = Done (None, wp')
      /\ buf (taskQueue wp') = [7%nat]
      /\ stopped wp' = false)
  /\ SubmitWithContext small_pool cancelled 7%nat
     = Done (Some "context canceled", small_pool).
Proof.
  pose proof (Submit_never_blocks small_pool 7%nat cancelled (reach_new 2 3))
    as (_ & _ & Hroom & _ & Hctx & _).
  split.
  - apply Hroom; [reflexivity | vm_compute; lia].
  - apply Hctx. reflexivity.
Defined.

(** ** The event bus *)

(** C2 as stated fails on the event bus: [Stop] closes the stop channel
    without looking at it, so the second call on a started and stopped bus
    panics. *)
Lemma EventBus_Stop_twice_panics :
  bind (EventBus_Stop started_bus) EventBus_Stop = Panic "close of closed channel".
Proof.
  reflexivity.
Qed.

(** C2, amended: a second [Stop] on a stopped worker pool returns without a
    panic and leaves the pool as it was; on the event bus the first [Stop]
    returns without a panic, with the stop channel closed, the dispatcher
    gone and the rest of the bus untouched. *)
Theorem Stop_pool_twice_bus_once {Task O : Type}
  (wp : WorkerPool Task) (eb : EventBus O)
  (Hreach : reachable wp) (Hopen : closed (stopCh eb) = false) :
  (exists wp1,
      Stop wp = Done wp1 /\ IsStopped wp1 = true /\ Stop wp1 = Done wp1)
  /\ (exists eb1,
         EventBus_Stop eb = Done eb1
         /\ closed (stopCh eb1) = true
         /\ processor.wg eb1 = 0%nat
         /\ eventChan eb1 = eventChan eb
         /\ observers eb1 = observers eb).
Proof.
  split; [by apply Stop_idempotent |].
  unfold EventBus_Stop, close. rewrite Hopen. simpl.
  eexists. split; [reflexivity |]. done.
Qed.

Lemma Stop_pool_twice_bus_once_witness :
  (exists wp1,
      Stop small_pool = Done wp1 /\ IsStopped wp1 = true /\ Stop wp1 = Done wp1)
  /\ (exists eb1,
         EventBus_Stop started_bus = Done eb1
         /\ closed (stopCh eb1) = true
         /\ processor.wg eb1 = 0%nat
         /\ eventChan eb1 = eventChan started_bus
         /\ observers eb1 = observers started_bus).
Proof.
  exact (Stop_pool_twice_bus_once small_pool started_bus (reach_new 2 3) eq_refl).
Defined.

(** ** The state manager *)

Section BusProperties.

Context {O : Type}.
Implicit Types (eb : EventBus O) (event : AlertEvent).

Lemma Publish_open eb event :
  closed (eventChan eb) = false ->
  Publish eb event
  = if (len (eventChan eb) <? cap (eventChan eb))%nat
    then Done (mkEventBus (observers eb)
                 (mkChan (buf (eventChan eb) ++ [event]) (cap (eventChan eb)) false)
                 (stopCh eb) (processor.wg eb),
               [])
    else Done (eb, [LogWarn "Event bus channel full, dropping event"]).
Proof.
  intros Hopen. unfold Publish, try_send, len. rewrite Hopen. simpl.
  by destruct (_ <? _)%nat.
Qed.

Lemma Publish_stays_open eb event eb' logs :
  closed (eventChan eb) = false ->
  Publish eb event = Done (eb', logs) ->
  closed (eventChan eb') = false /\ published logs = [] /\ created logs = [].
Proof.
  intros Hopen. rewrite (Publish_open _ _ Hopen).
  destruct (_ <? _)%nat; intros [= <- <-]; done.
Qed.

End BusProperties.

Lemma created_app (t1 t2 : list Effect) : created (t1 ++ t2) = created t1 ++ created t2.
Proof.
  induction t1 as [| [a | e | l] t1 IH]; simpl; [done | by rewrite IH | done | done].
Qed.

Lemma published_app (t1 t2 : list Effect) :
  published (t1 ++ t2) = published t1 ++ published t2.
Proof.
  induction t1 as [| [a | e | l] t1 IH]; simpl; [done | done | by rewrite IH | done].
Qed.

Section StateManagerProperties.

Context {R : Type} `{AlertRepo R} {O : Type}.
Implicit Types (asm : AlertStateManager R O) (alert : Alert) (w : World).

(** What [ProcessAlert] comes to on a bus whose event channel is open. *)
Lemma ProcessAlert_cases asm alert w :
  closed (eventChan (eventBus asm)) = false ->
  match Create (alertRepo asm) alert with
  | (Some e, repo') =>
      ProcessAlert asm alert w
      = Done (false, Some e, mkAlertStateManager repo' (eventBus asm), [CallCreate alert])
  | (None, repo') =>
      exists bus' logs,
        Publish (eventBus asm) (mkAlertEvent alert (Now w)) = Done (bus', logs)
        /\ ProcessAlert asm alert w
           = Done (true, None, mkAlertStateManager repo' bus',
                   [CallCreate alert; CallPublish (mkAlertEvent alert (Now w))]
                   ++ logs ++ [LogInfo "Alert created and published"])
  end.
Proof.
  intros Hopen. unfold ProcessAlert.
  destruct (Create (alertRepo asm) alert) as [[e |] repo']; [done |].
  rewrite (Publish_open _ _ Hopen).
  destruct (_ <? _)%nat; simpl; eauto.
Qed.

(** C1: [ProcessAlert] starts with [Create] on the repository.  When
    [Create] returns an error it returns [(false, that error)], publishes
    nothing and leaves the bus as it was.  When [Create] succeeds it returns
    [(true, nil)] and calls [Publish] exactly once, after [Create], with an
    event that carries the alert; on a channel with room that puts exactly
    this event at the back of the bus's channel (on a full channel [Publish]
    drops it). *)
Theorem ProcessAlert_persists_then_publishes asm alert w
  (Hopen : closed (eventChan (eventBus asm)) = false) :
  exists flag err asm' trace,
    ProcessAlert asm alert w = Done (flag, err, asm', trace)
    /\ (err, alertRepo asm') = Create (alertRepo asm) alert
    /\ head trace = Some (CallCreate alert)
    /\ created trace = [alert]
    /\ match err with
       | Some _ =>
           flag = false
           /\ published trace = []
           /\ eventBus asm' = eventBus asm
       | None =>
           flag = true
           /\ published trace = [mkAlertEvent alert (Now w)]
           /\ (exists logs,
                  Publish (eventBus asm) (mkAlertEvent alert (Now w))
                  = Done (eventBus asm', logs))
           /\ ((len (eventChan (eventBus asm)) < cap (eventChan (eventBus asm)))%nat ->
               buf (eventChan (eventBus asm'))
               = buf (eventChan (eventBus asm)) ++ [mkAlertEvent alert (Now w)])
           /\ ((cap (eventChan (eventBus asm)) <= len (eventChan (eventBus asm)))%nat ->
               eventBus asm' = eventBus asm)
       end.
Proof.
  pose proof (ProcessAlert_cases asm alert w Hopen) as Hcases.
  destruct (Create (alertRepo asm) alert) as [[e |] repo'] eqn:Hcreate.
  - do 4 eexists. split; [exact Hcases |]. simpl. done.
  - destruct Hcases as (bus' & logs & Hpub & Hrun).
    destruct (Publish_stays_open _ _ _ _ Hopen Hpub) as (_ & Hnone & Hnoc).
    do 4 eexists. split; [exact Hrun |]. simpl.
    rewrite created_app, published_app, Hnone, Hnoc. simpl.
    repeat split; eauto.
    + intros Hroom. rewrite (Publish_open _ _ Hopen) in Hpub.
      apply Nat.ltb_lt in Hroom. rewrite Hroom in Hpub. by injection Hpub as <- <-.
    + intros Hfull. rewrite (Publish_open _ _ Hopen) in Hpub.
      apply Nat.ltb_ge in Hfull. rewrite Hfull in Hpub. by injection Hpub as <- <-.
Qed.

Lemma ProcessAlert_stays_open asm alert w flag err asm' trace :
  closed (eventChan (eventBus asm)) = false ->
  ProcessAlert asm alert w = Done (flag, err, asm', trace) ->
  closed (eventChan (eventBus asm')) = false /\ created trace = [alert].
Proof.
  intros Hopen Hrun. pose proof (ProcessAlert_cases asm alert w Hopen) as Hcases.
  destruct (Create (alertRepo asm) alert) as [[e |] repo'].
  - rewrite Hcases in Hrun. by injection Hrun as <- <- <- <-.
  - destruct Hcases as (bus' & logs & Hpub & Hrun').
    rewrite Hrun' in Hrun. injection Hrun as <- <- <- <-.
    destruct (Publish_stays_open _ _ _ _ Hopen Hpub) as (Hopen' & _ & Hnoc).
    split; [done |]. simpl. by rewrite created_app, Hnoc.
Qed.

End StateManagerProperties.

Lemma ProcessAlert_persists_then_publishes_witness :
  (exists asm' trace,
      ProcessAlert memory_manager (sample_alert 1 0) (mkWorld 2 1)
      = Done (true, None, asm', trace)
      /\ published trace = [mkAlertEvent (sample_alert 1 0) 2]
      /\ buf (eventChan (eventBus asm')) = [mkAlertEvent (sample_alert 1 0) 2])
  /\ (exists asm' trace,
         ProcessAlert broken_db_manager (sample_alert 1 0) (mkWorld 2 1)
         = Done (false, Some "connection refused", asm', trace)
         /\ published trace = []
         /\ eventBus asm' = eventBus broken_db_manager).
Proof.
  split.
  - destruct (ProcessAlert_persists_then_publishes
                memory_manager (sample_alert 1 0) (mkWorld 2 1) eq_refl)
      as (flag & err & asm' & trace & Hrun & Hcreate & _ & _ & Hcase).
    injection Hcreate as -> _.
    destruct Hcase as (-> & Hpub & _ & Hroom & _).
    exists asm', trace. split; [exact Hrun |]. split; [exact Hpub |].
    apply Hroom. vm_compute. lia.
  - destruct (ProcessAlert_persists_then_publishes
                broken_db_manager (sample_alert 1 0) (mkWorld 2 1) eq_refl)
      as (flag & err & asm' & trace & Hrun & Hcreate & _ & _ & Hcase).
    injection Hcreate as -> _.
    destruct Hcase as (-> & Hpub & Hbus).
    exists asm', trace. split; [exact Hrun |]. split; [exact Hpub | exact Hbus].
Defined.

(** ** The email dispatcher *)

(** C9: when the configured SMTP host or the configured username is the
    empty string, [OnAlert] returns nil and leaves the network as it was: no
    [SendMail] call is made and no time is slept. *)
Theorem OnAlert_incomplete_config_skips
  (format_RFC3339 : Time -> string) (json_text : gmap string string -> string)
  (ed : EmailDispatcher) (event : AlertEvent) (net : Net)
  (Hincomplete : SMTPHost (config ed) = "" \/ Username (config ed) = "") :
  exists logs,
    OnAlert format_RFC3339 json_text ed event net = (None, net, logs)
    /\ published logs = [] /\ created logs = [].
Proof.
  unfold OnAlert.
  assert (Hguard : String.eqb (SMTPHost (config ed)) ""
                   || String.eqb (Username (config ed)) "" = true).
  { apply orb_true_iff. destruct Hincomplete as [-> | ->]; auto. }
  rewrite Hguard. eexists. split; [reflexivity |]. done.
Qed.

Lemma OnAlert_incomplete_config_skips_witness :
  exists logs,
    OnAlert (fun _ => "1970-01-01T00:00:01Z") (fun _ => "{}") unconfigured_dispatcher
            (mkAlertEvent (sample_alert 1 0) 2) idle_net
    = (None, idle_net, logs)
    /\ published logs = [] /\ created logs = [].
Proof.
  apply OnAlert_incomplete_config_skips. left. reflexivity.
Defined.

(** ** Rule evaluation *)

Section BuildAll.

Context {B : Type} (build : B -> World -> Alert * World).

Lemma buildAll_app (p1 p2 : list B) (w : World) :
  buildAll build (p1 ++ p2) w
  = (fst (buildAll build p1 w) ++ fst (buildAll build p2 (snd (buildAll build p1 w))),
     snd (buildAll build p2 (snd (buildAll build p1 w)))).
Proof.
  revert w. induction p1 as [| b p1 IH]; intros w; simpl.
  - by destruct (buildAll build p2 w).
  - destruct (build b w) as [a w1]. rewrite IH.
    destruct (buildAll build p1 w1) as [l1 w2]. simpl.
    by destruct (buildAll build p2 w2).
Qed.

Lemma run_nil (st : list Alert * World) : run build [] st = st.
Proof.
  destruct st. unfold run. simpl. by rewrite app_nil_r.
Qed.

Lemma run_run (p1 p2 : list B) (st : list Alert * World) :
  run build p2 (run build p1 st) = run build (p1 ++ p2) st.
Proof.
  unfold run. rewrite buildAll_app. simpl. by rewrite app_assoc.
Qed.

Lemma emit_run (cond : bool) (b : B) (st : list Alert * World) :
  emit cond (build b) st = run build (one cond b) st.
Proof.
  unfold emit, one, run. destruct cond; simpl.
  - by destruct (build b (snd st)).
  - destruct st. simpl. by rewrite app_nil_r.
Qed.

Lemma run_from_nil (plan : list B) (w : World) :
  run build plan ([], w) = buildAll build plan w.
Proof.
  unfold run. simpl. by destruct (buildAll build plan w).
Qed.

(** Builders that only draw an identifier leave the clock alone. *)
Lemma buildAll_clock (plan : list B) (w : World) :
  (forall b w', clock (snd (build b w')) = clock w') ->
  clock (snd (buildAll build plan w)) = clock w.
Proof.
  intros Hclock. revert w. induction plan as [| b plan IH]; intros w; simpl; [done |].
  specialize (Hclock b w). destruct (build b w) as [a w1]. simpl in Hclock.
  specialize (IH w1). destruct (buildAll build plan w1) as [l w2]. simpl in *. congruence.
Qed.

(** Every alert of a run is built by the builder from an entry of the plan. *)
Lemma buildAll_elem (plan : list B) (w : World) (a : Alert) :
  a ∈ fst (buildAll build plan w) ->
  exists b w', b ∈ plan /\ a = fst (build b w').
Proof.
  revert w. induction plan as [| b plan IH]; intros w; simpl.
  - intros Hin. by apply elem_of_nil in Hin.
  - destruct (build b w) as [a1 w1] eqn:Hb.
    specialize (IH w1). destruct (buildAll build plan w1) as [l w2]. simpl in *.
    intros [-> | Hin]%elem_of_cons.
    + exists b, w. split; [left |]. by rewrite Hb.
    + destruct (IH Hin) as (b' & w' & Hb' & ->). exists b', w'. split; [by right | done].
Qed.

Lemma buildAll_elem_inv (plan : list B) (w : World) (b : B) :
  b ∈ plan -> exists w', fst (build b w') ∈ fst (buildAll build plan w).
Proof.
  revert w. induction plan as [| b0 plan IH]; intros w; simpl.
  - intros Hin. by apply elem_of_nil in Hin.
  - destruct (build b0 w) as [a1 w1] eqn:Hb.
    specialize (IH w1). destruct (buildAll build plan w1) as [l w2]. simpl in *.
    intros [-> | Hin]%elem_of_cons.
    + exists w. rewrite Hb. by left.
    + destruct (IH Hin) as [w' Hw']. exists w'. by right.
Qed.

(** Two runs of one plan differ in identifiers and clock readings only,
    when that is so for the builder. *)
Lemma buildAll_content (plan : list B) (w1 w2 : World) :
  (forall b w w', content (fst (build b w)) = content (fst (build b w'))) ->
  map content (fst (buildAll build plan w1)) = map content (fst (buildAll build plan w2)).
Proof.
  intros Hcontent. revert w1 w2.
  induction plan as [| b plan IH]; intros w1 w2; simpl; [done |].
  pose proof (Hcontent b w1 w2) as Hb.
  destruct (build b w1) as [a1 w1'], (build b w2) as [a2 w2']. simpl in Hb.
  specialize (IH w1' w2').
  destruct (buildAll build plan w1') as [l1 ?], (buildAll build plan w2') as [l2 ?].
  simpl in *. congruence.
Qed.

End BuildAll.

Lemma NewAlert_clock severity message source value labels (w : World) :
  clock (snd (NewAlert severity message source value labels w)) = clock w.
Proof.
  reflexivity.
Qed.

Lemma NewAlert_content severity message source value labels (w w' : World) :
  content (fst (NewAlert severity message source value labels w))
  = content (fst (NewAlert severity message source value labels w')).
Proof.
  reflexivity.
Qed.

Lemma buildPod_clock pod b (w : World) : clock (snd (buildPod pod b w)) = clock w.
Proof.
  unfold buildPod, BuildPodAlert.
  repeat match goal with
         | |- context [let '(_, _) := ?x in _] => destruct x
         | |- context [if ?c then _ else _] => destruct c
         end; apply NewAlert_clock.
Qed.

Lemma buildPod_content pod b (w w' : World) :
  content (fst (buildPod pod b w)) = content (fst (buildPod pod b w')).
Proof.
  unfold buildPod, BuildPodAlert.
  repeat match goal with
         | |- context [let '(_, _) := ?x in _] => destruct x
         | |- context [if ?c then _ else _] => destruct c
         end; apply NewAlert_content.
Qed.

Lemma emit_pod (cond : bool) pod (alertType : AlertType) (value : float)
      (st : list Alert * World) :
  emit cond (BuildPodAlert pod alertType value) st
  = run (buildPod pod) (one cond (alertType, value)) st.
Proof.
  exact (emit_run (buildPod pod) cond (alertType, value) st).
Qed.

Lemma evaluateContainers_run pod (l : list ContainerStatus) (n : Z)
      (st : list Alert * World) :
  fold_left (evaluateContainer pod) l (n, st)
  = (fold_left (fun total cs => int32 (total + RestartCount cs)) l n,
     run (buildPod pod) (flat_map containerPlan l) st).
Proof.
  revert n st. induction l as [| cs l IH]; intros n st.
  - simpl. by rewrite run_nil.
  - cbn [fold_left flat_map]. unfold evaluateContainer at 2.
    rewrite !emit_pod, !run_run, IH, run_run. unfold containerPlan.
    by rewrite <- !app_assoc.
Qed.

(** [evaluatePodConditions] builds, in order, the alerts of [podPlan]. *)
Lemma evaluatePodConditions_plan pw pod (w : World) :
  evaluatePodConditions pw pod w
  = buildAll (buildPod pod) (podPlan pw pod (pendingTooLong pw pod w)) w.
Proof.
  unfold evaluatePodConditions.
  rewrite !emit_pod, !run_run, evaluateContainers_run. cbv zeta.
  rewrite !emit_pod, !run_run.
  unfold run at 2. cbn [snd]. unfold Now.
  rewrite buildAll_clock by apply buildPod_clock.
  rewrite run_from_nil. unfold podPlan, pendingTooLong, pendingFor, totalRestarts, Now.
  by rewrite <- !app_assoc.
Qed.

Lemma buildPod_type pod b (w : World) :
  alert_type (fst (buildPod pod b w)) = Some (fst b).
Proof.
  destruct b as [t v]. unfold buildPod, BuildPodAlert, alert_type. cbn [fst snd].
  split_builder; unfold NewAlert, uuid_New; cbn [fst Labels]; by simplify_map_eq.
Qed.

Lemma buildPod_value pod b (w : World) : Value (fst (buildPod pod b w)) = snd b.
Proof.
  destruct b as [t v]. unfold buildPod, BuildPodAlert. cbn [fst snd].
  split_builder; reflexivity.
Qed.

Lemma buildAll_map {B C : Type} (build : B -> World -> Alert * World)
      (f : Alert -> C) (g : B -> C) (plan : list B) (w : World) :
  (forall b w', f (fst (build b w')) = g b) ->
  map f (fst (buildAll build plan w)) = map g plan.
Proof.
  intros Hfg. revert w. induction plan as [| b plan IH]; intros w; simpl; [done |].
  specialize (Hfg b w). destruct (build b w) as [a w1]. simpl in Hfg.
  specialize (IH w1). destruct (buildAll build plan w1) as [l w2]. simpl in *. congruence.
Qed.

Lemma elem_of_one {B : Type} (cond : bool) (b b' : B) :
  b' ∈ one cond b <-> cond = true /\ b' = b.
Proof.
  unfold one. destruct cond.
  - rewrite list_elem_of_singleton. intuition.
  - rewrite elem_of_nil. intuition discriminate.
Qed.

Lemma elem_of_flat_map {A B : Type} (f : A -> list B) (l : list A) (b : B) :
  b ∈ flat_map f l <-> exists a, a ∈ l /\ b ∈ f a.
Proof.
  split.
  - intros Hb. apply list_elem_of_In, in_flat_map in Hb as (a & Ha & Hb).
    exists a. split; by apply list_elem_of_In.
  - intros (a & Ha & Hb). apply list_elem_of_In, in_flat_map.
    exists a. split; by apply list_elem_of_In.
Qed.

(** The entries of a container's plan. *)
Lemma containerPlan_elem cs b :
  b ∈ containerPlan cs ->
  fst b = AlertTypePodOOMKilled \/ fst b = AlertTypePodCrashLoop
  \/ fst b = AlertTypePodImagePullError.
Proof.
  unfold containerPlan. rewrite !elem_of_app, !elem_of_one.
  intros [[_ ->] | [[_ ->] | [_ ->]]]; auto.
Qed.

(** The entries of a pod's plan. *)
Lemma podPlan_elem pw pod (pending : bool) b :
  b ∈ podPlan pw pod pending <->
  (Status_Phase pod = PodFailed /\ b = (AlertTypePodFailed, 1%float))
  \/ (Status_Phase pod = PodUnknown /\ b = (AlertTypePodUnknown, 1%float))
  \/ (exists cs, cs ∈ ContainerStatuses pod /\ b ∈ containerPlan cs)
  \/ (restartThreshold pw < totalRestarts pod
      /\ b = (AlertTypePodRestartThreshold, float64_of_int (totalRestarts pod)))
  \/ (Status_Phase pod = PodPending /\ pending = true
      /\ b = (AlertTypePodPending, 1%float)).
Proof.
  unfold podPlan.
  rewrite !elem_of_app, !elem_of_one, elem_of_flat_map, andb_true_iff,
    !String.eqb_eq, Z.ltb_lt.
  tauto.
Qed.

Lemma podPlan_types pw pod (pending : bool) b :
  b ∈ podPlan pw pod pending -> fst b ∈ pod_alert_types.
Proof.
  rewrite podPlan_elem. unfold pod_alert_types.
  intros [[_ ->] | [[_ ->] | [(cs & _ & Hb) | [[_ ->] | (_ & _ & ->)]]]];
    [| | apply containerPlan_elem in Hb as [-> | [-> | ->]] | |];
    cbn [fst]; set_solver.
Qed.

Lemma buildPod_follows_table pod b (w : World) :
  fst b ∈ pod_alert_types -> follows_table (fst (buildPod pod b w)).
Proof.
  intros Ht. exists (fst b). split; [apply buildPod_type |].
  destruct b as [t v]. cbn [fst] in *. unfold pod_alert_types in Ht.
  repeat (apply elem_of_cons in Ht as [-> | Ht]);
    [.. | by apply elem_of_nil in Ht];
    unfold buildPod, BuildPodAlert; cbn [fst snd];
    decide_switch; split_builder; reflexivity.
Qed.

(** *** Which alerts an evaluation emits *)

Section Emitted.

Context {B : Type} (build : B -> World -> Alert * World) (type_of : B -> AlertType).
Hypothesis build_type :
  forall b w, alert_type (fst (build b w)) = Some (type_of b).

Lemma emits_buildAll (plan : list B) (w : World) (t : AlertType) :
  emits t (fst (buildAll build plan w)) <-> exists b, b ∈ plan /\ type_of b = t.
Proof.
  split.
  - intros (a & Ha & Ht). apply buildAll_elem in Ha as (b & w' & Hb & ->).
    rewrite build_type in Ht. exists b. split; [done | congruence].
  - intros (b & Hb & <-). destruct (buildAll_elem_inv build plan w b Hb) as [w' Hw'].
    exists (fst (build b w')). split; [done | apply build_type].
Qed.

Lemma count_type_buildAll (plan : list B) (w : World) (t : AlertType) :
  count_type t (fst (buildAll build plan w))
  = length (filter (fun b => type_of b = t) plan).
Proof.
  unfold count_type. revert w. induction plan as [| b plan IH]; intros w; simpl; [done |].
  pose proof (build_type b w) as Hb. destruct (build b w) as [a w1]. simpl in Hb.
  specialize (IH w1). destruct (buildAll build plan w1) as [l w2]. simpl in *.
  rewrite !filter_cons, Hb.
  repeat case_decide; simpl.
  - by rewrite IH.
  - exfalso. apply H0. by injection H.
  - exfalso. apply H. by rewrite H0.
  - done.
Qed.

End Emitted.

Lemma filter_one_length {B : Type} (P : B -> Prop) `{!forall b, Decision (P b)}
      (cond : bool) (b : B) :
  length (filter P (one cond b)) = if cond && bool_decide (P b) then 1%nat else 0%nat.
Proof.
  unfold one. destruct cond; [| done].
  rewrite filter_cons, filter_nil. simpl.
  destruct (decide (P b)) as [Hp | Hn].
  - by rewrite bool_decide_eq_true_2.
  - by rewrite bool_decide_eq_false_2.
Qed.

Lemma filter_none_length {B : Type} (P : B -> Prop) `{!forall b, Decision (P b)}
      (l : list B) :
  (forall b, b ∈ l -> ~ P b) -> length (filter P l) = 0%nat.
Proof.
  induction l as [| b l IH]; intros Hl; [done |].
  rewrite filter_cons. destruct (decide (P b)) as [Hb | _].
  - destruct (Hl b); [by left | done].
  - apply IH. intros b' Hb'. apply Hl. by right.
Qed.

(** *** The pending rule *)

Lemma pending_count pw pod (pending : bool) :
  length (filter (fun b : AlertType * float => fst b = AlertTypePodPending)
                 (podPlan pw pod pending))
  = if String.eqb (Status_Phase pod) PodPending && pending then 1%nat else 0%nat.
Proof.
  unfold podPlan. rewrite !filter_app, !length_app, !filter_one_length.
  rewrite (filter_none_length _ (flat_map _ _)).
  - cbn [fst]. rewrite !andb_false_r, andb_true_r. simpl. done.
  - intros b (cs & _ & Hb)%elem_of_flat_map.
    apply containerPlan_elem in Hb as [-> | [-> | ->]]; discriminate.
Qed.

(** C5 as stated fails at the boundary: a pod that has been pending for
    exactly five minutes, which is "at least 5 minutes", gets no alert. *)
Lemma pod_pending_exactly_five_minutes :
  5 * Minute <= pendingFor pending_pod (mkWorld (300 * Second) 0)
  /\ fst (evaluatePodConditions (NewPodWatcher default_rules) pending_pod
                                (mkWorld (300 * Second) 0)) = [].
Proof.
  split; [vm_compute; discriminate | reflexivity].
Qed.

(** C5, amended: for a pod whose phase is Pending, evaluation emits a
    [pod_pending] alert if and only if the pod has been pending (the time
    since its creation) for strictly more than five minutes; the alert has
    severity medium and value 1.0, and there is exactly one of it; at 299
    seconds there is none, at 301 seconds exactly one. *)
Theorem pod_pending_after_grace (cfg : AlertRulesConfig) (pod : Pod) (w : World)
  (Hphase : Status_Phase pod = PodPending) :
  (emits AlertTypePodPending (fst (evaluatePodConditions (NewPodWatcher cfg) pod w))
   <-> 5 * Minute < pendingFor pod w)
  /\ (forall a,
         a ∈ fst (evaluatePodConditions (NewPodWatcher cfg) pod w) ->
         alert_type a = Some AlertTypePodPending ->
         Severity a = SeverityMedium /\ Value a = 1%float)
  /\ count_type AlertTypePodPending (fst (evaluatePodConditions (NewPodWatcher cfg) pod w))
     = (if bool_decide (5 * Minute < pendingFor pod w) then 1%nat else 0%nat)
  /\ (pendingFor pod w = 299 * Second ->
      count_type AlertTypePodPending
                 (fst (evaluatePodConditions (NewPodWatcher cfg) pod w)) = 0%nat)
  /\ (pendingFor pod w = 301 * Second ->
      count_type AlertTypePodPending
                 (fst (evaluatePodConditions (NewPodWatcher cfg) pod w)) = 1%nat).
Proof.
  rewrite evaluatePodConditions_plan.
  assert (Hcount :
    count_type AlertTypePodPending
      (fst (buildAll (buildPod pod)
              (podPlan (NewPodWatcher cfg) pod (pendingTooLong (NewPodWatcher cfg) pod w)) w))
    = (if bool_decide (5 * Minute < pendingFor pod w) then 1%nat else 0%nat)).
  { rewrite (count_type_buildAll (buildPod pod) fst (buildPod_type pod)), pending_count.
    rewrite Hphase. unfold pendingTooLong, NewPodWatcher. cbn [pendingTimeout andb String.eqb].
    rewrite String.eqb_refl. cbn [andb].
    destruct (Z.ltb_spec (5 * Minute) (pendingFor pod w)) as [Hlt | Hge].
    - by rewrite bool_decide_eq_true_2.
    - rewrite bool_decide_eq_false_2; [done | lia]. }
  split; [| split; [| split; [exact Hcount | split]]].
  - rewrite (emits_buildAll (buildPod pod) fst (buildPod_type pod)).
    split.
    + intros (b & Hb & Ht). apply podPlan_elem in Hb.
      destruct Hb as [[_ ->] | [[_ ->] | [(cs & _ & Hb) | [[_ ->] | (_ & Hlong & _)]]]];
        try discriminate.
      * apply containerPlan_elem in Hb as [Hb | [Hb | Hb]]; rewrite Hb in Ht; discriminate.
      * by apply Z.ltb_lt in Hlong.
    + intros Hlong. exists (AlertTypePodPending, 1%float). split; [| done].
      apply podPlan_elem. do 4 right. split; [done |]. split; [| done].
      by apply Z.ltb_lt.
  - intros a Ha Ht. apply buildAll_elem in Ha as (b & w' & Hb & ->).
    rewrite buildPod_type in Ht. injection Ht as Ht.
    rewrite buildPod_value. apply podPlan_elem in Hb.
    destruct Hb as [[_ ->] | [[_ ->] | [(cs & _ & Hb) | [[_ ->] | (_ & _ & ->)]]]];
      try discriminate.
    + apply containerPlan_elem in Hb as [Hb | [Hb | Hb]]; rewrite Hb in Ht; discriminate.
    + split; [| done]. unfold buildPod, BuildPodAlert. cbn [fst snd].
      decide_switch. by split_builder.
  - intros Hfor. rewrite Hcount, bool_decide_eq_false_2; [done |].
    rewrite Hfor. unfold Minute, Second. lia.
  - intros Hfor. rewrite Hcount, bool_decide_eq_true_2; [done |].
    rewrite Hfor. unfold Minute, Second. lia.
Qed.

Lemma pod_pending_after_grace_witness :
  emits AlertTypePodPending
        (fst (evaluatePodConditions (NewPodWatcher default_rules) pending_pod
                                    (mkWorld (301 * Second) 0)))
  /\ count_type AlertTypePodPending
                (fst (evaluatePodConditions (NewPodWatcher default_rules) pending_pod
                                            (mkWorld (301 * Second) 0))) = 1%nat
  /\ count_type AlertTypePodPending
                (fst (evaluatePodConditions (NewPodWatcher default_rules) pending_pod
                                            (mkWorld (299 * Second) 0))) = 0%nat.
Proof.
  pose proof (pod_pending_after_grace default_rules pending_pod
                (mkWorld (301 * Second) 0) eq_refl) as (Hemit & _ & _ & _ & Hone).
  pose proof (pod_pending_after_grace default_rules pending_pod
                (mkWorld (299 * Second) 0) eq_refl) as (_ & _ & _ & Hnone & _).
  split; [apply Hemit; vm_compute; reflexivity |].
  split; [apply Hone; reflexivity | apply Hnone; reflexivity].
Defined.

(** *** The restart rule *)

Lemma int32_add_l (a b : Z) : int32 (int32 a + b) = int32 (a + b).
Proof.
  unfold int32, wrap.
  replace ((a + 2 ^ (32 - 1)) mod 2 ^ 32 - 2 ^ (32 - 1) + b + 2 ^ (32 - 1))
    with ((a + 2 ^ (32 - 1)) mod 2 ^ 32 + b) by lia.
  rewrite Zplus_mod_idemp_l. f_equal. f_equal. lia.
Qed.

Lemma restarts_fold (l : list ContainerStatus) (n : Z) :
  fold_left (fun total cs => int32 (total + RestartCount cs)) l (int32 n)
  = int32 (n + fold_right Z.add 0 (map RestartCount l)).
Proof.
  revert n. induction l as [| cs l IH]; intros n; simpl.
  - f_equal. lia.
  - rewrite int32_add_l, IH. f_equal. lia.
Qed.

(** The counter of [evaluatePodConditions] is the sum of the restart counts
    reduced to an [int32]. *)
Lemma totalRestarts_sum pod : totalRestarts pod = int32 (sumRestarts pod).
Proof.
  unfold totalRestarts, sumRestarts.
  change 0 with (int32 0) at 1. by rewrite restarts_fold.
Qed.

(** The loop of [getHighestRestartContainer], started from a maximum [m0]
    and a name [n0]: either no container exceeds [m0] and the pair is
    unchanged, or the result is the first container that reaches the largest
    count. *)
Lemma highest_fold (l : list ContainerStatus) (m0 : Z) (n0 : string) :
  let r := fold_left
             (fun '(maxRestarts, containerName) cs =>
                if maxRestarts <? RestartCount cs
                then (RestartCount cs, cs_Name cs)
                else (maxRestarts, containerName))
             l (m0, n0) in
  (forall cs, cs ∈ l -> RestartCount cs <= fst r)
  /\ ((r = (m0, n0) /\ forall cs, cs ∈ l -> RestartCount cs <= m0)
      \/ (exists i cs,
             l !! i = Some cs /\ r = (RestartCount cs, cs_Name cs)
             /\ m0 < RestartCount cs
             /\ forall j cs', (j < i)%nat -> l !! j = Some cs' ->
                              RestartCount cs' < RestartCount cs)).
Proof.
  revert m0 n0. induction l as [| c l IH]; intros m0 n0; cbn zeta.
  - split; [intros cs Hcs; by apply elem_of_nil in Hcs |].
    left. split; [done |]. intros cs Hcs. by apply elem_of_nil in Hcs.
  - cbn [fold_left]. destruct (Z.ltb_spec m0 (RestartCount c)) as [Hlt | Hge].
    + destruct (IH (RestartCount c) (cs_Name c)) as [Hmax Hcases]. cbv zeta in *.
      split.
      * intros cs [-> | Hcs]%elem_of_cons; [| by apply Hmax].
        destruct Hcases as [[-> _] | (i & cs & _ & -> & Hgt & _)]; simpl; lia.
      * right. destruct Hcases as [[-> Hall] | (i & cs & Hi & -> & Hgt & Hbefore)].
        -- exists 0%nat, c. split; [done |]. split; [done |]. split; [done |].
           intros j cs' Hj. lia.
        -- exists (S i), cs. split; [done |]. split; [done |]. split; [lia |].
           intros [| j] cs' Hj Hcs'; simpl in Hcs'.
           ++ injection Hcs' as <-. lia.
           ++ apply (Hbefore j); [lia | done].
    + destruct (IH m0 n0) as [Hmax Hcases]. cbv zeta in *.
      split.
      * intros cs [-> | Hcs]%elem_of_cons; [| by apply Hmax].
        destruct Hcases as [[-> _] | (i & cs & _ & -> & Hgt & _)]; simpl; lia.
      * destruct Hcases as [[-> Hall] | (i & cs & Hi & -> & Hgt & Hbefore)].
        -- left. split; [done |].
           intros cs [-> | Hcs]%elem_of_cons; [done | by apply Hall].
        -- right. exists (S i), cs. split; [done |]. split; [done |]. split; [done |].
           intros [| j] cs' Hj Hcs'; simpl in Hcs'.
           ++ injection Hcs' as <-. lia.
           ++ apply (Hbefore j); [lia | done].
Qed.

(** [getHighestRestartContainer] names the first container with the
    largest restart count when that count is positive, and "unknown"
    otherwise. *)
Lemma getHighestRestartContainer_spec pod :
  ((forall cs, cs ∈ ContainerStatuses pod -> RestartCount cs <= 0) ->
   getHighestRestartContainer pod = "unknown")
  /\ ((exists cs, cs ∈ ContainerStatuses pod /\ 0 < RestartCount cs) ->
      exists i cs,
        ContainerStatuses pod !! i = Some cs
        /\ getHighestRestartContainer pod = cs_Name cs
        /\ 0 < RestartCount cs
        /\ (forall cs', cs' ∈ ContainerStatuses pod ->
                        RestartCount cs' <= RestartCount cs)
        /\ (forall j cs', (j < i)%nat -> ContainerStatuses pod !! j = Some cs' ->
                          RestartCount cs' < RestartCount cs)).
Proof.
  unfold getHighestRestartContainer.
  destruct (highest_fold (ContainerStatuses pod) 0 "unknown") as [Hmax Hcases].
  cbv zeta in *. split.
  - intros Hall.
    destruct Hcases as [[-> _] | (i & cs & Hi & _ & Hgt & _)]; [done |].
    apply list_elem_of_lookup_2 in Hi. specialize (Hall cs Hi). lia.
  - intros (cs0 & Hcs0 & Hpos).
    destruct Hcases as [[_ Hall] | (i & cs & Hi & Hr & Hgt & Hbefore)].
    { specialize (Hall cs0 Hcs0). lia. }
    rewrite Hr in *. exists i, cs. simpl in *. repeat split; auto.
Qed.

Lemma restart_alert_container pod (value : float) (w : World) :
  Labels (fst (buildPod pod (AlertTypePodRestartThreshold, value) w)) !! "container"
  = Some (getHighestRestartContainer pod).
Proof.
  unfold buildPod, BuildPodAlert. cbn [fst snd]. decide_switch.
  unfold NewAlert, uuid_New. cbn [fst Labels]. by simplify_map_eq.
Qed.

(** C7 as stated fails where no container has restarted: with a threshold
    below zero the alert is emitted for a pod whose only container has
    restart count 0, and its container label is "unknown", not the name
    "app" of the container with the highest restart count. *)
Lemma restart_alert_names_no_container :
  exists a,
    fst (evaluatePodConditions (NewPodWatcher eager_rules) quiet_pod (mkWorld 1 0)) = [a]
    /\ alert_type a = Some AlertTypePodRestartThreshold
    /\ Labels a !! "container" = Some "unknown"
    /\ map cs_Name (ContainerStatuses quiet_pod) = ["app"].
Proof.
  eexists. split; [reflexivity |]. split; [| split]; [| | reflexivity].
  - apply (buildPod_type quiet_pod (AlertTypePodRestartThreshold, _)).
  - apply (restart_alert_container quiet_pod).
Qed.

(** C7, amended: evaluation emits a [pod_restart_threshold] alert if and
    only if the [int32] total of the containers' restart counts is strictly
    greater than the threshold; the alert's value is that total, and its
    container label is the result of [getHighestRestartContainer]: the first
    container, in iteration order, with the highest restart count when that
    count is positive, and "unknown" when no container has a positive
    count. *)
Theorem restart_threshold_alert (pw : PodWatcher) (pod : Pod) (w : World) :
  (emits AlertTypePodRestartThreshold (fst (evaluatePodConditions pw pod w))
   <-> restartThreshold pw < totalRestarts pod)
  /\ totalRestarts pod = int32 (sumRestarts pod)
  /\ (forall a,
         a ∈ fst (evaluatePodConditions pw pod w) ->
         alert_type a = Some AlertTypePodRestartThreshold ->
         Value a = float64_of_int (totalRestarts pod)
         /\ Labels a !! "container" = Some (getHighestRestartContainer pod))
  /\ ((forall cs, cs ∈ ContainerStatuses pod -> RestartCount cs <= 0) ->
      getHighestRestartContainer pod = "unknown")
  /\ ((exists cs, cs ∈ ContainerStatuses pod /\ 0 < RestartCount cs) ->
      exists i cs,
        ContainerStatuses pod !! i = Some cs
        /\ getHighestRestartContainer pod = cs_Name cs
        /\ 0 < RestartCount cs
        /\ (forall cs', cs' ∈ ContainerStatuses pod ->
                        RestartCount cs' <= RestartCount cs)
        /\ (forall j cs', (j < i)%nat -> ContainerStatuses pod !! j = Some cs' ->
                          RestartCount cs' < RestartCount cs)).
Proof.
  rewrite evaluatePodConditions_plan.
  split; [| split; [apply totalRestarts_sum | split; [| apply getHighestRestartContainer_spec]]].
  - rewrite (emits_buildAll (buildPod pod) fst (buildPod_type pod)). split.
    + intros (b & Hb & Ht). apply podPlan_elem in Hb.
      destruct Hb as [[_ ->] | [[_ ->] | [(cs & _ & Hb) | [[Hgt _] | (_ & _ & ->)]]]];
        try discriminate; [| done].
      apply containerPlan_elem in Hb as [Hb | [Hb | Hb]]; rewrite Hb in Ht; discriminate.
    + intros Hgt.
      exists (AlertTypePodRestartThreshold, float64_of_int (totalRestarts pod)).
      split; [| done]. apply podPlan_elem. do 3 right. left. done.
  - intros a Ha Ht. apply buildAll_elem in Ha as (b & w' & Hb & ->).
    rewrite buildPod_type in Ht. injection Ht as Ht.
    rewrite buildPod_value. apply podPlan_elem in Hb.
    destruct Hb as [[_ ->] | [[_ ->] | [(cs & _ & Hb) | [[_ ->] | (_ & _ & ->)]]]];
      try discriminate.
    + apply containerPlan_elem in Hb as [Hb | [Hb | Hb]]; rewrite Hb in Ht; discriminate.
    + split; [done | apply restart_alert_container].
Qed.

Lemma restart_threshold_alert_witness :
  emits AlertTypePodRestartThreshold
        (fst (evaluatePodConditions (NewPodWatcher default_rules) oom_pod (mkWorld 1 0)))
  /\ exists i cs,
      ContainerStatuses oom_pod !! i = Some cs
      /\ getHighestRestartContainer oom_pod = cs_Name cs
      /\ 0 < RestartCount cs.
Proof.
  destruct (restart_threshold_alert (NewPodWatcher default_rules) oom_pod (mkWorld 1 0))
    as (Hemit & _ & _ & _ & Hhighest).
  split.
  - apply Hemit. vm_compute. reflexivity.
  - destruct Hhighest as (i & cs & Hi & Hname & Hpos & _).
    + exists (mkContainerStatus "app" 4 None (Some (mkTerminated "OOMKilled"))).
      split; [apply list_elem_of_here | reflexivity].
    + exists i, cs. auto.
Defined.

(** *** Node conditions *)

Lemma buildNode_clock node b (w : World) : clock (snd (buildNode node b w)) = clock w.
Proof.
  unfold buildNode, BuildNodeAlert. split_builder; apply NewAlert_clock.
Qed.

Lemma buildNode_content node b (w w' : World) :
  content (fst (buildNode node b w)) = content (fst (buildNode node b w')).
Proof.
  unfold buildNode, BuildNodeAlert. split_builder; apply NewAlert_content.
Qed.

Lemma buildNode_type node b (w : World) :
  alert_type (fst (buildNode node b w)) = Some (fst b).
Proof.
  destruct b as [t v]. unfold buildNode, BuildNodeAlert, alert_type. cbn [fst snd].
  split_builder; unfold NewAlert, uuid_New; cbn [fst Labels]; by simplify_map_eq.
Qed.

Lemma buildNode_follows_table node b (w : World) :
  fst b ∈ node_alert_types -> follows_table (fst (buildNode node b w)).
Proof.
  intros Ht. exists (fst b). split; [apply buildNode_type |].
  destruct b as [t v]. cbn [fst] in *. unfold node_alert_types in Ht.
  repeat (apply elem_of_cons in Ht as [-> | Ht]);
    [.. | by apply elem_of_nil in Ht];
    unfold buildNode, BuildNodeAlert; cbn [fst snd];
    decide_switch; reflexivity.
Qed.

Lemma conditionPlan_types condition b :
  b ∈ conditionPlan condition -> fst b ∈ node_alert_types.
Proof.
  unfold conditionPlan, node_alert_types.
  repeat match goal with
         | |- context [if String.eqb ?a ?b then _ else _] => destruct (String.eqb a b)
         end;
    rewrite ?elem_of_one, ?elem_of_nil; try tauto;
    intros [_ ->]; cbn [fst];
    repeat first [apply list_elem_of_here | apply list_elem_of_further].
Qed.

Lemma emit_node (cond : bool) node (alertType : AlertType) (value : float)
      (st : list Alert * World) :
  emit cond (BuildNodeAlert node alertType value) st
  = run (buildNode node) (one cond (alertType, value)) st.
Proof.
  exact (emit_run (buildNode node) cond (alertType, value) st).
Qed.

Lemma evaluateCondition_run node (st : list Alert * World) condition :
  evaluateCondition node st condition = run (buildNode node) (conditionPlan condition) st.
Proof.
  unfold evaluateCondition, conditionPlan.
  repeat match goal with
         | |- context [if String.eqb ?a ?b then _ else _] => destruct (String.eqb a b)
         end;
    first [apply emit_node | by rewrite run_nil].
Qed.

(** [evaluateNodeConditions] builds, in order, the alerts of [nodePlan]. *)
Lemma evaluateNodeConditions_plan node (w : World) :
  evaluateNodeConditions node w = buildAll (buildNode node) (nodePlan node) w.
Proof.
  unfold evaluateNodeConditions, nodePlan. rewrite <- run_from_nil.
  generalize (@nil Alert, w). induction (Conditions node) as [| c l IH]; intros st.
  - simpl. by rewrite run_nil.
  - cbn [fold_left flat_map]. by rewrite evaluateCondition_run, IH, run_run.
Qed.

(** *** Metric thresholds *)

Lemma buildPodMetric_content metrics b (w w' : World) :
  content (fst (buildPodMetric metrics b w)) = content (fst (buildPodMetric metrics b w')).
Proof.
  unfold buildPodMetric, BuildPodMetricAlert. split_builder; apply NewAlert_content.
Qed.

Lemma buildPodMetric_type metrics b (w : World) :
  alert_type (fst (buildPodMetric metrics b w)) = Some (fst (fst b)).
Proof.
  destruct b as [[t v] th]. unfold buildPodMetric, BuildPodMetricAlert, alert_type.
  cbn [fst snd].
  split_builder; unfold NewAlert, uuid_New; cbn [fst Labels]; by simplify_map_eq.
Qed.

Lemma buildPodMetric_value metrics b (w : World) :
  Value (fst (buildPodMetric metrics b w)) = snd (fst b).
Proof.
  destruct b as [[t v] th]. unfold buildPodMetric, BuildPodMetricAlert. cbn [fst snd].
  split_builder; reflexivity.
Qed.

Lemma buildPodMetric_follows_table metrics b (w : World) :
  fst (fst b) ∈ pod_metric_alert_types -> follows_table (fst (buildPodMetric metrics b w)).
Proof.
  intros Ht. exists (fst (fst b)). split; [apply buildPodMetric_type |].
  destruct b as [[t v] th]. cbn [fst] in *. unfold pod_metric_alert_types in Ht.
  repeat (apply elem_of_cons in Ht as [-> | Ht]);
    [.. | by apply elem_of_nil in Ht];
    unfold buildPodMetric, BuildPodMetricAlert; cbn [fst snd];
    decide_switch; reflexivity.
Qed.

Lemma buildNodeMetric_content metrics b (w w' : World) :
  content (fst (buildNodeMetric metrics b w)) = content (fst (buildNodeMetric metrics b w')).
Proof.
  unfold buildNodeMetric, BuildNodeMetricAlert. split_builder; apply NewAlert_content.
Qed.

Lemma buildNodeMetric_type metrics b (w : World) :
  alert_type (fst (buildNodeMetric metrics b w)) = Some (fst (fst b)).
Proof.
  destruct b as [[t v] th]. unfold buildNodeMetric, BuildNodeMetricAlert, alert_type.
  cbn [fst snd].
  split_builder; unfold NewAlert, uuid_New; cbn [fst Labels]; by simplify_map_eq.
Qed.

Lemma buildNodeMetric_follows_table metrics b (w : World) :
  fst (fst b) ∈ node_metric_alert_types ->
  follows_table (fst (buildNodeMetric metrics b w)).
Proof.
  intros Ht. exists (fst (fst b)). split; [apply buildNodeMetric_type |].
  destruct b as [[t v] th]. cbn [fst] in *. unfold node_metric_alert_types in Ht.
  repeat (apply elem_of_cons in Ht as [-> | Ht]);
    [.. | by apply elem_of_nil in Ht];
    unfold buildNodeMetric, BuildNodeMetricAlert; cbn [fst snd];
    decide_switch; reflexivity.
Qed.

(** The entries of a pod snapshot's plan. *)
Lemma podMetricPlan_elem thresholds metrics b :
  b ∈ podMetricPlan thresholds metrics <->
  (0 < CPURequestMillis metrics
   /\ PrimFloat.ltb (PodCPUPercent thresholds) (pm_CPUUsagePercent metrics) = true
   /\ b = (AlertTypePodCPUHigh, pm_CPUUsagePercent metrics, PodCPUPercent thresholds))
  \/ (0 < MemoryRequestBytes metrics
      /\ PrimFloat.ltb (PodMemoryPercent thresholds) (pm_MemoryUsagePercent metrics) = true
      /\ b = (AlertTypePodMemoryHigh, pm_MemoryUsagePercent metrics,
              PodMemoryPercent thresholds)).
Proof.
  unfold podMetricPlan.
  destruct ((CPURequestMillis metrics =? 0) && (MemoryRequestBytes metrics =? 0)) eqn:Hskip.
  - apply andb_true_iff in Hskip as [Hc Hm]. apply Z.eqb_eq in Hc, Hm.
    rewrite elem_of_nil. lia.
  - rewrite elem_of_app, !elem_of_one, !andb_true_iff, !Z.ltb_lt. tauto.
Qed.

Lemma nodeMetricPlan_elem thresholds metrics b :
  b ∈ nodeMetricPlan thresholds metrics <->
  (PrimFloat.ltb (NodeCPUPercent thresholds) (nm_CPUUsagePercent metrics) = true
   /\ b = (AlertTypeNodeCPUHigh, nm_CPUUsagePercent metrics, NodeCPUPercent thresholds))
  \/ (PrimFloat.ltb (NodeMemoryPercent thresholds) (nm_MemoryUsagePercent metrics) = true
      /\ b = (AlertTypeNodeMemoryHigh, nm_MemoryUsagePercent metrics,
              NodeMemoryPercent thresholds)).
Proof.
  unfold nodeMetricPlan. rewrite elem_of_app, !elem_of_one. tauto.
Qed.

Section MetricChecks.

Context {R : Type} `{AlertRepo R} {O : Type}.
Implicit Types (asm : AlertStateManager R O) (w : World) (trace : list Effect).

Lemma ProcessAlert_returns asm alert w :
  bus_open asm ->
  exists flag err asm' effects,
    ProcessAlert asm alert w = Done (flag, err, asm', effects)
    /\ bus_open asm' /\ created effects = [alert].
Proof.
  intros Hopen. pose proof (ProcessAlert_cases asm alert w Hopen) as Hcases.
  destruct (Create (alertRepo asm) alert) as [[e |] repo'].
  - do 4 eexists. split; [exact Hcases |].
    eapply ProcessAlert_stays_open; [exact Hopen | exact Hcases].
  - destruct Hcases as (bus' & logs & _ & Hrun).
    do 4 eexists. split; [exact Hrun |].
    eapply ProcessAlert_stays_open; [exact Hopen | exact Hrun].
Qed.

Section OneBuilder.

Context {B : Type} (build : B -> World -> Alert * World).

Lemma when_run (cond : bool) (b : B) (failed succeeded : string) asm w trace :
  bus_open asm ->
  exists asm' new,
    when cond (buildAndProcess (build b) failed succeeded) (asm, w, trace)
    = Done (asm', snd (buildAll build (one cond b) w), trace ++ new)
    /\ created new = fst (buildAll build (one cond b) w)
    /\ bus_open asm'.
Proof.
  intros Hopen. unfold when, one. destruct cond.
  - unfold buildAndProcess. cbn [buildAll]. destruct (build b w) as [alert w'].
    destruct (ProcessAlert_returns asm alert w' Hopen)
      as (flag & err & asm' & effects & -> & Hopen' & Hcreated).
    cbn [bind]. eexists asm', _. split; [reflexivity |]. split; [| done].
    rewrite created_app, Hcreated. cbn [fst]. by destruct err.
  - exists asm, []. rewrite app_nil_r. done.
Qed.

(** Two guarded builds in a row, as in the bodies of the metric loops. *)
Lemma when_when_run (c1 c2 : bool) (b1 b2 : B) (f1 s1 f2 s2 : string) asm w trace :
  bus_open asm ->
  exists asm' new,
    bind (when c1 (buildAndProcess (build b1) f1 s1) (asm, w, trace))
         (when c2 (buildAndProcess (build b2) f2 s2))
    = Done (asm', snd (buildAll build (one c1 b1 ++ one c2 b2) w), trace ++ new)
    /\ created new = fst (buildAll build (one c1 b1 ++ one c2 b2) w)
    /\ bus_open asm'.
Proof.
  intros Hopen.
  destruct (when_run c1 b1 f1 s1 asm w trace Hopen) as (asm1 & new1 & -> & Hc1 & Hopen1).
  cbn [bind].
  destruct (when_run c2 b2 f2 s2 asm1 (snd (buildAll build (one c1 b1) w))
                     (trace ++ new1) Hopen1)
    as (asm2 & new2 & -> & Hc2 & Hopen2).
  exists asm2, (new1 ++ new2). rewrite buildAll_app. cbn [fst snd].
  rewrite app_assoc, created_app, Hc1, Hc2. done.
Qed.

End OneBuilder.

(** The body of [checkPodMetrics]'s loop hands to the state manager, in
    order, the alerts of [podMetricPlan]. *)
Lemma checkPodMetric_plan thresholds (metrics : PodMetrics) asm w trace :
  bus_open asm ->
  exists asm' w' new,
    checkPodMetric thresholds (asm, w, trace) metrics = Done (asm', w', trace ++ new)
    /\ created new
       = fst (buildAll (buildPodMetric metrics) (podMetricPlan thresholds metrics) w)
    /\ bus_open asm'
    /\ (CPURequestMillis metrics = 0 -> MemoryRequestBytes metrics = 0 -> new = []).
Proof.
  intros Hopen. unfold checkPodMetric, podMetricPlan.
  destruct ((CPURequestMillis metrics =? 0) && (MemoryRequestBytes metrics =? 0)) eqn:Hskip.
  - exists asm, w, []. rewrite app_nil_r. done.
  - destruct (when_when_run (buildPodMetric metrics)
                ((0 <? CPURequestMillis metrics)
                 && PrimFloat.ltb (PodCPUPercent thresholds) (pm_CPUUsagePercent metrics))
                ((0 <? MemoryRequestBytes metrics)
                 && PrimFloat.ltb (PodMemoryPercent thresholds)
                                  (pm_MemoryUsagePercent metrics))
                (AlertTypePodCPUHigh, pm_CPUUsagePercent metrics, PodCPUPercent thresholds)
                (AlertTypePodMemoryHigh, pm_MemoryUsagePercent metrics,
                 PodMemoryPercent thresholds)
                "Failed to create pod CPU alert" "Pod CPU alert created"
                "Failed to create pod memory alert" "Pod memory alert created"
                asm w trace Hopen)
      as (asm' & new & Hrun & Hcreated & Hopen').
    eexists asm', _, new. split; [exact Hrun |]. split; [exact Hcreated |].
    split; [exact Hopen' |]. intros Hc Hm. rewrite Hc, Hm in Hskip. discriminate.
Qed.

Lemma checkNodeMetric_plan thresholds (metrics : NodeMetrics) asm w trace :
  bus_open asm ->
  exists asm' w' new,
    checkNodeMetric thresholds (asm, w, trace) metrics = Done (asm', w', trace ++ new)
    /\ created new
       = fst (buildAll (buildNodeMetric metrics) (nodeMetricPlan thresholds metrics) w)
    /\ bus_open asm'.
Proof.
  intros Hopen. unfold checkNodeMetric, nodeMetricPlan.
  destruct (when_when_run (buildNodeMetric metrics)
              (PrimFloat.ltb (NodeCPUPercent thresholds) (nm_CPUUsagePercent metrics))
              (PrimFloat.ltb (NodeMemoryPercent thresholds) (nm_MemoryUsagePercent metrics))
              (AlertTypeNodeCPUHigh, nm_CPUUsagePercent metrics, NodeCPUPercent thresholds)
              (AlertTypeNodeMemoryHigh, nm_MemoryUsagePercent metrics,
               NodeMemoryPercent thresholds)
              "Failed to create node CPU alert" "Node CPU alert created"
              "Failed to create node memory alert" "Node memory alert created"
              asm w trace Hopen)
    as (asm' & new & Hrun & Hcreated & Hopen').
  eexists asm', _, new. split; [exact Hrun |]. done.
Qed.

End MetricChecks.

(** The percentages of a snapshot are computed from the requests: scenario
    S4's pod uses 90% of its CPU request. *)
Example GetPodMetrics_S4 :
  GetPodMetrics "a" "b" (inl [mkContainerUsage 450 1000]) (inl [mkContainerRequests 500 0])
  = (Some busy_pod_metrics, None).
Proof.
  reflexivity.
Qed.

(** C8: for a pod metrics snapshot, the check hands a [pod_cpu_high] alert
    to the state manager if and only if the CPU request is positive and the
    CPU usage percentage is strictly greater than the pod CPU threshold, and
    symmetrically for memory; the alert's value is the observed percentage;
    no other alert is made, and none at all for a snapshot whose CPU and
    memory requests are both zero. *)
Theorem pod_metric_alerts {R : Type} `{AlertRepo R} {O : Type}
  (thresholds : AlertRulesConfig) (metrics : PodMetrics)
  (asm : AlertStateManager R O) (w : World) (trace : list Effect)
  (Hopen : bus_open asm) :
  exists asm' w' new,
    checkPodMetric thresholds (asm, w, trace) metrics = Done (asm', w', trace ++ new)
    /\ (emits AlertTypePodCPUHigh (created new)
        <-> 0 < CPURequestMillis metrics
            /\ PrimFloat.ltb (PodCPUPercent thresholds) (pm_CPUUsagePercent metrics) = true)
    /\ (emits AlertTypePodMemoryHigh (created new)
        <-> 0 < MemoryRequestBytes metrics
            /\ PrimFloat.ltb (PodMemoryPercent thresholds) (pm_MemoryUsagePercent metrics)
               = true)
    /\ (forall a, a ∈ created new ->
          (alert_type a = Some AlertTypePodCPUHigh
           /\ Value a = pm_CPUUsagePercent metrics)
          \/ (alert_type a = Some AlertTypePodMemoryHigh
              /\ Value a = pm_MemoryUsagePercent metrics))
    /\ (CPURequestMillis metrics = 0 -> MemoryRequestBytes metrics = 0 ->
        created new = []).
Proof.
  destruct (checkPodMetric_plan thresholds metrics asm w trace Hopen)
    as (asm' & w' & new & Hrun & Hcreated & _ & Hzero).
  exists asm', w', new. split; [exact Hrun |]. rewrite Hcreated.
  split; [| split; [| split]].
  - rewrite (emits_buildAll (buildPodMetric metrics) (fun b => fst (fst b))
               (buildPodMetric_type metrics)).
    split.
    + intros (b & Hb & Ht). apply podMetricPlan_elem in Hb.
      destruct Hb as [(Hreq & Hgt & _) | (_ & _ & ->)]; [done | discriminate].
    + intros [Hreq Hgt]. eexists. split; [apply podMetricPlan_elem; left; eauto | done].
  - rewrite (emits_buildAll (buildPodMetric metrics) (fun b => fst (fst b))
               (buildPodMetric_type metrics)).
    split.
    + intros (b & Hb & Ht). apply podMetricPlan_elem in Hb.
      destruct Hb as [(_ & _ & ->) | (Hreq & Hgt & _)]; [discriminate | done].
    + intros [Hreq Hgt]. eexists. split; [apply podMetricPlan_elem; right; eauto | done].
  - intros a Ha. apply buildAll_elem in Ha as (b & w0 & Hb & ->).
    rewrite buildPodMetric_type, buildPodMetric_value.
    apply podMetricPlan_elem in Hb as [(_ & _ & ->) | (_ & _ & ->)]; auto.
  - intros Hc Hm. rewrite <- Hcreated, (Hzero Hc Hm). done.
Qed.

Lemma pod_metric_alerts_witness :
  exists asm' w' new,
    checkPodMetric default_rules (memory_manager, mkWorld 1 0, []) busy_pod_metrics
    = Done (asm', w', new)
    /\ emits AlertTypePodCPUHigh (created new)
    /\ ~ emits AlertTypePodMemoryHigh (created new).
Proof.
  destruct (pod_metric_alerts default_rules busy_pod_metrics memory_manager
                              (mkWorld 1 0) [] eq_refl)
    as (asm' & w' & new & Hrun & Hcpu & Hmem & _).
  exists asm', w', new. split; [exact Hrun |]. split.
  - apply Hcpu. split; [reflexivity |]. reflexivity.
  - intros Hemit. apply Hmem in Hemit as [Hreq _]. discriminate Hreq.
Defined.

(** *** The severity table and repeated evaluation *)

Lemma podPlan_not_pending pw pod (p1 p2 : bool) :
  Status_Phase pod <> PodPending -> podPlan pw pod p1 = podPlan pw pod p2.
Proof.
  intros Hphase. unfold podPlan.
  replace (String.eqb (Status_Phase pod) PodPending) with false; [done |].
  symmetry. by apply String.eqb_neq.
Qed.

(** C3 as stated fails for a pending pod: the pending rule reads the clock,
    so the same pod evaluated with the same thresholds at 299 and at 301
    seconds of age gives no alert the first time and one alert the second
    time. *)
Lemma repeated_evaluation_differs :
  map ids_aside (fst (evaluatePodConditions (NewPodWatcher default_rules) pending_pod
                                            (mkWorld (299 * Second) 0)))
  <> map ids_aside (fst (evaluatePodConditions (NewPodWatcher default_rules) pending_pod
                                               (mkWorld (301 * Second) 0))).
Proof.
  intros Heq. apply (f_equal length) in Heq. rewrite !length_map in Heq.
  vm_compute in Heq. discriminate Heq.
Qed.

(** C3, amended: every alert that the evaluation of a pod, of a node, of a
    pod metrics snapshot or of a node metrics snapshot produces has the
    severity that the rule table lists for its alert type; and two
    evaluations of the same object with the same thresholds produce the same
    alerts, identifiers and creation time stamps aside, provided that for a
    pending pod the pending rule's test against the clock comes out the same
    both times. *)
Theorem evaluation_follows_table_and_repeats {R : Type} `{AlertRepo R} {O : Type}
  (pw : PodWatcher) (pod : Pod) (node : Node) (thresholds : AlertRulesConfig)
  (podMetrics : PodMetrics) (nodeMetrics : NodeMetrics)
  (asm1 asm2 : AlertStateManager R O) (w1 w2 : World)
  (Hopen1 : bus_open asm1) (Hopen2 : bus_open asm2) :
  (Forall follows_table (fst (evaluatePodConditions pw pod w1))
   /\ (Status_Phase pod <> PodPending
       \/ pendingTooLong pw pod w1 = pendingTooLong pw pod w2 ->
       map content (fst (evaluatePodConditions pw pod w1))
       = map content (fst (evaluatePodConditions pw pod w2))))
  /\ (Forall follows_table (fst (evaluateNodeConditions node w1))
      /\ map content (fst (evaluateNodeConditions node w1))
         = map content (fst (evaluateNodeConditions node w2)))
  /\ (exists asm1' asm2' w1' w2' new1 new2,
         checkPodMetric thresholds (asm1, w1, []) podMetrics = Done (asm1', w1', new1)
         /\ checkPodMetric thresholds (asm2, w2, []) podMetrics = Done (asm2', w2', new2)
         /\ Forall follows_table (created new1)
         /\ map content (created new1) = map content (created new2))
  /\ (exists asm1' asm2' w1' w2' new1 new2,
         checkNodeMetric thresholds (asm1, w1, []) nodeMetrics = Done (asm1', w1', new1)
         /\ checkNodeMetric thresholds (asm2, w2, []) nodeMetrics = Done (asm2', w2', new2)
         /\ Forall follows_table (created new1)
         /\ map content (created new1) = map content (created new2)).
Proof.
  split; [| split; [| split]].
  - rewrite !evaluatePodConditions_plan. split.
    + apply Forall_forall. intros a (b & w' & Hb & ->)%buildAll_elem.
      apply buildPod_follows_table. by apply podPlan_types in Hb.
    + intros Hsame.
      replace (podPlan pw pod (pendingTooLong pw pod w2))
        with (podPlan pw pod (pendingTooLong pw pod w1)).
      * apply buildAll_content, buildPod_content.
      * destruct Hsame as [Hphase | ->]; [by apply podPlan_not_pending | done].
  - rewrite !evaluateNodeConditions_plan. split.
    + apply Forall_forall. intros a (b & w' & Hb & ->)%buildAll_elem.
      apply buildNode_follows_table.
      apply elem_of_flat_map in Hb as (c & _ & Hb). by apply conditionPlan_types in Hb.
    + apply buildAll_content, buildNode_content.
  - destruct (checkPodMetric_plan thresholds podMetrics asm1 w1 [] Hopen1)
      as (asm1' & w1' & new1 & Hrun1 & Hcreated1 & _).
    destruct (checkPodMetric_plan thresholds podMetrics asm2 w2 [] Hopen2)
      as (asm2' & w2' & new2 & Hrun2 & Hcreated2 & _).
    exists asm1', asm2', w1', w2', new1, new2.
    split; [exact Hrun1 |]. split; [exact Hrun2 |]. rewrite Hcreated1, Hcreated2. split.
    + apply Forall_forall. intros a (b & w' & Hb & ->)%buildAll_elem.
      apply buildPodMetric_follows_table. unfold pod_metric_alert_types.
      apply podMetricPlan_elem in Hb as [(_ & _ & ->) | (_ & _ & ->)]; cbn [fst];
        repeat first [apply list_elem_of_here | apply list_elem_of_further].
    + apply buildAll_content, buildPodMetric_content.
  - destruct (checkNodeMetric_plan thresholds nodeMetrics asm1 w1 [] Hopen1)
      as (asm1' & w1' & new1 & Hrun1 & Hcreated1 & _).
    destruct (checkNodeMetric_plan thresholds nodeMetrics asm2 w2 [] Hopen2)
      as (asm2' & w2' & new2 & Hrun2 & Hcreated2 & _).
    exists asm1', asm2', w1', w2', new1, new2.
    split; [exact Hrun1 |]. split; [exact Hrun2 |]. rewrite Hcreated1, Hcreated2. split.
    + apply Forall_forall. intros a (b & w' & Hb & ->)%buildAll_elem.
      apply buildNodeMetric_follows_table. unfold node_metric_alert_types.
      apply nodeMetricPlan_elem in Hb as [(_ & ->) | (_ & ->)]; cbn [fst];
        repeat first [apply list_elem_of_here | apply list_elem_of_further].
    + apply buildAll_content, buildNodeMetric_content.
Qed.

Lemma evaluation_follows_table_and_repeats_witness :
  Forall follows_table
         (fst (evaluatePodConditions (NewPodWatcher default_rules) oom_pod (mkWorld 1 0)))
  /\ map content
         (fst (evaluatePodConditions (NewPodWatcher default_rules) oom_pod (mkWorld 1 0)))
     = map content
           (fst (evaluatePodConditions (NewPodWatcher default_rules) oom_pod (mkWorld 2 5)))
  /\ Forall follows_table (fst (evaluateNodeConditions unready_node (mkWorld 1 0))).
Proof.
  destruct (evaluation_follows_table_and_repeats
              (NewPodWatcher default_rules) oom_pod unready_node default_rules
              busy_pod_metrics busy_node_metrics memory_manager memory_manager
              (mkWorld 1 0) (mkWorld 2 5) eq_refl eq_refl)
    as ((Hpod & Hsame) & (Hnode & _) & _).
  split; [exact Hpod |]. split; [| exact Hnode].
  apply Hsame. left. intros Hphase. discriminate Hphase.
Defined.

(** *** The scenarios of the specification, run on the embedding *)

(** S1: one critical [pod_oom_killed] alert about container [app], value 4
    (the restart alert joins it, as 4 restarts exceed the threshold 3). *)
Example scenario_S1 :
  map (fun a => (alert_type a, Severity a, Source a, Labels a !! "container",
                 Labels a !! "namespace", Labels a !! "pod", Message a))
      (fst (evaluatePodConditions (NewPodWatcher default_rules) oom_pod (mkWorld 1 0)))
  = [(Some "pod_oom_killed", "critical", "k8s_pod", Some "app", Some "prod", Some "web-7",
      "Pod prod/web-7 container 'app' was OOM KILLED - Out of memory");
     (Some "pod_restart_threshold", "high", "k8s_pod", Some "app", Some "prod",
      Some "web-7",
      "Pod prod/web-7 has EXCESSIVE RESTARTS - Total restarts: 4, Container: app")]
  /\ map Value (fst (evaluatePodConditions (NewPodWatcher default_rules) oom_pod
                                           (mkWorld 1 0)))
     = [4%float; 4%float].
Proof.
  split; reflexivity.
Qed.

(** S3: a node whose Ready condition is False gives one critical
    [node_not_ready] alert. *)
Example scenario_S3 :
  map (fun a => (alert_type a, Severity a, Source a, Labels a !! "node", Message a))
      (fst (evaluateNodeConditions unready_node (mkWorld 1 0)))
  = [(Some "node_not_ready", "critical", "k8s_node", Some "n1",
      "Node n1 is NOT READY - Status: KubeletNotReady")].
Proof.
  reflexivity.
Qed.

(** S4: 90% of the CPU request against a threshold of 80 gives one high
    [pod_cpu_high] alert with value 90. *)
Example scenario_S4 :
  exists asm' w' new,
    checkPodMetric default_rules (memory_manager, mkWorld 1 0, []) busy_pod_metrics
    = Done (asm', w', new)
    /\ map (fun a => (alert_type a, Severity a, Source a, Labels a !! "metric", Message a))
           (created new)
       = [(Some "pod_cpu_high", "high", "k8s_pod_metrics", Some "cpu",
           "Pod a/b CPU usage is HIGH: 90.0% (threshold: 80.0%)")]
    /\ map Value (created new) = [90%float].
Proof.
  do 3 eexists. split; [reflexivity |]. split; reflexivity.
Qed.

(** S6: a pool of two workers with a queue of three.  Two tasks are taken by
    the workers, the next three fill the queue, and the sixth submission is
    refused with the QueueFull error. *)
Example scenario_S6 :
  exists wp2 wp2' wp5,
    bind (Submit (pool.Start small_pool) 1%nat) (fun r => Submit (snd r) 2%nat)
    = Done (None, wp2)
    /\ match worker_receive wp2 with
       | Some (_, wp) => worker_receive wp
       | None => None
       end = Some (2%nat, wp2')
    /\ bind (bind (Submit wp2' 3%nat) (fun r => Submit (snd r) 4%nat))
            (fun r => Submit (snd r) 5%nat)
       = Done (None, wp5)
    /\ GetQueueSize wp5 = 3
    /\ Submit wp5 6%nat = Done (Some ErrQueueFull, wp5).
Proof.
  do 3 eexists. repeat split; reflexivity.
Qed.

(** ** The repository's counters, the service and the handler *)

Lemma count_fold (f : Alert -> bool) (P : Alert -> Prop) `{!forall a, Decision (P a)}
      (l : list Alert) (n : Z) :
  (forall a, f a = true <-> P a) ->
  0 <= n -> n + Z.of_nat (length l) <= maxInt64 ->
  fold_left (fun count alert => if f alert then int64 (count + 1) else count) l n
  = n + Z.of_nat (length (filter P l)).
Proof.
  intros Hf. revert n. induction l as [| a l IH]; intros n Hn Hlen; simpl in *.
  - lia.
  - rewrite filter_cons. destruct (decide (P a)) as [HP | HP].
    + pose proof (proj2 (Hf a) HP) as ->.
      rewrite int64_id by (unfold is_int64, minInt64, maxInt64 in *; lia).
      rewrite IH by lia. simpl. lia.
    + destruct (f a) eqn:Hfa; [apply Hf in Hfa; contradiction |].
      rewrite IH by lia. lia.
Qed.

Lemma InMemory_CountByStatus_filter (r : InMemoryAlertRepo) (status : AlertStatus) :
  Z.of_nat (length (alerts r)) <= maxInt64 ->
  InMemoryAlertRepo_CountByStatus r status
  = (Z.of_nat (length (filter (fun a => Status a = status) (alerts r))), None, r).
Proof.
  intros Hlen. unfold InMemoryAlertRepo_CountByStatus. do 2 f_equal.
  rewrite (count_fold (fun a => String.eqb (Status a) status)
                      (fun a => Status a = status)); [lia | | lia | lia].
  intros a. apply String.eqb_eq.
Qed.

Lemma InMemory_CountBySeverity_filter (r : InMemoryAlertRepo) (severity : string) :
  Z.of_nat (length (alerts r)) <= maxInt64 ->
  InMemoryAlertRepo_CountBySeverity r severity
  = (Z.of_nat (length (filter (fun a => Severity a = severity /\ Status a = AlertStatusFiring)
                              (alerts r))), None, r).
Proof.
  intros Hlen. unfold InMemoryAlertRepo_CountBySeverity. do 2 f_equal.
  rewrite (count_fold (fun a => String.eqb (Severity a) severity
                                && String.eqb (Status a) AlertStatusFiring)
                      (fun a => Severity a = severity /\ Status a = AlertStatusFiring));
    [lia | | lia | lia].
  intros a. rewrite andb_true_iff, !String.eqb_eq. done.
Qed.

Lemma int64_length {A : Type} (l : list A) :
  Z.of_nat (length l) <= maxInt64 -> int64 (Z.of_nat (length l)) = Z.of_nat (length l).
Proof.
  intros Hlen. apply int64_id. unfold is_int64, minInt64, maxInt64 in *. lia.
Qed.

Lemma filter_length_le {A : Type} (P : A -> Prop) `{!forall a, Decision (P a)} (l : list A) :
  (length (filter P l) <= length l)%nat.
Proof.
  induction l as [| a l IH]; [done |].
  rewrite filter_cons. destruct (decide (P a)); simpl; lia.
Qed.

Lemma filter_length_mono {A : Type} (P Q : A -> Prop)
      `{!forall a, Decision (P a)} `{!forall a, Decision (Q a)} (l : list A) :
  (forall a, P a -> Q a) -> (length (filter P l) <= length (filter Q l))%nat.
Proof.
  intros HPQ. induction l as [| a l IH]; [done |].
  rewrite !filter_cons. destruct (decide (P a)) as [HP | HP].
  - destruct (decide (Q a)) as [HQ | HQ]; [simpl; lia | destruct HQ; auto].
  - destruct (decide (Q a)); simpl; lia.
Qed.

(** X1: an alert created in the in-memory repository is the one that
    [GetRecent] returns last, for every positive limit; with limit 1 it is
    the only one returned; and [Count] has grown by one. *)
Theorem InMemory_Create_then_GetRecent (r : InMemoryAlertRepo) (alert : Alert)
  (Hlen : Z.of_nat (length (alerts r)) < maxInt64) :
  exists r',
    Create r alert = (None, r')
    /\ alerts r' = alerts r ++ [alert]
    /\ GetRecent r' 1 = Done ([alert], None, r')
    /\ (forall limit, 0 < limit <= maxInt64 ->
        exists res, GetRecent r' limit = Done (res, None, r') /\ last res = Some alert)
    /\ fst (fst (Count r')) = fst (fst (Count r)) + 1.
Proof.
  exists (mkInMemoryAlertRepo (alerts r ++ [alert])).
  assert (Hlen' : Z.of_nat (length (alerts r ++ [alert])) <= maxInt64).
  { rewrite length_app. simpl. lia. }
  assert (Hrecent : forall limit, 0 < limit <= maxInt64 ->
            exists res,
              InMemoryAlertRepo_GetRecent (mkInMemoryAlertRepo (alerts r ++ [alert])) limit
              = Done (res, None, mkInMemoryAlertRepo (alerts r ++ [alert]))
              /\ res = drop (length (alerts r) + 1 - Z.to_nat limit) (alerts r) ++ [alert]).
  { intros limit Hlimit. eexists. split.
    - apply InMemory_GetRecent_in_range; [lia | exact Hlen'].
    - simpl. rewrite length_app. simpl. rewrite drop_app_le by lia. reflexivity. }
  split; [reflexivity |]. split; [reflexivity |]. split; [| split].
  - destruct (Hrecent 1) as (res & Hrun & ->); [unfold maxInt64; lia |].
    simpl. rewrite Hrun. do 3 f_equal.
    replace (length (alerts r) + 1 - Z.to_nat 1)%nat with (length (alerts r)) by lia.
    by rewrite drop_all.
  - intros limit Hlimit. destruct (Hrecent limit Hlimit) as (res & Hrun & ->).
    eexists. split; [exact Hrun |]. apply last_snoc.
  - simpl. rewrite !int64_length; [| lia | exact Hlen'].
    rewrite length_app. simpl. lia.
Qed.

Lemma InMemory_Create_then_GetRecent_witness :
  exists r',
    Create three_alerts (sample_alert 4 3) = (None, r')
    /\ GetRecent r' 1 = Done ([sample_alert 4 3], None, r')
    /\ fst (fst (Count r')) = 4.
Proof.
  destruct (InMemory_Create_then_GetRecent three_alerts (sample_alert 4 3))
    as (r' & Hcreate & _ & Hrecent & _ & Hcount).
  - unfold maxInt64. simpl. lia.
  - exists r'. split; [exact Hcreate |]. split; [exact Hrecent |].
    rewrite Hcount. reflexivity.
Defined.

(** X2: the in-memory counters count what their names say, and what the
    queries of the PostgreSQL adapter count over the same rows:
    [CountByStatus] the stored alerts with that status, [CountBySeverity]
    the stored alerts with that severity that are firing.  So a severity's
    count never exceeds the firing count, which never exceeds [Count]. *)
Theorem counters_agree_and_are_ordered (stored : list Alert)
  (status : AlertStatus) (severity : string)
  (Hlen : Z.of_nat (length stored) <= maxInt64) :
  Count (mkInMemoryAlertRepo stored)
  = (Z.of_nat (length stored), None, mkInMemoryAlertRepo stored)
  /\ CountByStatus (mkInMemoryAlertRepo stored) status
     = (Z.of_nat (length (filter (fun a => Status a = status) stored)), None,
        mkInMemoryAlertRepo stored)
  /\ CountBySeverity (mkInMemoryAlertRepo stored) severity
     = (Z.of_nat (length (filter (fun a => Severity a = severity
                                           /\ Status a = AlertStatusFiring) stored)),
        None, mkInMemoryAlertRepo stored)
  /\ fst (fst (Count (mkPostgresAlertRepo stored None)))
     = fst (fst (Count (mkInMemoryAlertRepo stored)))
  /\ fst (fst (CountByStatus (mkPostgresAlertRepo stored None) status))
     = fst (fst (CountByStatus (mkInMemoryAlertRepo stored) status))
  /\ fst (fst (CountBySeverity (mkPostgresAlertRepo stored None) severity))
     = fst (fst (CountBySeverity (mkInMemoryAlertRepo stored) severity))
  /\ 0 <= fst (fst (CountBySeverity (mkInMemoryAlertRepo stored) severity))
     <= fst (fst (CountByStatus (mkInMemoryAlertRepo stored) AlertStatusFiring))
  /\ fst (fst (CountByStatus (mkInMemoryAlertRepo stored) status))
     <= fst (fst (Count (mkInMemoryAlertRepo stored))).
Proof.
  pose proof (filter_length_le (fun a => Status a = status) stored) as Hstatus.
  pose proof (filter_length_le (fun a => Severity a = severity
                                         /\ Status a = AlertStatusFiring) stored) as Hsev.
  pose proof (filter_length_mono
                (fun a => Severity a = severity /\ Status a = AlertStatusFiring)
                (fun a => Status a = AlertStatusFiring) stored
                ltac:(intros a [_ Ha]; exact Ha)) as Hmono.
  cbn [Count CountByStatus CountBySeverity InMemoryAlertRepo_AlertRepo
       PostgresAlertRepo_AlertRepo].
  rewrite !InMemory_CountByStatus_filter, InMemory_CountBySeverity_filter by exact Hlen.
  unfold InMemoryAlertRepo_Count, PostgresAlertRepo_Count, PostgresAlertRepo_CountByStatus,
    PostgresAlertRepo_CountBySeverity. simpl.
  rewrite !int64_length by lia.
  repeat split; lia.
Qed.

Lemma counters_agree_and_are_ordered_witness :
  CountByStatus three_alerts AlertStatusFiring = (3, None, three_alerts)
  /\ CountBySeverity three_alerts "high" = (3, None, three_alerts)
  /\ fst (fst (CountBySeverity three_rows "high")) = 3.
Proof.
  destruct (counters_agree_and_are_ordered (alerts three_alerts) AlertStatusFiring "high")
    as (_ & Hstatus & Hsev & _ & _ & Hpg & _).
  - unfold maxInt64. simpl. lia.
  - split; [exact Hstatus |]. split; [exact Hsev |].
    unfold three_rows. rewrite Hpg. reflexivity.
Defined.

(** ** The service and the handler over the in-memory repository *)

Lemma service_GetRecentAlerts_InMemory (r : InMemoryAlertRepo) (limit : Z) :
  Z.of_nat (length (alerts r)) <= maxInt64 ->
  service.GetRecentAlerts (service.NewAlertService r) limit
  = Done (drop (length (alerts r)
                - Z.to_nat (if decide (1 <= limit <= 1000) then limit else 100))
               (alerts r),
          None, service.NewAlertService r).
Proof.
  intros Hlen. unfold service.GetRecentAlerts, service.NewAlertService.
  cbn [service.repo GetRecent InMemoryAlertRepo_AlertRepo].
  assert (Hclamp : (if (limit <=? 0) || (1000 <? limit) then 100 else limit)
                   = if decide (1 <= limit <= 1000) then limit else 100).
  { destruct (Z.leb_spec limit 0), (Z.ltb_spec 1000 limit); simpl;
      case_decide; lia. }
  rewrite Hclamp.
  rewrite InMemory_GetRecent_in_range; [reflexivity | | exact Hlen].
  unfold maxInt64. case_decide; lia.
Qed.

(** X3: unlike the repository, whose [GetRecent] panics on a negative limit,
    the service's [GetRecentAlerts] answers for every limit: it returns the
    last [min l n] of the [n] stored alerts, where [l] is the limit when
    this lies between 1 and 1000 and is 100 otherwise; so never more than
    1000 alerts, and never an error. *)
Theorem service_GetRecentAlerts_clamps (r : InMemoryAlertRepo) (limit : Z)
  (Hlen : Z.of_nat (length (alerts r)) <= maxInt64) :
  exists older res,
    service.GetRecentAlerts (service.NewAlertService r) limit
    = Done (res, None, service.NewAlertService r)
    /\ alerts r = older ++ res
    /\ Z.of_nat (length res)
       = Z.min (if decide (1 <= limit <= 1000) then limit else 100)
               (Z.of_nat (length (alerts r)))
    /\ Z.of_nat (length res) <= 1000.
Proof.
  eexists (take _ (alerts r)), _.
  split; [by apply service_GetRecentAlerts_InMemory |].
  split; [by rewrite take_drop |].
  rewrite length_drop. case_decide; lia.
Qed.

Lemma service_GetRecentAlerts_clamps_witness :
  InMemoryAlertRepo_GetRecent three_alerts (-1) = Panic "slice bounds out of range"
  /\ exists older res,
      service.GetRecentAlerts (service.NewAlertService three_alerts) (-1)
      = Done (res, None, service.NewAlertService three_alerts)
      /\ alerts three_alerts = older ++ res
      /\ Z.of_nat (length res) = 3.
Proof.
  split; [reflexivity |].
  destruct (service_GetRecentAlerts_clamps three_alerts (-1))
    as (older & res & Hrun & Hsplit & Hlength & _).
  - unfold maxInt64. simpl. lia.
  - exists older, res. split; [exact Hrun |]. split; [exact Hsplit |].
    rewrite Hlength. reflexivity.
Defined.

(** X4: the handler of [GET /api/alerts/recent] over the in-memory
    repository answers 200 for every request, with [count] the number of
    alerts it returns.  It returns the last [min l n] of the [n] stored
    alerts, where [l] is 50 when the [limit] parameter is absent, is no
    number, or is not positive; is the parameter when this lies between 1
    and 1000; and is 100, not 50, when the parameter exceeds 1000. *)
Theorem handler_GetRecentAlerts_limits (r : InMemoryAlertRepo) (query : option string)
  (Hlen : Z.of_nat (length (alerts r)) <= maxInt64) :
  exists l older res,
    handlers.GetRecentAlerts (handlers.NewAlertHandler (service.NewAlertService r)) query
    = Done (handlers.StatusOK res (Z.of_nat (length res)),
            handlers.NewAlertHandler (service.NewAlertService r))
    /\ alerts r = older ++ res
    /\ Z.of_nat (length res) = Z.min l (Z.of_nat (length (alerts r)))
    /\ 1 <= l <= 1000
    /\ (query = None -> l = 50)
    /\ (forall v n e, query = Some v -> handlers.Atoi v = (n, Some e) -> l = 50)
    /\ (forall v n, query = Some v -> handlers.Atoi v = (n, None) ->
        (n <= 0 -> l = 50) /\ (1 <= n <= 1000 -> l = n) /\ (1000 < n -> l = 100)).
Proof.
  unfold handlers.GetRecentAlerts, handlers.NewAlertHandler.
  cbn [handlers.handler_service].
  set (limitStr := match query with Some v => v | None => "50" end).
  assert (Hquery : forall v, query = Some v -> limitStr = v).
  { intros v ->. reflexivity. }
  assert (Hdefault : query = None -> handlers.Atoi limitStr = (50, None)).
  { intros ->. reflexivity. }
  destruct (handlers.Atoi limitStr) as [n err] eqn:Hatoi.
  set (limit := if _ || _ then 50 else n).
  rewrite (service_GetRecentAlerts_InMemory r limit Hlen). cbn [bind].
  exists (if decide (1 <= limit <= 1000) then limit else 100).
  eexists (take _ (alerts r)), _.
  split; [reflexivity |].
  split; [by rewrite take_drop |].
  split; [rewrite length_drop; case_decide; lia |].
  split; [case_decide; lia |].
  split.
  { intros Hnone. specialize (Hdefault Hnone). injection Hdefault as -> ->.
    subst limit. simpl. reflexivity. }
  split.
  { intros v n' e Hv Hparse. rewrite (Hquery v Hv), Hparse in Hatoi.
    injection Hatoi as <- <-. subst limit. simpl. reflexivity. }
  intros v n' Hv Hparse. rewrite (Hquery v Hv), Hparse in Hatoi.
  injection Hatoi as <- <-. subst limit. cbn [orb].
  destruct (Z.leb_spec n' 0); repeat split; intros; repeat case_decide; lia.
Qed.

Lemma handler_GetRecentAlerts_limits_witness :
  exists res,
    handlers.GetRecentAlerts (handlers.NewAlertHandler (service.NewAlertService three_alerts))
                             (Some "2")
    = Done (handlers.StatusOK res 2,
            handlers.NewAlertHandler (service.NewAlertService three_alerts))
    /\ last res = Some (sample_alert 3 2).
Proof.
  destruct (handler_GetRecentAlerts_limits three_alerts (Some "2"))
    as (l & older & res & Hrun & Hsplit & Hlength & _ & _ & _ & Hparsed).
  - unfold maxInt64. simpl. lia.
  - destruct (Hparsed "2" 2 eq_refl eq_refl) as (_ & Hl & _).
    rewrite Hl in Hlength by lia.
    exists res. split.
    + rewrite Hrun. do 3 f_equal. rewrite Hlength. reflexivity.
    + change (alerts three_alerts)
        with ([sample_alert 1 0; sample_alert 2 1] ++ [sample_alert 3 2]) in Hsplit.
      destruct res as [| a res] using rev_ind; [simpl in Hlength; vm_compute in Hlength; lia |].
      rewrite app_assoc in Hsplit. apply app_inj_tail in Hsplit as [_ <-].
      apply last_snoc.
Defined.




(** X6: when the database refuses a statement, every operation of the
    service returns the driver's error and leaves the rows as they were, and
    the handler of [GET /api/alerts/recent] answers 500 with that error,
    whatever the [limit] parameter. *)
Theorem database_error_reaches_the_client (p : PostgresAlertRepo) (e : string)
  (alert : Alert) (limit : Z) (query : option string)
  (Hdb : db_error p = Some e) :
  service.CreateAlert (service.NewAlertService p) alert
  = (Some e, service.NewAlertService p)
  /\ service.GetRecentAlerts (service.NewAlertService p) limit
     = Done ([], Some e, service.NewAlertService p)
  /\ service.GetTotalAlertsCount (service.NewAlertService p)
     = (0, Some e, service.NewAlertService p)
  /\ service.GetFiringAlertsCount (service.NewAlertService p)
     = (0, Some e, service.NewAlertService p)
  /\ service.GetSeverityCounts (service.NewAlertService p)
     = (None, Some e, service.NewAlertService p)
  /\ handlers.GetRecentAlerts (handlers.NewAlertHandler (service.NewAlertService p)) query
     = Done (handlers.StatusInternalServerError e,
             handlers.NewAlertHandler (service.NewAlertService p)).
Proof.
  unfold handlers.GetRecentAlerts, handlers.NewAlertHandler.
  cbn [handlers.handler_service].
  destruct (handlers.Atoi _) as [n err].
  unfold service.CreateAlert, service.GetRecentAlerts, service.GetTotalAlertsCount,
    service.GetFiringAlertsCount, service.GetSeverityCounts, service.NewAlertService.
  cbn [service.repo Create GetRecent Count CountByStatus CountBySeverity
       PostgresAlertRepo_AlertRepo].
  unfold PostgresAlertRepo_Create, PostgresAlertRepo_GetRecent, PostgresAlertRepo_Count,
    PostgresAlertRepo_CountByStatus, PostgresAlertRepo_CountBySeverity.
  rewrite Hdb. done.
Qed.

Lemma database_error_reaches_the_client_witness :
  service.CreateAlert
    (service.NewAlertService (mkPostgresAlertRepo [] (Some "connection refused")))
    (sample_alert 1 0)
  = (Some "connection refused",
     service.NewAlertService (mkPostgresAlertRepo [] (Some "connection refused")))
  /\ handlers.GetRecentAlerts
       (handlers.NewAlertHandler
          (service.NewAlertService (mkPostgresAlertRepo [] (Some "connection refused"))))
       None
     = Done (handlers.StatusInternalServerError "connection refused",
             handlers.NewAlertHandler
               (service.NewAlertService (mkPostgresAlertRepo [] (Some "connection refused")))).
Proof.
  destruct (database_error_reaches_the_client
              (mkPostgresAlertRepo [] (Some "connection refused")) "connection refused"
              (sample_alert 1 0) 10 None eq_refl)
    as (Hcreate & _ & _ & _ & _ & Hhandler).
  split; [exact Hcreate | exact Hhandler].
Defined.

(** ** The worker pool, continued *)

Section PoolQueue.

Context {Task : Type}.
Implicit Types (wp : WorkerPool Task) (task : Task) (tasks : list Task).

Lemma pool_step_stopped wp wp' :
  stopped wp = true -> pool_step wp wp' ->
  stopped wp' = true
  /\ workerCount wp' = workerCount wp
  /\ exists taken, buf (taskQueue wp) = taken ++ buf (taskQueue wp').
Proof.
  intros Hs Hstep. revert Hs.
  destruct Hstep as [wp0 | wp0 task e wp1 Hsubmit | wp0 task wp1 Hrecv | wp0 wp1 Hstop];
    intros Hs.
  - split; [exact Hs |]. split; [reflexivity |]. by exists [].
  - unfold Submit in Hsubmit. rewrite Hs in Hsubmit. injection Hsubmit as <- <-.
    split; [done |]. split; [done |]. by exists [].
  - unfold worker_receive in Hrecv.
    destruct (buf (taskQueue wp0)) as [| t rest] eqn:Hbuf; [discriminate |].
    injection Hrecv as <- <-. split; [done |]. split; [done |]. by exists [t].
  - unfold Stop in Hstop. rewrite Hs in Hstop. injection Hstop as <-.
    split; [done |]. split; [done |]. by exists [].
Qed.

Lemma pool_steps_stopped wp wp' :
  stopped wp = true -> rtc pool_step wp wp' ->
  stopped wp' = true
  /\ workerCount wp' = workerCount wp
  /\ exists taken, buf (taskQueue wp) = taken ++ buf (taskQueue wp').
Proof.
  intros Hs Hsteps. induction Hsteps as [wp | wp wp1 wp2 Hstep _ IH].
  - split; [done |]. split; [done |]. by exists [].
  - destruct (pool_step_stopped _ _ Hs Hstep) as (Hs1 & Hwc1 & taken1 & Hbuf1).
    destruct (IH Hs1) as (Hs2 & Hwc2 & taken2 & Hbuf2).
    split; [done |]. split; [congruence |].
    exists (taken1 ++ taken2). rewrite Hbuf1, Hbuf2. by rewrite app_assoc.
Qed.

Lemma SubmitAll_running wp tasks :
  pool_inv wp -> stopped wp = false ->
  exists wp',
    SubmitAll wp tasks
    = Done (replicate (length (take (cap (taskQueue wp) - len (taskQueue wp)) tasks)) None
            ++ replicate (length (drop (cap (taskQueue wp) - len (taskQueue wp)) tasks))
                         (Some ErrQueueFull),
            wp')
    /\ buf (taskQueue wp')
       = buf (taskQueue wp) ++ take (cap (taskQueue wp) - len (taskQueue wp)) tasks
    /\ cap (taskQueue wp') = cap (taskQueue wp)
    /\ stopped wp' = false
    /\ pool_inv wp'.
Proof.
  revert wp. induction tasks as [| task tasks IH]; intros wp Hinv Hs.
  - exists wp. rewrite take_nil, drop_nil. simpl. rewrite app_nil_r. done.
  - destruct Hinv as [Hcap Hopen]. destruct (Hopen Hs) as [Hq Hc].
    cbn [SubmitAll]. unfold Submit, try_send, len. rewrite Hs, Hq. cbn [bind].
    destruct (Nat.ltb_spec (length (buf (taskQueue wp))) (cap (taskQueue wp)))
      as [Hroom | Hfull]; cbn [bind].
    + set (wp1 := mkWorkerPool _ _ _ _ _).
      destruct (IH wp1) as (wp' & Hrun & Hbuf & Hcap' & Hs' & Hinv').
      { split; simpl; [rewrite length_app; simpl; lia | done]. }
      { done. }
      rewrite Hrun. cbn [bind]. exists wp'.
      assert (Hlen1 : (cap (taskQueue wp1) - len (taskQueue wp1)
                       = cap (taskQueue wp) - length (buf (taskQueue wp)) - 1)%nat).
      { unfold len. simpl. rewrite length_app. simpl. lia. }
      rewrite Hlen1 in *.
      destruct (cap (taskQueue wp) - length (buf (taskQueue wp)))%nat as [| room] eqn:Hr;
        [lia |].
      replace (S room - 1)%nat with room in * by lia.
      cbn [take drop length replicate app].
      split; [reflexivity |]. split.
      { rewrite Hbuf. simpl. by rewrite <- app_assoc. }
      done.
    + destruct (IH wp) as (wp' & Hrun & Hbuf & Hcap' & Hs' & Hinv'); [done | done |].
      rewrite Hrun. cbn [bind]. exists wp'.
      unfold len in *.
      replace (cap (taskQueue wp) - length (buf (taskQueue wp)))%nat with 0%nat in * by lia.
      rewrite take_0, drop_0 in *. cbn [length replicate app] in *.
      done.
Qed.

Lemma receiveAll_queue wp :
  exists wp',
    receiveAll (length (buf (taskQueue wp))) wp = (buf (taskQueue wp), wp')
    /\ buf (taskQueue wp') = []
    /\ stopped wp' = stopped wp.
Proof.
  remember (buf (taskQueue wp)) as queue eqn:Hqueue.
  revert wp Hqueue. induction queue as [| task queue IH]; intros wp Hqueue.
  - exists wp. done.
  - cbn [length receiveAll]. unfold worker_receive. rewrite <- Hqueue.
    set (wp1 := mkWorkerPool _ _ _ _ _).
    destruct (IH wp1 eq_refl) as (wp' & Hrun & Hbuf & Hs).
    rewrite Hrun. exists wp'. done.
Qed.

(** X7: every pool reached from its construction has at least one worker
    and a queue of capacity at least one, whatever numbers it was built
    from, and its queue never holds more tasks than the capacity. *)
Theorem reachable_pool_bounds wp (Hreach : reachable wp) :
  1 <= GetWorkerCount wp
  /\ (1 <= cap (taskQueue wp))%nat
  /\ 0 <= GetQueueSize wp <= Z.of_nat (cap (taskQueue wp)).
Proof.
  assert (Hsizes : 1 <= GetWorkerCount wp /\ (1 <= cap (taskQueue wp))%nat).
  { induction Hreach as [wc qs | wp _ IH | wp task e wp' _ IH Hsubmit
                         | wp task wp' _ IH Hrecv | wp wp' _ IH Hstop].
    - unfold GetWorkerCount, NewWorkerPool. simpl.
      destruct (Z.leb_spec wc 0), (Z.leb_spec qs 0); lia.
    - exact IH.
    - unfold Submit, try_send in Hsubmit.
      destruct (stopped wp); [by injection Hsubmit as <- <- |].
      destruct (closed (taskQueue wp)); [discriminate |].
      destruct (_ <? _)%nat; by injection Hsubmit as <- <-.
    - unfold worker_receive in Hrecv.
      destruct (buf (taskQueue wp)); [discriminate |]. by injection Hrecv as <- <-.
    - unfold Stop, close in Hstop.
      destruct (stopped wp); [by injection Hstop as <- |].
      destruct (closed (stopChan wp)); [discriminate |].
      destruct (closed (taskQueue wp)); [discriminate |]. by injection Hstop as <-. }
  destruct (reachable_inv wp Hreach) as [Hcap _].
  unfold GetQueueSize, len. lia.
Qed.

(** X8: a stopped pool stays stopped, whatever is called on it and whatever
    its workers do: every later [Submit] returns the Stopped error, every
    later [Stop] returns at once, and the queue only loses tasks. *)
Theorem stopped_pool_stays_stopped wp wp'
  (Hstopped : IsStopped wp = true) (Hsteps : rtc pool_step wp wp') :
  IsStopped wp' = true
  /\ (forall task, Submit wp' task = Done (Some ErrStopped, wp'))
  /\ (forall ctx task, ctx_Err ctx = None ->
                       SubmitWithContext wp' ctx task = Done (Some ErrStopped, wp'))
  /\ Stop wp' = Done wp'
  /\ GetWorkerCount wp' = GetWorkerCount wp
  /\ GetQueueSize wp' <= GetQueueSize wp
  /\ exists taken, buf (taskQueue wp) = taken ++ buf (taskQueue wp').
Proof.
  destruct (pool_steps_stopped wp wp' Hstopped Hsteps) as (Hs & Hwc & taken & Hbuf).
  split; [exact Hs |].
  split; [intros task; unfold Submit; by rewrite Hs |].
  split; [intros ctx task Hctx; unfold SubmitWithContext, Submit; by rewrite Hctx, Hs |].
  split; [unfold Stop; by rewrite Hs |].
  split; [exact Hwc |].
  split; [| by exists taken].
  unfold GetQueueSize, len. rewrite Hbuf, length_app. lia.
Qed.

(** X9: the queue of a running pool is first in, first out, and bounded:
    of the tasks submitted one after the other exactly the first ones that
    fit in the room left are accepted, the others are refused with the
    QueueFull error, and the workers receive the queued tasks in the order
    of their submission. *)
Theorem pool_queue_is_fifo wp tasks
  (Hreach : reachable wp) (Hrunning : IsStopped wp = false) :
  exists wp' wp'',
    SubmitAll wp tasks
    = Done (replicate (length (take (cap (taskQueue wp) - len (taskQueue wp)) tasks)) None
            ++ replicate (length (drop (cap (taskQueue wp) - len (taskQueue wp)) tasks))
                         (Some ErrQueueFull),
            wp')
    /\ receiveAll (len (taskQueue wp')) wp'
       = (buf (taskQueue wp) ++ take (cap (taskQueue wp) - len (taskQueue wp)) tasks, wp'')
    /\ GetQueueSize wp'' = 0
    /\ IsStopped wp'' = false.
Proof.
  destruct (SubmitAll_running wp tasks (reachable_inv wp Hreach) Hrunning)
    as (wp' & Hrun & Hbuf & _ & Hs & _).
  destruct (receiveAll_queue wp') as (wp'' & Hrecv & Hempty & Hs').
  exists wp', wp''. split; [exact Hrun |].
  split; [unfold len; by rewrite Hrecv, Hbuf |].
  split; [unfold GetQueueSize, len; by rewrite Hempty |].
  unfold IsStopped. congruence.
Qed.

End PoolQueue.

Lemma reachable_pool_bounds_witness :
  GetWorkerCount (NewWorkerPool (-3) 0 : WorkerPool nat) = 1
  /\ cap (taskQueue (NewWorkerPool (-3) 0 : WorkerPool nat)) = 100%nat
  /\ 0 <= GetQueueSize (NewWorkerPool (-3) 0 : WorkerPool nat) <= 100.
Proof.
  pose proof (reachable_pool_bounds (NewWorkerPool (-3) 0 : WorkerPool nat)
                                    (reach_new (-3) 0)) as (_ & _ & Hsize).
  split; [reflexivity |]. split; [reflexivity |]. exact Hsize.
Defined.

Lemma stopped_pool_stays_stopped_witness :
  exists wp : WorkerPool nat,
    pool.Stop small_pool = Done wp
    /\ Submit wp 7%nat = Done (Some ErrStopped, wp)
    /\ pool.Stop (pool.Start wp) = Done (pool.Start wp).
Proof.
  exists (mkWorkerPool 2 (mkChan [] 3 true) (mkChan [] 0 true) 0 true).
  split; [reflexivity |].
  split.
  - apply (stopped_pool_stays_stopped
             (mkWorkerPool 2 (mkChan [] 3 true) (mkChan [] 0 true) 0 true) _ eq_refl).
    apply rtc_refl.
  - apply (stopped_pool_stays_stopped
             (mkWorkerPool 2 (mkChan [] 3 true) (mkChan [] 0 true) 0 true) _ eq_refl).
    apply rtc_once. apply step_Start.
Defined.

Lemma pool_queue_is_fifo_witness :
  exists wp' wp'',
    SubmitAll small_pool [1; 2; 3; 4; 5]%nat
    = Done ([None; None; None; Some ErrQueueFull; Some ErrQueueFull], wp')
    /\ receiveAll (len (taskQueue wp')) wp' = ([1; 2; 3]%nat, wp'').
Proof.
  destruct (pool_queue_is_fifo small_pool [1; 2; 3; 4; 5]%nat (reach_new 2 3) eq_refl)
    as (wp' & wp'' & Hrun & Hrecv & _).
  exists wp', wp''. split; [exact Hrun | exact Hrecv].
Defined.

(** ** The event bus, continued *)

Section BusInvariant.

Context {O : Type} `{AlertObserver O}.
Implicit Types (eb : EventBus O) (event : AlertEvent).

Lemma bus_reachable_inv eb :
  bus_reachable eb ->
  closed (eventChan eb) = false
  /\ cap (eventChan eb) = 200%nat
  /\ (len (eventChan eb) <= 200)%nat.
Proof.
  induction 1 as [| eb observer _ IH | eb event eb' logs _ IH Hpub | eb _ IH
                  | eb event eb' logs _ IH Hrecv | eb eb' _ IH Hstop].
  - unfold len. simpl. repeat split; lia.
  - exact IH.
  - destruct IH as (Hopen & Hcap & Hlen).
    rewrite (Publish_open _ _ Hopen) in Hpub.
    destruct (Nat.ltb_spec (len (eventChan eb)) (cap (eventChan eb))) as [Hroom | Hfull];
      injection Hpub as <- <-; [| done].
    unfold len in *. simpl. rewrite length_app. simpl. repeat split; lia.
  - exact IH.
  - destruct IH as (Hopen & Hcap & Hlen).
    unfold dispatcher_receive, notifyObservers in Hrecv.
    destruct (buf (eventChan eb)) as [| e rest] eqn:Hbuf; [discriminate |].
    injection Hrecv as <- <- <-. unfold len in *. rewrite Hbuf in Hlen. simpl in *.
    repeat split; [done | done | lia].
  - unfold EventBus_Stop, close in Hstop.
    destruct (closed (stopCh eb)); [discriminate |]. by injection Hstop as <-.
Qed.

(** X10: on every bus reached from its construction, also after [Stop],
    the event channel is open, has capacity 200 and holds at most 200
    events; so [Publish] neither panics nor parks its caller: with room it
    puts the event at the back of the channel, and on a full channel it
    drops the event with a warning and changes nothing. *)
Theorem Publish_never_fails eb event (Hreach : bus_reachable eb) :
  (len (eventChan eb) <= 200)%nat
  /\ exists eb' logs,
      Publish eb event = Done (eb', logs)
      /\ bus_reachable eb'
      /\ observers eb' = observers eb
      /\ stopCh eb' = stopCh eb
      /\ ((len (eventChan eb) < 200)%nat ->
          buf (eventChan eb') = buf (eventChan eb) ++ [event] /\ logs = [])
      /\ (len (eventChan eb) = 200%nat ->
          eb' = eb /\ logs = [LogWarn "Event bus channel full, dropping event"]).
Proof.
  destruct (bus_reachable_inv eb Hreach) as (Hopen & Hcap & Hlen).
  split; [exact Hlen |].
  pose proof (Publish_open eb event Hopen) as Hpub. rewrite Hcap in Hpub.
  destruct (Nat.ltb_spec (len (eventChan eb)) 200) as [Hroom | Hfull].
  - do 2 eexists. split; [exact Hpub |].
    split; [eapply bus_Publish; [exact Hreach | exact Hpub] |].
    repeat split; try done. all: lia.
  - do 2 eexists. split; [exact Hpub |].
    split; [exact Hreach |].
    repeat split; try done. all: lia.
Qed.

End BusInvariant.

Lemma Publish_never_fails_witness :
  exists eb1 eb2 logs,
    EventBus_Stop started_bus = Done eb1
    /\ Publish eb1 (mkAlertEvent (sample_alert 1 0) 2) = Done (eb2, logs)
    /\ buf (eventChan eb2) = [mkAlertEvent (sample_alert 1 0) 2]
    /\ logs = [].
Proof.
  assert (Hreach : bus_reachable
                     (mkEventBus (observers started_bus) (eventChan started_bus)
                                 (mkChan [] 0 true) 0 : EventBus nat)).
  { eapply bus_Stop; [apply bus_Start, bus_new | reflexivity]. }
  destruct (Publish_never_fails _ (mkAlertEvent (sample_alert 1 0) 2) Hreach)
    as (_ & eb2 & logs & Hpub & _ & _ & _ & Hroom & _).
  eexists _, eb2, logs. split; [reflexivity |]. split; [exact Hpub |].
  apply Hroom. vm_compute. lia.
Defined.

(** ** The websocket hub *)

Section HubProperties.

Import websocket.

Implicit Types (h : Hub) (message : Message) (conn : Conn) (client : nat).

(** The connection after a successful write. *)
Lemma WriteJSON_healthy conn message :
  conn_failing conn = false -> conn_closed conn = false ->
  WriteJSON conn message = (None, mkConn false false (conn_written conn ++ [message])).
Proof.
  intros Hf Hc. unfold WriteJSON. by rewrite Hf, Hc.
Qed.

Lemma writeAll_healthy h (snapshot : list (nat * Conn)) message effects :
  (forall client conn, (client, conn) ∈ snapshot ->
                       conn_failing conn = false /\ conn_closed conn = false) ->
  writeAll h snapshot message effects
  = Done (mkHub (fold_left (fun m '(client, conn) =>
                              <[client := mkConn false false (conn_written conn ++ [message])]> m)
                           snapshot (clients h))
                (broadcast h) (register h) (unregister h),
          effects).
Proof.
  revert h. induction snapshot as [| [client conn] snapshot IH]; intros h Hhealthy.
  - by destruct h.
  - destruct (Hhealthy client conn) as [Hf Hc]; [apply list_elem_of_here |].
    cbn [writeAll fold_left]. rewrite (WriteJSON_healthy _ _ Hf Hc).
    rewrite IH; [reflexivity |].
    intros client' conn' Hin. apply (Hhealthy client'). by apply list_elem_of_further.
Qed.

Lemma writeAll_blocks h (snapshot : list (nat * Conn)) message effects :
  closed (unregister h) = false -> cap (unregister h) = 0%nat ->
  (exists client conn, (client, conn) ∈ snapshot
                       /\ (conn_failing conn = true \/ conn_closed conn = true)) ->
  writeAll h snapshot message effects = Blocked.
Proof.
  intros Hopen Hcap. revert h Hopen Hcap.
  induction snapshot as [| [client conn] snapshot IH];
    intros h Hopen Hcap (client' & conn' & Hin & Hbad).
  - by apply elem_of_nil in Hin.
  - cbn [writeAll]. unfold WriteJSON.
    destruct (conn_failing conn || conn_closed conn) eqn:Hhead.
    + unfold send. cbn [unregister clients broadcast register].
      rewrite Hopen, Hcap. reflexivity.
    + apply IH; [exact Hopen | exact Hcap |].
      apply elem_of_cons in Hin as [Heq | Hin].
      * injection Heq as -> ->. apply orb_false_iff in Hhead as [Hf Hc].
        destruct Hbad; congruence.
      * eauto.
Qed.

Lemma written_lookup (snapshot : list (nat * Conn)) (m : gmap nat Conn) message client :
  NoDup snapshot.*1 ->
  fold_left (fun m '(client, conn) =>
               <[client := mkConn false false (conn_written conn ++ [message])]> m)
            snapshot m !! client
  = match (list_to_map snapshot : gmap nat Conn) !! client with
    | Some conn => Some (mkConn false false (conn_written conn ++ [message]))
    | None => m !! client
    end.
Proof.
  revert m. induction snapshot as [| [c conn] snapshot IH]; intros m Hnodup; [done |].
  apply NoDup_cons in Hnodup as [Hfresh Hnodup].
  cbn [fold_left list_to_map foldr]. rewrite IH by exact Hnodup.
  destruct (decide (client = c)) as [-> | Hne].
  - rewrite (not_elem_of_list_to_map_1 _ _ Hfresh). cbn [fst snd]. by simplify_map_eq.
  - cbn [fst snd]. by simplify_map_eq.
Qed.

(** X11: the broadcast branch of the hub's loop, in whatever order it goes
    through the clients.  When every registered connection takes the write,
    the loop ends with the message written once on each of them.  When some
    registered connection fails the write, the loop sends the client on the
    unbuffered [unregister] channel, which only this loop receives from: it
    parks there, and the hub ends its work. *)
Theorem Run_broadcast_blocks_on_failed_write h (snapshot : list (nat * Conn)) message
  (Hsnapshot : snapshot ≡ₚ map_to_list (clients h))
  (Hopen : closed (unregister h) = false) (Hunbuffered : cap (unregister h) = 0%nat) :
  ((forall client conn, clients h !! client = Some conn ->
                        conn_failing conn = false /\ conn_closed conn = false) ->
   exists h',
     writeAll h snapshot message [] = Done (h', [])
     /\ clients h'
        = (fun conn => mkConn false false (conn_written conn ++ [message])) <$> clients h
     /\ broadcast h' = broadcast h /\ unregister h' = unregister h)
  /\ ((exists client conn, clients h !! client = Some conn
                           /\ (conn_failing conn = true \/ conn_closed conn = true)) ->
      writeAll h snapshot message [] = Blocked).
Proof.
  assert (Hin : forall client conn,
            (client, conn) ∈ snapshot <-> clients h !! client = Some conn).
  { intros client conn. rewrite Hsnapshot. apply elem_of_map_to_list. }
  split.
  - intros Hhealthy. eexists. split.
    { apply writeAll_healthy. intros client conn Hc. apply (Hhealthy client). by apply Hin. }
    split; [| done]. cbn [clients].
    apply map_eq. intros client.
    assert (Hnodup : NoDup snapshot.*1).
    { rewrite Hsnapshot. apply NoDup_fst_map_to_list. }
    assert (Hmap : (list_to_map snapshot : gmap nat Conn) = clients h).
    { rewrite (list_to_map_proper _ _ Hnodup Hsnapshot). apply list_to_map_to_list. }
    rewrite written_lookup by exact Hnodup.
    rewrite Hmap, lookup_fmap. by destruct (clients h !! client).
  - intros (client & conn & Hc & Hbad).
    apply writeAll_blocks; [exact Hopen | exact Hunbuffered |].
    exists client, conn. split; [by apply Hin | exact Hbad].
Qed.

(** X12: the unregister branch of the hub's loop removes the client and
    closes its connection when the client is registered, and closes nothing
    otherwise; so a client that is unregistered a second time, as happens
    when both its reader and a failed write ask for it, is closed once. *)
Theorem Run_unregister_closes_once h client :
  clients (fst (Run_unregister h client)) !! client = None
  /\ (forall other, other <> client ->
        clients (fst (Run_unregister h client)) !! other = clients h !! other)
  /\ (ConnClosed client ∈ snd (Run_unregister h client) <-> is_Some (clients h !! client))
  /\ Run_unregister (fst (Run_unregister h client)) client
     = (fst (Run_unregister h client),
        [HubLogged (mkLogLine "info" "WebSocket client unregistered")])
  /\ (forall conn, clients h !! client = None ->
        fst (Run_unregister (fst (Run_register h client conn)) client) = h).
Proof.
  assert (Hcases :
            (exists conn,
                clients h !! client = Some conn
                /\ Run_unregister h client
                   = (mkHub (delete client (clients h)) (broadcast h) (register h)
                            (unregister h),
                      [ConnClosed client;
                       HubLogged (mkLogLine "info" "WebSocket client unregistered")]))
            \/ (clients h !! client = None
                /\ Run_unregister h client
                   = (h, [HubLogged (mkLogLine "info" "WebSocket client unregistered")]))).
  { unfold Run_unregister. destruct (clients h !! client); eauto. }
  destruct Hcases as [(conn & Hc & ->) | [Hc ->]]; cbn [fst snd clients].
  - split; [apply lookup_delete_eq |].
    split; [intros other Hne; by apply lookup_delete_ne |].
    split; [split; [eauto | intros _; apply list_elem_of_here] |].
    split; [| intros ? ?; congruence].
    unfold Run_unregister. cbn [clients]. by rewrite lookup_delete_eq.
  - split; [exact Hc |]. split; [done |].
    split.
    { split; [| by intros [? ?]; congruence].
      intros Hin. apply list_elem_of_singleton in Hin. discriminate. }
    split; [unfold Run_unregister; by rewrite Hc |].
    intros conn _. unfold Run_unregister, Run_register. cbn [fst clients].
    rewrite lookup_insert_eq. cbn [fst]. destruct h as [cl b rg un]. cbn in *.
    f_equal. by apply delete_insert_id.
Qed.

Section HubOnAlert.

Variable Marshal : Alert -> string + string.

(** X13: [Hub.OnAlert] neither panics nor parks the event bus's goroutine
    while the broadcast channel is open.  An alert that cannot be marshalled
    is returned as that error and nothing is queued.  Otherwise the result
    is nil, also when the channel already holds as many messages as it has
    room for (500 in a hub made by [NewHub]) and the message is dropped with
    a warning. *)
Theorem Hub_OnAlert_never_blocks h (event : AlertEvent) (w : World)
  (Hopen : closed (broadcast h) = false) :
  exists err h' effects,
    Hub_OnAlert Marshal h event w = Done (err, h', effects)
    /\ clients h' = clients h
    /\ closed (broadcast h') = false
    /\ cap (broadcast h') = cap (broadcast h)
    /\ match Marshal (Event_Alert event) with
       | inr e => err = Some e /\ h' = h
       | inl payload =>
           err = None
           /\ ((len (broadcast h) < cap (broadcast h))%nat ->
               buf (broadcast h')
               = buf (broadcast h) ++ [mkMessage "alert" payload (Now w)]
               /\ effects = [])
           /\ ((cap (broadcast h) <= len (broadcast h))%nat ->
               h' = h
               /\ effects = [HubLogged (mkLogLine "warn" "Broadcast channel full")])
       end.
Proof.
  unfold Hub_OnAlert. destruct (Marshal (Event_Alert event)) as [payload | e].
  - unfold Broadcast, try_send, len. rewrite Hopen. cbn [bind].
    destruct (Nat.ltb_spec (length (buf (broadcast h))) (cap (broadcast h)))
      as [Hroom | Hfull]; cbn [bind].
    + do 3 eexists. split; [reflexivity |]. cbn [clients broadcast buf cap closed].
      repeat split; try done. all: lia.
    + do 3 eexists. split; [reflexivity |].
      repeat split; try done. all: lia.
  - do 3 eexists. split; [reflexivity |]. done.
Qed.

End HubOnAlert.

End HubProperties.

Lemma Run_broadcast_blocks_on_failed_write_witness :
  (exists h',
      websocket.Run_broadcast one_client_hub (websocket.mkMessage "alert" "{}" 5)
      = Done (h', [])
      /\ websocket.clients h' !! 1%nat
         = Some (websocket.mkConn false false [websocket.mkMessage "alert" "{}" 5]))
  /\ websocket.Run_broadcast two_client_hub (websocket.mkMessage "alert" "{}" 5) = Blocked.
Proof.
  split.
  - destruct (Run_broadcast_blocks_on_failed_write
                one_client_hub (map_to_list (websocket.clients one_client_hub))
                (websocket.mkMessage "alert" "{}" 5) (reflexivity _) eq_refl eq_refl)
      as [Hhealthy _].
    destruct Hhealthy as (h' & Hrun & Hclients & _).
    + intros client conn Hc. unfold one_client_hub in Hc. simpl in Hc.
      apply lookup_insert_Some in Hc as [[_ <-] | [_ Hc]]; [done |].
      by rewrite lookup_empty in Hc.
    + exists h'. split; [exact Hrun |]. rewrite Hclients. reflexivity.
  - apply (Run_broadcast_blocks_on_failed_write
             two_client_hub (map_to_list (websocket.clients two_client_hub))
             (websocket.mkMessage "alert" "{}" 5) (reflexivity _) eq_refl eq_refl).
    exists 2%nat, broken_conn. split; [reflexivity | by left].
Defined.

Lemma Hub_OnAlert_never_blocks_witness :
  exists h',
    websocket.Hub_OnAlert (fun _ => inl "{}") websocket.NewHub
                          (mkAlertEvent (sample_alert 1 0) 2) (mkWorld 5 0)
    = Done (None, h', [])
    /\ buf (websocket.broadcast h') = [websocket.mkMessage "alert" "{}" 5].
Proof.
  destruct (Hub_OnAlert_never_blocks (fun _ => inl "{}") websocket.NewHub
              (mkAlertEvent (sample_alert 1 0) 2) (mkWorld 5 0) eq_refl)
    as (err & h' & effects & Hrun & _ & _ & _ & -> & Hroom & _).
  destruct Hroom as [Hbuf ->]; [vm_compute; lia |].
  exists h'. split; [exact Hrun | exact Hbuf].
Defined.

(** ** The node rules *)

Lemma conditionPlan_elem condition b :
  b ∈ conditionPlan condition <->
  (cond_Type condition = NodeReady /\ cond_Status condition <> ConditionTrue
   /\ b = (AlertTypeNodeNotReady, 1%float))
  \/ (cond_Type condition = NodeMemoryPressure /\ cond_Status condition = ConditionTrue
      /\ b = (AlertTypeNodeMemoryPressure, 1%float))
  \/ (cond_Type condition = NodeDiskPressure /\ cond_Status condition = ConditionTrue
      /\ b = (AlertTypeNodeDiskPressure, 1%float))
  \/ (cond_Type condition = NodePIDPressure /\ cond_Status condition = ConditionTrue
      /\ b = (AlertTypeNodePIDPressure, 1%float)).
Proof.
  unfold conditionPlan.
  destruct (String.eqb_spec (cond_Type condition) NodeReady) as [Hready | Hready].
  { rewrite elem_of_one, negb_true_iff, String.eqb_neq, Hready.
    split; [intros [? ->]; auto 10 |].
    intros [(_ & ? & ->) | [(Hf & _) | [(Hf & _) | (Hf & _)]]]; [done | ..];
      discriminate Hf. }
  destruct (String.eqb_spec (cond_Type condition) NodeMemoryPressure) as [Hmem | Hmem].
  { rewrite elem_of_one, String.eqb_eq, Hmem.
    split; [intros [? ->]; auto 10 |].
    intros [(Hf & _) | [(_ & ? & ->) | [(Hf & _) | (Hf & _)]]]; [| done | ..];
      discriminate Hf. }
  destruct (String.eqb_spec (cond_Type condition) NodeDiskPressure) as [Hdisk | Hdisk].
  { rewrite elem_of_one, String.eqb_eq, Hdisk.
    split; [intros [? ->]; auto 10 |].
    intros [(Hf & _) | [(Hf & _) | [(_ & ? & ->) | (Hf & _)]]]; [| | done |];
      discriminate Hf. }
  destruct (String.eqb_spec (cond_Type condition) NodePIDPressure) as [Hpid | Hpid].
  { rewrite elem_of_one, String.eqb_eq, Hpid.
    split; [intros [? ->]; auto 10 |].
    intros [(Hf & _) | [(Hf & _) | [(Hf & _) | (_ & ? & ->)]]]; [| | | done];
      discriminate Hf. }
  rewrite elem_of_nil. intuition.
Qed.

Lemma conditionPlan_length condition : (length (conditionPlan condition) <= 1)%nat.
Proof.
  unfold conditionPlan, one.
  repeat match goal with
         | |- context [if ?c then _ else _] => destruct c
         end; simpl; lia.
Qed.

Lemma flat_map_length_le {A B : Type} (f : A -> list B) (k : nat) (l : list A) :
  (forall a, length (f a) <= k)%nat -> (length (flat_map f l) <= k * length l)%nat.
Proof.
  intros Hf. induction l as [| a l IH]; simpl; [lia |].
  rewrite length_app. specialize (Hf a). lia.
Qed.

Lemma buildAll_length {B : Type} (build : B -> World -> Alert * World)
      (plan : list B) (w : World) :
  length (fst (buildAll build plan w)) = length plan.
Proof.
  pose proof (buildAll_map build (fun _ => tt) (fun _ => tt) plan w
                           ltac:(reflexivity)) as Hmap.
  apply (f_equal length) in Hmap. by rewrite !length_map in Hmap.
Qed.

Lemma buildNode_fields node b (w : World) :
  Value (fst (buildNode node b w)) = snd b
  /\ Source (fst (buildNode node b w)) = "k8s_node"
  /\ Labels (fst (buildNode node b w)) !! "node" = Some (node_Name node)
  /\ IsFiring (fst (buildNode node b w)) = true.
Proof.
  unfold buildNode, BuildNodeAlert. destruct b as [t v]. cbn [fst snd].
  split_builder; unfold NewAlert; cbn; repeat split; by simplify_map_eq.
Qed.

(** X14: what the node rules raise.  A not-ready alert is raised exactly
    when some condition of type Ready has a status other than True (so also
    for Unknown), and a pressure alert exactly when the condition of that
    type has status True.  Each condition raises at most one alert, so a
    node without conditions, or whose conditions are of other types, raises
    none.  Every node alert has value 1, source [k8s_node], and the node's
    name in its [node] label. *)
Theorem node_condition_alerts (node : Node) (w : World) :
  (emits AlertTypeNodeNotReady (fst (evaluateNodeConditions node w))
   <-> exists c, c ∈ Conditions node /\ cond_Type c = NodeReady
                 /\ cond_Status c <> ConditionTrue)
  /\ (emits AlertTypeNodeMemoryPressure (fst (evaluateNodeConditions node w))
      <-> exists c, c ∈ Conditions node /\ cond_Type c = NodeMemoryPressure
                    /\ cond_Status c = ConditionTrue)
  /\ (emits AlertTypeNodeDiskPressure (fst (evaluateNodeConditions node w))
      <-> exists c, c ∈ Conditions node /\ cond_Type c = NodeDiskPressure
                    /\ cond_Status c = ConditionTrue)
  /\ (emits AlertTypeNodePIDPressure (fst (evaluateNodeConditions node w))
      <-> exists c, c ∈ Conditions node /\ cond_Type c = NodePIDPressure
                    /\ cond_Status c = ConditionTrue)
  /\ (length (fst (evaluateNodeConditions node w)) <= length (Conditions node))%nat
  /\ (forall a, a ∈ fst (evaluateNodeConditions node w) ->
        Value a = 1%float /\ Source a = "k8s_node"
        /\ Labels a !! "node" = Some (node_Name node)
        /\ IsFiring a = true
        /\ exists t, t ∈ node_alert_types /\ alert_type a = Some t).
Proof.
  rewrite evaluateNodeConditions_plan.
  rewrite !(emits_buildAll (buildNode node) fst (buildNode_type node)).
  unfold nodePlan.
  assert (Hplan : forall b,
            b ∈ flat_map conditionPlan (Conditions node) <->
            exists c, c ∈ Conditions node /\ b ∈ conditionPlan c).
  { intros b. apply elem_of_flat_map. }
  repeat split.
  - intros (b & (c & Hc & Hb)%Hplan & Ht).
    apply conditionPlan_elem in Hb
      as [(? & ? & ->) | [(_ & _ & ->) | [(_ & _ & ->) | (_ & _ & ->)]]];
      [eauto | discriminate Ht ..].
  - intros (c & Hc & Hty & Hst). exists (AlertTypeNodeNotReady, 1%float).
    split; [| done]. apply Hplan. exists c. split; [done |].
    apply conditionPlan_elem. auto 10.
  - intros (b & (c & Hc & Hb)%Hplan & Ht).
    apply conditionPlan_elem in Hb
      as [(_ & _ & ->) | [(? & ? & ->) | [(_ & _ & ->) | (_ & _ & ->)]]];
      [discriminate Ht | eauto | discriminate Ht ..].
  - intros (c & Hc & Hty & Hst). exists (AlertTypeNodeMemoryPressure, 1%float).
    split; [| done]. apply Hplan. exists c. split; [done |].
    apply conditionPlan_elem. auto 10.
  - intros (b & (c & Hc & Hb)%Hplan & Ht).
    apply conditionPlan_elem in Hb
      as [(_ & _ & ->) | [(_ & _ & ->) | [(? & ? & ->) | (_ & _ & ->)]]];
      [discriminate Ht | discriminate Ht | eauto | discriminate Ht].
  - intros (c & Hc & Hty & Hst). exists (AlertTypeNodeDiskPressure, 1%float).
    split; [| done]. apply Hplan. exists c. split; [done |].
    apply conditionPlan_elem. auto 10.
  - intros (b & (c & Hc & Hb)%Hplan & Ht).
    apply conditionPlan_elem in Hb
      as [(_ & _ & ->) | [(_ & _ & ->) | [(_ & _ & ->) | (? & ? & ->)]]];
      [discriminate Ht | discriminate Ht | discriminate Ht | eauto].
  - intros (c & Hc & Hty & Hst). exists (AlertTypeNodePIDPressure, 1%float).
    split; [| done]. apply Hplan. exists c. split; [done |].
    apply conditionPlan_elem. auto 10.
  - rewrite buildAll_length.
    pose proof (flat_map_length_le conditionPlan 1 (Conditions node)
                                   conditionPlan_length). lia.
  - apply buildAll_elem in H as (b & w0 & (c & Hc & Hb)%Hplan & ->).
    rewrite (proj1 (buildNode_fields node b w0)).
    apply conditionPlan_elem in Hb
      as [(_ & _ & ->) | [(_ & _ & ->) | [(_ & _ & ->) | (_ & _ & ->)]]]; done.
  - apply buildAll_elem in H as (b & w0 & _ & ->). apply buildNode_fields.
  - apply buildAll_elem in H as (b & w0 & _ & ->). apply buildNode_fields.
  - apply buildAll_elem in H as (b & w0 & _ & ->). apply buildNode_fields.
  - apply buildAll_elem in H as (b & w0 & (c & Hc & Hb)%Hplan & ->).
    exists (fst b). split; [by eapply conditionPlan_types | apply buildNode_type].
Qed.

(** ** The node metric rules *)

Lemma buildNodeMetric_fields metrics b (w : World) :
  Value (fst (buildNodeMetric metrics b w)) = snd (fst b)
  /\ Source (fst (buildNodeMetric metrics b w)) = "k8s_node_metrics"
  /\ Labels (fst (buildNodeMetric metrics b w)) !! "node" = Some (nm_NodeName metrics).
Proof.
  unfold buildNodeMetric, BuildNodeMetricAlert. destruct b as [[t v] th]. cbn [fst snd].
  split_builder; unfold NewAlert; cbn; repeat split; by simplify_map_eq.
Qed.

(** X15: what [checkNodeMetric] raises for a node's snapshot: a CPU alert
    exactly when the CPU percentage exceeds the threshold, a memory alert
    exactly when the memory percentage does; unlike the pod check it looks
    at the percentages only, not at the capacity behind them.  The alerts
    are critical, carry the percentage as value and name the node; there
    are at most two of them. *)
Theorem node_metric_alerts {R : Type} `{AlertRepo R} {O : Type}
  (thresholds : AlertRulesConfig) (metrics : NodeMetrics)
  (asm : AlertStateManager R O) (w : World) (trace : list Effect)
  (Hopen : bus_open asm) :
  exists asm' w' new,
    checkNodeMetric thresholds (asm, w, trace) metrics = Done (asm', w', trace ++ new)
    /\ bus_open asm'
    /\ (emits AlertTypeNodeCPUHigh (created new)
        <-> PrimFloat.ltb (NodeCPUPercent thresholds) (nm_CPUUsagePercent metrics) = true)
    /\ (emits AlertTypeNodeMemoryHigh (created new)
        <-> PrimFloat.ltb (NodeMemoryPercent thresholds) (nm_MemoryUsagePercent metrics)
            = true)
    /\ (forall a, a ∈ created new ->
          Severity a = SeverityCritical
          /\ Labels a !! "node" = Some (nm_NodeName metrics)
          /\ ((alert_type a = Some AlertTypeNodeCPUHigh
               /\ Value a = nm_CPUUsagePercent metrics)
              \/ (alert_type a = Some AlertTypeNodeMemoryHigh
                  /\ Value a = nm_MemoryUsagePercent metrics)))
    /\ (length (created new) <= 2)%nat.
Proof.
  destruct (checkNodeMetric_plan thresholds metrics asm w trace Hopen)
    as (asm' & w' & new & Hrun & Hcreated & Hopen').
  exists asm', w', new. split; [exact Hrun |]. split; [exact Hopen' |].
  rewrite Hcreated.
  split; [| split; [| split]].
  - rewrite (emits_buildAll (buildNodeMetric metrics) (fun b => fst (fst b))
               (buildNodeMetric_type metrics)).
    split.
    + intros (b & Hb & Ht). apply nodeMetricPlan_elem in Hb.
      destruct Hb as [(Hgt & _) | (_ & ->)]; [done | discriminate].
    + intros Hgt. eexists. split; [apply nodeMetricPlan_elem; left; eauto | done].
  - rewrite (emits_buildAll (buildNodeMetric metrics) (fun b => fst (fst b))
               (buildNodeMetric_type metrics)).
    split.
    + intros (b & Hb & Ht). apply nodeMetricPlan_elem in Hb.
      destruct Hb as [(_ & ->) | (Hgt & _)]; [discriminate | done].
    + intros Hgt. eexists. split; [apply nodeMetricPlan_elem; right; eauto | done].
  - intros a Ha. apply buildAll_elem in Ha as (b & w0 & Hb & ->).
    destruct (buildNodeMetric_fields metrics b w0) as (Hvalue & _ & Hnode).
    split.
    { apply nodeMetricPlan_elem in Hb as [(_ & ->) | (_ & ->)];
        unfold buildNodeMetric, BuildNodeMetricAlert; cbn [fst snd];
        decide_switch; reflexivity. }
    split; [exact Hnode |].
    rewrite buildNodeMetric_type, Hvalue.
    apply nodeMetricPlan_elem in Hb as [(_ & ->) | (_ & ->)]; auto.
  - rewrite buildAll_length. unfold nodeMetricPlan, one.
    repeat match goal with
           | |- context [if ?c then _ else _] => destruct c
           end; simpl; lia.
Qed.

Lemma node_metric_alerts_witness :
  exists asm' w' new,
    checkNodeMetric default_rules (memory_manager, mkWorld 1 0, []) busy_node_metrics
    = Done (asm', w', new)
    /\ emits AlertTypeNodeCPUHigh (created new)
    /\ ~ emits AlertTypeNodeMemoryHigh (created new).
Proof.
  destruct (node_metric_alerts default_rules busy_node_metrics memory_manager
                               (mkWorld 1 0) [] eq_refl)
    as (asm' & w' & new & Hrun & _ & Hcpu & Hmem & _).
  exists asm', w', new. split; [exact Hrun |].
  split; [apply Hcpu; reflexivity |].
  intros Hemit. apply Hmem in Hemit. vm_compute in Hemit. discriminate.
Defined.

(** ** The container rules *)

Lemma find_first {A : Type} (f : A -> bool) (l : list A) (i : nat) (x : A) :
  l !! i = Some x -> f x = true ->
  (forall j y, (j < i)%nat -> l !! j = Some y -> f y = false) ->
  List.find f l = Some x.
Proof.
  revert i. induction l as [| y l IH]; intros i Hi Hx Hbefore; [done |].
  destruct i as [| i]; simpl in *.
  - injection Hi as ->. by rewrite Hx.
  - rewrite (Hbefore 0%nat y ltac:(lia) eq_refl).
    apply (IH i Hi Hx). intros j z Hj Hz. apply (Hbefore (S j) z); [lia | done].
Qed.

Lemma containerPlan_elem_iff cs b :
  b ∈ containerPlan cs <->
  (isOOMKilled cs = true /\ b = (AlertTypePodOOMKilled, float64_of_int (RestartCount cs)))
  \/ (isCrashLoop cs = true
      /\ b = (AlertTypePodCrashLoop, float64_of_int (RestartCount cs)))
  \/ (isImagePullError cs = true /\ b = (AlertTypePodImagePullError, 1%float)).
Proof.
  unfold containerPlan. rewrite !elem_of_app, !elem_of_one. tauto.
Qed.

Lemma containerPlan_count (t : AlertType) (flag : ContainerStatus -> bool)
      (l : list ContainerStatus) :
  (forall cs, length (filter (fun b : AlertType * float => fst b = t) (containerPlan cs))
              = if flag cs then 1%nat else 0%nat) ->
  length (filter (fun b : AlertType * float => fst b = t) (flat_map containerPlan l))
  = length (filter (fun cs => flag cs = true) l).
Proof.
  intros Hone. induction l as [| cs l IH]; [done |].
  cbn [flat_map]. rewrite filter_app, length_app, IH, Hone, filter_cons.
  destruct (flag cs) eqn:Hf; case_decide; simpl; congruence.
Qed.

Lemma containerPlan_count_one cs :
  length (filter (fun b : AlertType * float => fst b = AlertTypePodOOMKilled)
                 (containerPlan cs))
  = (if isOOMKilled cs then 1%nat else 0%nat)
  /\ length (filter (fun b : AlertType * float => fst b = AlertTypePodCrashLoop)
                    (containerPlan cs))
     = (if isCrashLoop cs then 1%nat else 0%nat)
  /\ length (filter (fun b : AlertType * float => fst b = AlertTypePodImagePullError)
                    (containerPlan cs))
     = (if isImagePullError cs then 1%nat else 0%nat).
Proof.
  unfold containerPlan. rewrite !filter_app, !length_app, !filter_one_length. cbn [fst].
  destruct (isOOMKilled cs), (isCrashLoop cs), (isImagePullError cs); done.
Qed.

Lemma podPlan_container_count pw pod (pending : bool) (t : AlertType)
      (flag : ContainerStatus -> bool) :
  t ∈ [AlertTypePodOOMKilled; AlertTypePodCrashLoop; AlertTypePodImagePullError] ->
  (forall cs, length (filter (fun b : AlertType * float => fst b = t) (containerPlan cs))
              = if flag cs then 1%nat else 0%nat) ->
  length (filter (fun b : AlertType * float => fst b = t) (podPlan pw pod pending))
  = length (filter (fun cs => flag cs = true) (ContainerStatuses pod)).
Proof.
  intros Ht Hone. unfold podPlan.
  rewrite !filter_app, !length_app, !filter_one_length,
    (containerPlan_count t flag _ Hone).
  cbn [fst].
  repeat (apply elem_of_cons in Ht as [-> | Ht]); [.. | by apply elem_of_nil in Ht];
    simpl; rewrite !andb_false_r; simpl; lia.
Qed.

Lemma buildPod_container_labels pod (value : float) (w : World) :
  Labels (fst (buildPod pod (AlertTypePodOOMKilled, value) w)) !! "container"
  = Some (getOOMKilledContainer pod)
  /\ Labels (fst (buildPod pod (AlertTypePodCrashLoop, value) w)) !! "container"
     = Some (fst (getCrashLoopContainer pod))
  /\ Labels (fst (buildPod pod (AlertTypePodCrashLoop, value) w)) !! "reason"
     = Some (snd (getCrashLoopContainer pod))
  /\ Labels (fst (buildPod pod (AlertTypePodImagePullError, value) w)) !! "container"
     = Some (fst (getImagePullError pod)).
Proof.
  unfold buildPod, BuildPodAlert. cbn [fst snd].
  repeat split; decide_switch;
    try destruct (getCrashLoopContainer pod); try destruct (getImagePullError pod);
    unfold NewAlert; cbn; by simplify_map_eq.
Qed.

(** X16: the alerts about containers.  One OOM-killed alert is raised for
    every container whose last termination was an OOM kill, one crash-loop
    alert for every container waiting in CrashLoopBackOff and one
    image-pull alert for every container waiting in ImagePullBackOff or
    ErrImagePull.  The value of an OOM-killed or crash-loop alert is the
    restart count of the container it was raised for, but its [container]
    label (and the [reason] label of a crash-loop alert) is taken from the
    first container of the pod in that state: with two OOM-killed
    containers both alerts name the first one. *)
Theorem container_alerts_name_first_match (pw : PodWatcher) (pod : Pod) (w : World) :
  count_type AlertTypePodOOMKilled (fst (evaluatePodConditions pw pod w))
  = length (filter (fun cs => isOOMKilled cs = true) (ContainerStatuses pod))
  /\ count_type AlertTypePodCrashLoop (fst (evaluatePodConditions pw pod w))
     = length (filter (fun cs => isCrashLoop cs = true) (ContainerStatuses pod))
  /\ count_type AlertTypePodImagePullError (fst (evaluatePodConditions pw pod w))
     = length (filter (fun cs => isImagePullError cs = true) (ContainerStatuses pod))
  /\ (forall a, a ∈ fst (evaluatePodConditions pw pod w) ->
        (alert_type a = Some AlertTypePodOOMKilled ->
         Labels a !! "container" = Some (getOOMKilledContainer pod)
         /\ exists cs, cs ∈ ContainerStatuses pod /\ isOOMKilled cs = true
                       /\ Value a = float64_of_int (RestartCount cs))
        /\ (alert_type a = Some AlertTypePodCrashLoop ->
            Labels a !! "container" = Some (fst (getCrashLoopContainer pod))
            /\ Labels a !! "reason" = Some (snd (getCrashLoopContainer pod))
            /\ exists cs, cs ∈ ContainerStatuses pod /\ isCrashLoop cs = true
                          /\ Value a = float64_of_int (RestartCount cs))
        /\ (alert_type a = Some AlertTypePodImagePullError ->
            Labels a !! "container" = Some (fst (getImagePullError pod))
            /\ Value a = 1%float))
  /\ (forall i cs,
        ContainerStatuses pod !! i = Some cs ->
        (isOOMKilled cs = true ->
         (forall j cs', (j < i)%nat -> ContainerStatuses pod !! j = Some cs' ->
                        isOOMKilled cs' = false) ->
         getOOMKilledContainer pod = cs_Name cs)
        /\ (isCrashLoop cs = true ->
            (forall j cs', (j < i)%nat -> ContainerStatuses pod !! j = Some cs' ->
                           isCrashLoop cs' = false) ->
            getCrashLoopContainer pod = (cs_Name cs, waiting_message cs))
        /\ (isImagePullError cs = true ->
            (forall j cs', (j < i)%nat -> ContainerStatuses pod !! j = Some cs' ->
                           isImagePullError cs' = false) ->
            getImagePullError pod = (cs_Name cs, waiting_message cs))).
Proof.
  rewrite evaluatePodConditions_plan.
  rewrite !(count_type_buildAll (buildPod pod) fst (buildPod_type pod)).
  split.
  { apply podPlan_container_count;
      [repeat first [apply list_elem_of_here | apply list_elem_of_further] |].
    intros cs. apply containerPlan_count_one. }
  split.
  { apply podPlan_container_count;
      [repeat first [apply list_elem_of_here | apply list_elem_of_further] |].
    intros cs. apply containerPlan_count_one. }
  split.
  { apply podPlan_container_count;
      [repeat first [apply list_elem_of_here | apply list_elem_of_further] |].
    intros cs. apply containerPlan_count_one. }
  split.
  - intros a Ha. apply buildAll_elem in Ha as (b & w0 & Hb & ->).
    rewrite buildPod_type, buildPod_value.
    destruct (buildPod_container_labels pod (snd b) w0) as (Hoom & Hcrash & Hreason & Himg).
    apply podPlan_elem in Hb
      as [(_ & ->) | [(_ & ->) | [(cs & Hcs & Hb) | [(_ & ->) | (_ & _ & ->)]]]];
      cbn [fst snd];
      try (split; [| split]; intros Hf; vm_compute in Hf; discriminate Hf).
    apply containerPlan_elem_iff in Hb as [(Hflag & ->) | [(Hflag & ->) | (Hflag & ->)]];
      cbn [fst snd] in *.
    + split; [intros _; eauto 6 |]. split; intros Hf; vm_compute in Hf; discriminate Hf.
    + split; [intros Hf; vm_compute in Hf; discriminate Hf |].
      split; [intros _; eauto 6 | intros Hf; vm_compute in Hf; discriminate Hf].
    + split; [intros Hf; vm_compute in Hf; discriminate Hf |].
      split; [intros Hf; vm_compute in Hf; discriminate Hf | intros _; eauto].
  - intros i cs Hi. repeat split.
    + intros Hflag Hbefore. unfold getOOMKilledContainer.
      by rewrite (find_first isOOMKilled _ i cs Hi Hflag Hbefore).
    + intros Hflag Hbefore. unfold getCrashLoopContainer.
      by rewrite (find_first isCrashLoop _ i cs Hi Hflag Hbefore).
    + intros Hflag Hbefore. unfold getImagePullError.
      by rewrite (find_first isImagePullError _ i cs Hi Hflag Hbefore).
Qed.

(** With two OOM-killed containers, both alerts name the first one. *)
Example scenario_two_oom_killed :
  map (fun a => (alert_type a, Labels a !! "container", Value a))
      (fst (evaluatePodConditions (NewPodWatcher default_rules) twice_oom_pod (mkWorld 1 0)))
  = [(Some "pod_oom_killed", Some "app", 1%float);
     (Some "pod_oom_killed", Some "app", 2%float)].
Proof.
  vm_compute. reflexivity.
Qed.

Lemma containerPlan_length cs : (length (containerPlan cs) <= 2)%nat.
Proof.
  unfold containerPlan, one, isCrashLoop, isImagePullError.
  destruct (isOOMKilled cs), (State_Waiting cs) as [wt |]; simpl; try lia.
  all: destruct (String.eqb_spec (Waiting_Reason wt) "CrashLoopBackOff") as [-> | _];
    simpl; try lia.
  all: destruct (_ || _); simpl; lia.
Qed.

Lemma podPlan_phase_count pw pod (pending : bool) :
  length (filter (fun b : AlertType * float => fst b = AlertTypePodFailed)
                 (podPlan pw pod pending))
  = (if String.eqb (Status_Phase pod) PodFailed then 1%nat else 0%nat)
  /\ length (filter (fun b : AlertType * float => fst b = AlertTypePodUnknown)
                    (podPlan pw pod pending))
     = (if String.eqb (Status_Phase pod) PodUnknown then 1%nat else 0%nat)
  /\ length (filter (fun b : AlertType * float => fst b = AlertTypePodRestartThreshold)
                    (podPlan pw pod pending))
     = (if restartThreshold pw <? totalRestarts pod then 1%nat else 0%nat).
Proof.
  unfold podPlan. rewrite !filter_app, !length_app, !filter_one_length.
  rewrite !(filter_none_length _ (flat_map _ _)).
  - cbn [fst]. simpl. rewrite !andb_false_r, !andb_true_r. simpl.
    repeat split; lia.
  - intros b (cs & _ & Hb)%elem_of_flat_map.
    apply containerPlan_elem in Hb as [-> | [-> | ->]]; discriminate.
  - intros b (cs & _ & Hb)%elem_of_flat_map.
    apply containerPlan_elem in Hb as [-> | [-> | ->]]; discriminate.
  - intros b (cs & _ & Hb)%elem_of_flat_map.
    apply containerPlan_elem in Hb as [-> | [-> | ->]]; discriminate.
Qed.

(** X17: how many alerts one evaluation of a pod can raise.  The phase
    alerts exclude each other: at most one of failed, unknown and pending
    is raised, and at most one restart alert.  A container raises at most
    two alerts, since it cannot wait for two reasons at once.  So a pod
    with [n] container statuses raises at most [2 * n + 2] alerts, and a
    pod without container statuses in another phase raises none unless the
    restart threshold is negative. *)
Theorem pod_alert_count_bounds (pw : PodWatcher) (pod : Pod) (w : World) :
  (count_type AlertTypePodFailed (fst (evaluatePodConditions pw pod w))
   + count_type AlertTypePodUnknown (fst (evaluatePodConditions pw pod w))
   + count_type AlertTypePodPending (fst (evaluatePodConditions pw pod w)) <= 1)%nat
  /\ (count_type AlertTypePodRestartThreshold (fst (evaluatePodConditions pw pod w))
      <= 1)%nat
  /\ (length (fst (evaluatePodConditions pw pod w))
      <= 2 * length (ContainerStatuses pod) + 2)%nat
  /\ (ContainerStatuses pod = [] ->
      Status_Phase pod <> PodFailed -> Status_Phase pod <> PodUnknown ->
      Status_Phase pod <> PodPending ->
      (fst (evaluatePodConditions pw pod w) = [] <-> 0 <= restartThreshold pw)).
Proof.
  rewrite evaluatePodConditions_plan.
  rewrite !(count_type_buildAll (buildPod pod) fst (buildPod_type pod)).
  destruct (podPlan_phase_count pw pod (pendingTooLong pw pod w)) as (-> & -> & ->).
  rewrite pending_count.
  split; [| split; [| split]].
  - destruct (String.eqb_spec (Status_Phase pod) PodFailed) as [Hf | _];
      destruct (String.eqb_spec (Status_Phase pod) PodUnknown) as [Hu | _];
      destruct (String.eqb_spec (Status_Phase pod) PodPending) as [Hp | _];
      try (rewrite Hf in Hu; discriminate Hu);
      try (rewrite Hf in Hp; discriminate Hp);
      try (rewrite Hu in Hp; discriminate Hp);
      simpl; destruct (pendingTooLong pw pod w); simpl; lia.
  - destruct (_ <? _); lia.
  - rewrite buildAll_length. unfold podPlan. rewrite !length_app.
    pose proof (flat_map_length_le containerPlan 2 (ContainerStatuses pod)
                                   containerPlan_length) as Hcontainers.
    unfold one.
    destruct (String.eqb_spec (Status_Phase pod) PodFailed) as [Hf | _];
      destruct (String.eqb_spec (Status_Phase pod) PodUnknown) as [Hu | _];
      destruct (String.eqb_spec (Status_Phase pod) PodPending) as [Hp | _];
      try (rewrite Hf in Hu; discriminate Hu);
      try (rewrite Hf in Hp; discriminate Hp);
      try (rewrite Hu in Hp; discriminate Hp);
      destruct (_ <? _); destruct (pendingTooLong pw pod w); simpl; lia.
  - intros Hnone Hf Hu Hp.
    assert (Hplan : podPlan pw pod (pendingTooLong pw pod w)
                    = one (restartThreshold pw <? 0)
                          (AlertTypePodRestartThreshold, float64_of_int 0)).
    { unfold podPlan, totalRestarts. rewrite Hnone.
      apply String.eqb_neq in Hf, Hu, Hp. rewrite Hf, Hu, Hp.
      cbn [one app flat_map fold_left andb]. by rewrite app_nil_r. }
    rewrite Hplan. destruct (Z.ltb_spec (restartThreshold pw) 0) as [Hneg | Hpos].
    + cbn [one buildAll].
      destruct (buildPod pod (AlertTypePodRestartThreshold, float64_of_int 0) w).
      simpl. split; [discriminate | lia].
    + simpl. split; [lia | reflexivity].
Qed.

(** ** Processing watch events *)

Section ProcessEvent.

Context {R : Type} `{AlertRepo R} {O : Type}.
Implicit Types (asm : AlertStateManager R O) (w : World) (trace : list Effect).

Lemma processOne_returns (failed succeeded : string) asm w trace (alert : Alert) :
  bus_open asm ->
  exists asm' new,
    processOne failed succeeded (asm, w, trace) alert = Done (asm', w, trace ++ new)
    /\ created new = [alert]
    /\ bus_open asm'
    /\ match Create (alertRepo asm) alert with
       | (Some _, repo') =>
           alertRepo asm' = repo' /\ eventBus asm' = eventBus asm /\ published new = []
       | (None, repo') =>
           alertRepo asm' = repo' /\ published new = [mkAlertEvent alert (Now w)]
       end.
Proof.
  intros Hopen. unfold processOne.
  pose proof (ProcessAlert_cases asm alert w Hopen) as Hcases.
  destruct (Create (alertRepo asm) alert) as [[e |] repo'].
  - rewrite Hcases. cbn [bind]. do 2 eexists. split; [reflexivity |]. done.
  - destruct Hcases as (bus' & logs & Hpub & ->). cbn [bind].
    destruct (Publish_stays_open _ _ _ _ Hopen Hpub) as (Hopen' & Hnone & Hnoc).
    do 2 eexists. split; [reflexivity |].
    cbn [created published app LogInfo LogWarn].
    rewrite ?created_app, ?published_app, Hnone, Hnoc. done.
Qed.

Lemma range_processOne (failed succeeded : string) (l : list Alert) asm w trace :
  bus_open asm ->
  exists asm' new,
    range (processOne failed succeeded) l (asm, w, trace) = Done (asm', w, trace ++ new)
    /\ created new = l
    /\ bus_open asm'
    /\ sublist (map Event_Alert (published new)) l
    /\ Forall (fun e => Event_Timestamp e = Now w) (published new).
Proof.
  revert asm trace. induction l as [| alert l IH]; intros asm trace Hopen.
  - exists asm, []. rewrite app_nil_r. repeat split; [done | constructor | constructor].
  - cbn [range].
    destruct (processOne_returns failed succeeded asm w trace alert Hopen)
      as (asm1 & new1 & -> & Hc1 & Hopen1 & Hcase).
    cbn [bind].
    destruct (IH asm1 (trace ++ new1) Hopen1) as (asm' & new & -> & Hc & Hopen' & Hsub & Hts).
    exists asm', (new1 ++ new). rewrite app_assoc. split; [reflexivity |].
    rewrite created_app, published_app, Hc1, Hc, map_app.
    split; [reflexivity |]. split; [exact Hopen' |].
    destruct (Create (alertRepo asm) alert) as [[e |] repo'].
    + destruct Hcase as (_ & _ & ->). split; [by apply sublist_cons | exact Hts].
    + destruct Hcase as (_ & ->). split; [by apply sublist_skip |].
      by apply Forall_cons.
Qed.

(** X18: [processEvent] of the pod watcher and of the node watcher return
    nil for every event, whatever the repository answers: every alert that
    the evaluation of the event's object raises is handed to
    [AlertRepo.Create] exactly once, in the order of the evaluation, and
    the events published are for alerts among these, in the same order. *)
Theorem processEvent_hands_over_every_alert (pw : PodWatcher)
  (podEvent : PodEvent) (nodeEvent : NodeEvent) asm w trace
  (Hopen : bus_open asm) :
  (exists asm' w' new,
      PodWatcher_processEvent pw podEvent (asm, w, trace)
      = Done (None, (asm', w', trace ++ new))
      /\ created new = fst (evaluatePodConditions pw (PodEvent_Pod podEvent) w)
      /\ sublist (map Event_Alert (published new)) (created new)
      /\ bus_open asm')
  /\ (exists asm' w' new,
         NodeWatcher_processEvent nodeEvent (asm, w, trace)
         = Done (None, (asm', w', trace ++ new))
         /\ created new = fst (evaluateNodeConditions (NodeEvent_Node nodeEvent) w)
         /\ sublist (map Event_Alert (published new)) (created new)
         /\ bus_open asm').
Proof.
  split.
  - unfold PodWatcher_processEvent.
    destruct (evaluatePodConditions pw (PodEvent_Pod podEvent) w) as [l w'].
    destruct (range_processOne "Failed to process alert" "New pod alert created" l asm w'
                (trace ++ [LogDebug "Processing pod event"]) Hopen)
      as (asm' & new & -> & Hc & Hopen' & Hsub & _).
    cbn [bind]. exists asm', w', (LogDebug "Processing pod event" :: new).
    split; [by rewrite <- app_assoc |].
    cbn [created published LogDebug fst]. rewrite Hc. done.
  - unfold NodeWatcher_processEvent.
    destruct (evaluateNodeConditions (NodeEvent_Node nodeEvent) w) as [l w'].
    destruct (range_processOne "Failed to process alert" "New node alert created" l asm w'
                (trace ++ [LogDebug "Processing node event"]) Hopen)
      as (asm' & new & -> & Hc & Hopen' & Hsub & _).
    cbn [bind]. exists asm', w', (LogDebug "Processing node event" :: new).
    split; [by rewrite <- app_assoc |].
    cbn [created published LogDebug fst]. rewrite Hc. done.
Qed.

End ProcessEvent.

Section ProcessEventInMemory.

Context {O : Type}.
Implicit Types (asm : AlertStateManager InMemoryAlertRepo O) (w : World)
         (trace : list Effect).

Lemma range_processOne_InMemory (failed succeeded : string) (l : list Alert) asm w trace :
  bus_open asm ->
  exists asm' new,
    range (processOne failed succeeded) l (asm, w, trace) = Done (asm', w, trace ++ new)
    /\ alerts (alertRepo asm') = alerts (alertRepo asm) ++ l
    /\ published new = map (fun a => mkAlertEvent a (Now w)) l
    /\ bus_open asm'.
Proof.
  revert asm trace. induction l as [| alert l IH]; intros asm trace Hopen.
  - exists asm, []. rewrite !app_nil_r. done.
  - cbn [range].
    destruct (processOne_returns failed succeeded asm w trace alert Hopen)
      as (asm1 & new1 & -> & _ & Hopen1 & Hrepo & Hpub).
    cbn [bind].
    destruct (IH asm1 (trace ++ new1) Hopen1) as (asm' & new & -> & Hstored & Hp & Hopen').
    exists asm', (new1 ++ new). rewrite app_assoc. split; [reflexivity |].
    rewrite published_app, Hpub, Hp, Hstored, Hrepo. simpl.
    rewrite <- app_assoc. done.
Qed.

(** X19: over the in-memory repository every alert that an event raises is
    stored and published: after [processEvent] the repository holds the
    alerts it held before followed by the alerts of the evaluation, and
    [Publish] has been called once for each of them, in this order.  There
    is no deduplication: when the same node event is processed again, the
    same alerts, up to their ids, are stored a second time. *)
Theorem processEvent_stores_without_dedup (pw : PodWatcher)
  (podEvent : PodEvent) (nodeEvent : NodeEvent) asm w trace
  (Hopen : bus_open asm) :
  (exists asm' w' new,
      PodWatcher_processEvent pw podEvent (asm, w, trace)
      = Done (None, (asm', w', trace ++ new))
      /\ alerts (alertRepo asm')
         = alerts (alertRepo asm) ++ fst (evaluatePodConditions pw (PodEvent_Pod podEvent) w)
      /\ map Event_Alert (published new)
         = fst (evaluatePodConditions pw (PodEvent_Pod podEvent) w))
  /\ (exists asm1 w1 new1 asm2 w2 new2,
         NodeWatcher_processEvent nodeEvent (asm, w, trace)
         = Done (None, (asm1, w1, trace ++ new1))
         /\ NodeWatcher_processEvent nodeEvent (asm1, w1, trace ++ new1)
            = Done (None, (asm2, w2, (trace ++ new1) ++ new2))
         /\ alerts (alertRepo asm1)
            = alerts (alertRepo asm)
              ++ fst (evaluateNodeConditions (NodeEvent_Node nodeEvent) w)
         /\ map Event_Alert (published new1)
            = fst (evaluateNodeConditions (NodeEvent_Node nodeEvent) w)
         /\ map content (alerts (alertRepo asm2))
            = map content (alerts (alertRepo asm))
              ++ map content (fst (evaluateNodeConditions (NodeEvent_Node nodeEvent) w))
              ++ map content (fst (evaluateNodeConditions (NodeEvent_Node nodeEvent) w))).
Proof.
  assert (Hevents : forall (l : list Alert) (t : Time),
            map Event_Alert (map (fun a => mkAlertEvent a t) l) = l).
  { intros l t. rewrite map_map. apply map_id. }
  split.
  - unfold PodWatcher_processEvent.
    destruct (evaluatePodConditions pw (PodEvent_Pod podEvent) w) as [l w'].
    destruct (range_processOne_InMemory "Failed to process alert" "New pod alert created"
                l asm w' (trace ++ [LogDebug "Processing pod event"]) Hopen)
      as (asm' & new & -> & Hstored & Hp & _).
    cbn [bind]. exists asm', w', (LogDebug "Processing pod event" :: new).
    split; [by rewrite <- app_assoc |].
    cbn [published LogDebug fst]. rewrite Hp, Hevents. done.
  - unfold NodeWatcher_processEvent.
    pose proof (evaluateNodeConditions_plan (NodeEvent_Node nodeEvent) w) as Hplan1.
    destruct (evaluateNodeConditions (NodeEvent_Node nodeEvent) w) as [l1 w1].
    destruct (range_processOne_InMemory "Failed to process alert" "New node alert created"
                l1 asm w1 (trace ++ [LogDebug "Processing node event"]) Hopen)
      as (asm1 & new1 & -> & Hstored1 & Hp1 & Hopen1).
    cbn [bind].
    pose proof (evaluateNodeConditions_plan (NodeEvent_Node nodeEvent) w1) as Hplan2.
    destruct (evaluateNodeConditions (NodeEvent_Node nodeEvent) w1) as [l2 w2] eqn:Heval2.
    destruct (range_processOne_InMemory "Failed to process alert" "New node alert created"
                l2 asm1 w2
                (((trace ++ [LogDebug "Processing node event"]) ++ new1)
                 ++ [LogDebug "Processing node event"]) Hopen1)
      as (asm2 & new2 & Hrun2 & Hstored2 & _ & _).
    exists asm1, w1, (LogDebug "Processing node event" :: new1),
      asm2, w2, (LogDebug "Processing node event" :: new2).
    split; [by rewrite <- app_assoc |].
    split.
    { rewrite Heval2.
      replace (trace ++ LogDebug "Processing node event" :: new1)
        with ((trace ++ [LogDebug "Processing node event"]) ++ new1)
        by (by rewrite <- app_assoc).
      rewrite Hrun2. cbn [bind]. by rewrite <- !app_assoc. }
    split; [exact Hstored1 |].
    split; [cbn [published LogDebug fst]; by rewrite Hp1, Hevents |].
    rewrite Hstored2, Hstored1, !map_app, <- app_assoc. cbn [fst].
    do 2 f_equal.
    pose proof (buildAll_content (buildNode (NodeEvent_Node nodeEvent))
                  (nodePlan (NodeEvent_Node nodeEvent)) w1 w
                  (buildNode_content (NodeEvent_Node nodeEvent))) as Hsame.
    rewrite <- Hplan1, <- Hplan2 in Hsame. exact Hsame.
Qed.

End ProcessEventInMemory.

Section ProcessEventBrokenDatabase.

Context {O : Type}.
Implicit Types (asm : AlertStateManager PostgresAlertRepo O) (w : World)
         (trace : list Effect).

Lemma range_processOne_broken (failed succeeded : string) (l : list Alert) asm w trace :
  is_Some (db_error (alertRepo asm)) ->
  range (processOne failed succeeded) l (asm, w, trace)
  = Done (asm, w, trace ++ flat_map (fun a => [CallCreate a; LogError failed]) l).
Proof.
  intros [e Hdb]. revert trace. induction l as [| alert l IH]; intros trace.
  - simpl. by rewrite app_nil_r.
  - cbn [range]. unfold processOne at 1, ProcessAlert.
    cbn [Create PostgresAlertRepo_AlertRepo]. unfold PostgresAlertRepo_Create.
    rewrite Hdb. cbn [bind].
    replace (mkAlertStateManager (alertRepo asm) (eventBus asm)) with asm by (by destruct asm).
    rewrite IH. cbn [flat_map]. by rewrite <- !app_assoc.
Qed.

(** X20: while the database refuses every statement, [processEvent] still
    returns nil: each alert of the evaluation is offered to the repository
    and its error is logged, nothing else happens: nothing is published,
    and neither the rows nor the bus change.  The alerts of the event are
    lost. *)
Theorem processEvent_swallows_database_errors (pw : PodWatcher)
  (podEvent : PodEvent) (nodeEvent : NodeEvent) asm w trace
  (Hdb : is_Some (db_error (alertRepo asm))) :
  PodWatcher_processEvent pw podEvent (asm, w, trace)
  = Done (None,
          (asm, snd (evaluatePodConditions pw (PodEvent_Pod podEvent) w),
           trace ++ LogDebug "Processing pod event"
                 :: flat_map (fun a => [CallCreate a; LogError "Failed to process alert"])
                             (fst (evaluatePodConditions pw (PodEvent_Pod podEvent) w))))
  /\ NodeWatcher_processEvent nodeEvent (asm, w, trace)
     = Done (None,
             (asm, snd (evaluateNodeConditions (NodeEvent_Node nodeEvent) w),
              trace ++ LogDebug "Processing node event"
                    :: flat_map (fun a => [CallCreate a; LogError "Failed to process alert"])
                                (fst (evaluateNodeConditions (NodeEvent_Node nodeEvent) w))))
  /\ forall l : list Alert,
       published (flat_map (fun a => [CallCreate a; LogError "Failed to process alert"]) l)
       = [].
Proof.
  split; [| split].
  - unfold PodWatcher_processEvent.
    destruct (evaluatePodConditions pw (PodEvent_Pod podEvent) w) as [l w'].
    rewrite range_processOne_broken by exact Hdb.
    cbn [bind fst snd]. by rewrite <- app_assoc.
  - unfold NodeWatcher_processEvent.
    destruct (evaluateNodeConditions (NodeEvent_Node nodeEvent) w) as [l w'].
    rewrite range_processOne_broken by exact Hdb.
    cbn [bind fst snd]. by rewrite <- app_assoc.
  - intros l. induction l as [| a l IH]; [done | exact IH].
Qed.

End ProcessEventBrokenDatabase.

Lemma processEvent_hands_over_every_alert_witness :
  exists asm' w' new,
    PodWatcher_processEvent (NewPodWatcher default_rules) (mkPodEvent "MODIFIED" oom_pod 1)
                            (memory_manager, mkWorld 1 0, [])
    = Done (None, (asm', w', new))
    /\ map alert_type (created new)
       = [Some AlertTypePodOOMKilled; Some AlertTypePodRestartThreshold].
Proof.
  destruct (processEvent_hands_over_every_alert
              (NewPodWatcher default_rules) (mkPodEvent "MODIFIED" oom_pod 1)
              (mkNodeEvent "MODIFIED" unready_node 1) memory_manager (mkWorld 1 0) []
              eq_refl)
    as [(asm' & w' & new & Hrun & Hc & _) _].
  exists asm', w', new. split; [exact Hrun |]. rewrite Hc. vm_compute. reflexivity.
Defined.

Lemma processEvent_stores_without_dedup_witness :
  exists asm1 w1 new1 asm2 w2 new2,
    NodeWatcher_processEvent (mkNodeEvent "MODIFIED" unready_node 1)
                             (memory_manager, mkWorld 1 0, [])
    = Done (None, (asm1, w1, new1))
    /\ NodeWatcher_processEvent (mkNodeEvent "MODIFIED" unready_node 1) (asm1, w1, new1)
       = Done (None, (asm2, w2, new1 ++ new2))
    /\ map alert_type (alerts (alertRepo asm1)) = [Some AlertTypeNodeNotReady]
    /\ length (alerts (alertRepo asm2)) = 2%nat.
Proof.
  destruct (processEvent_stores_without_dedup
              (NewPodWatcher default_rules) (mkPodEvent "MODIFIED" oom_pod 1)
              (mkNodeEvent "MODIFIED" unready_node 1) memory_manager (mkWorld 1 0) []
              eq_refl)
    as [_ (asm1 & w1 & new1 & asm2 & w2 & new2 & Hrun1 & Hrun2 & Hstored1 & _ & Hstored2)].
  exists asm1, w1, new1, asm2, w2, new2.
  split; [exact Hrun1 |]. split; [exact Hrun2 |].
  split; [rewrite Hstored1; vm_compute; reflexivity |].
  apply (f_equal length) in Hstored2. rewrite length_map in Hstored2.
  rewrite Hstored2. vm_compute. reflexivity.
Defined.

Lemma processEvent_swallows_database_errors_witness :
  exists w' new,
    PodWatcher_processEvent (NewPodWatcher default_rules) (mkPodEvent "MODIFIED" oom_pod 1)
                            (broken_db_manager, mkWorld 1 0, [])
    = Done (None, (broken_db_manager, w', new))
    /\ published new = [].
Proof.
  destruct (processEvent_swallows_database_errors
              (NewPodWatcher default_rules) (mkPodEvent "MODIFIED" oom_pod 1)
              (mkNodeEvent "MODIFIED" unready_node 1) broken_db_manager (mkWorld 1 0) []
              (ex_intro _ "connection refused" eq_refl))
    as (Hrun & _ & Hnone).
  eexists _, _. split; [exact Hrun |]. cbn [app published LogDebug]. apply Hnone.
Defined.

(** ** The metric checks as a whole *)

Lemma buildPodMetric_fields metrics b (w : World) :
  Source (fst (buildPodMetric metrics b w)) = "k8s_pod_metrics"
  /\ Labels (fst (buildPodMetric metrics b w)) !! "pod" = Some (pm_PodName metrics)
  /\ Labels (fst (buildPodMetric metrics b w)) !! "namespace" = Some (pm_Namespace metrics).
Proof.
  unfold buildPodMetric, BuildPodMetricAlert. destruct b as [[t v] th]. cbn [fst snd].
  split_builder; unfold NewAlert; cbn; repeat split; by simplify_map_eq.
Qed.

Lemma podMetricPlan_length thresholds metrics :
  (length (podMetricPlan thresholds metrics) <= 2)%nat.
Proof.
  unfold podMetricPlan, one.
  repeat match goal with
         | |- context [if ?c then _ else _] => destruct c
         end; simpl; lia.
Qed.

Lemma nodeMetricPlan_length thresholds metrics :
  (length (nodeMetricPlan thresholds metrics) <= 2)%nat.
Proof.
  unfold nodeMetricPlan, one.
  repeat match goal with
         | |- context [if ?c then _ else _] => destruct c
         end; simpl; lia.
Qed.

Section MetricLoops.

Context {R : Type} `{AlertRepo R} {O : Type}.
Implicit Types (asm : AlertStateManager R O) (w : World) (trace : list Effect).

Lemma range_checkPodMetric thresholds (l : list PodMetrics) asm w trace :
  bus_open asm ->
  exists asm' w' new,
    range (checkPodMetric thresholds) l (asm, w, trace) = Done (asm', w', trace ++ new)
    /\ bus_open asm'
    /\ (length (created new) <= 2 * length l)%nat
    /\ forall a, a ∈ created new ->
         follows_table a
         /\ exists metrics, metrics ∈ l
              /\ Labels a !! "pod" = Some (pm_PodName metrics)
              /\ Labels a !! "namespace" = Some (pm_Namespace metrics)
              /\ (0 < CPURequestMillis metrics \/ 0 < MemoryRequestBytes metrics).
Proof.
  revert asm w trace. induction l as [| metrics l IH]; intros asm w trace Hopen.
  - exists asm, w, []. rewrite app_nil_r. split; [reflexivity |]. split; [exact Hopen |].
    split; [simpl; lia |]. intros a Ha. by apply elem_of_nil in Ha.
  - cbn [range].
    destruct (checkPodMetric_plan thresholds metrics asm w trace Hopen)
      as (asm1 & w1 & new1 & -> & Hc1 & Hopen1 & _).
    cbn [bind].
    destruct (IH asm1 w1 (trace ++ new1) Hopen1)
      as (asm' & w' & new & -> & Hopen' & Hlen & Hall).
    exists asm', w', (new1 ++ new). rewrite app_assoc. split; [reflexivity |].
    split; [exact Hopen' |].
    rewrite created_app, length_app, Hc1, buildAll_length.
    pose proof (podMetricPlan_length thresholds metrics).
    split; [simpl; lia |].
    intros a [Ha | Ha]%elem_of_app.
    + apply buildAll_elem in Ha as (b & w0 & Hb & ->).
      destruct (buildPodMetric_fields metrics b w0) as (_ & Hpod & Hns).
      split.
      * apply buildPodMetric_follows_table.
        apply podMetricPlan_elem in Hb as [(_ & _ & ->) | (_ & _ & ->)];
          repeat first [apply list_elem_of_here | apply list_elem_of_further].
      * exists metrics. split; [apply list_elem_of_here |].
        split; [exact Hpod |]. split; [exact Hns |].
        apply podMetricPlan_elem in Hb as [(? & _) | (? & _)]; auto.
    + destruct (Hall a Ha) as (Htable & metrics' & Hin & Hrest).
      split; [exact Htable |]. exists metrics'. split; [by apply list_elem_of_further | done].
Qed.

Lemma range_checkNodeMetric thresholds (l : list NodeMetrics) asm w trace :
  bus_open asm ->
  exists asm' w' new,
    range (checkNodeMetric thresholds) l (asm, w, trace) = Done (asm', w', trace ++ new)
    /\ bus_open asm'
    /\ (length (created new) <= 2 * length l)%nat
    /\ forall a, a ∈ created new ->
         follows_table a
         /\ exists metrics, metrics ∈ l
              /\ Labels a !! "node" = Some (nm_NodeName metrics).
Proof.
  revert asm w trace. induction l as [| metrics l IH]; intros asm w trace Hopen.
  - exists asm, w, []. rewrite app_nil_r. split; [reflexivity |]. split; [exact Hopen |].
    split; [simpl; lia |]. intros a Ha. by apply elem_of_nil in Ha.
  - cbn [range].
    destruct (checkNodeMetric_plan thresholds metrics asm w trace Hopen)
      as (asm1 & w1 & new1 & -> & Hc1 & Hopen1).
    cbn [bind].
    destruct (IH asm1 w1 (trace ++ new1) Hopen1)
      as (asm' & w' & new & -> & Hopen' & Hlen & Hall).
    exists asm', w', (new1 ++ new). rewrite app_assoc. split; [reflexivity |].
    split; [exact Hopen' |].
    rewrite created_app, length_app, Hc1, buildAll_length.
    pose proof (nodeMetricPlan_length thresholds metrics).
    split; [simpl; lia |].
    intros a [Ha | Ha]%elem_of_app.
    + apply buildAll_elem in Ha as (b & w0 & Hb & ->).
      destruct (buildNodeMetric_fields metrics b w0) as (_ & _ & Hnode).
      split.
      * apply buildNodeMetric_follows_table.
        apply nodeMetricPlan_elem in Hb as [(_ & ->) | (_ & ->)];
          repeat first [apply list_elem_of_here | apply list_elem_of_further].
      * exists metrics. split; [apply list_elem_of_here | exact Hnode].
    + destruct (Hall a Ha) as (Htable & metrics' & Hin & Hrest).
      split; [exact Htable |]. exists metrics'. split; [by apply list_elem_of_further | done].
Qed.

(** X21: a whole run of [checkPodMetrics] and of [checkNodeMetrics].  When
    the snapshots cannot be got the run returns that error and hands
    nothing to the repository.  Otherwise it returns nil, whatever the
    repository answers; it raises at most two alerts a snapshot, each with
    the severity that the rule table gives its type and each naming a pod
    (with a CPU or memory request) or a node of the snapshots. *)
Theorem metric_checks_run_to_the_end thresholds
  (pods : list PodMetrics * error) (nodes : list NodeMetrics * error) asm w trace
  (Hopen : bus_open asm) :
  (forall err, snd pods = Some err ->
     checkPodMetrics thresholds pods (asm, w, trace)
     = Done (Some err, (asm, w, trace ++ [LogError "Failed to get pod metrics"])))
  /\ (snd pods = None ->
      exists asm' w' new,
        checkPodMetrics thresholds pods (asm, w, trace)
        = Done (None, (asm', w', trace ++ new))
        /\ bus_open asm'
        /\ (length (created new) <= 2 * length (fst pods))%nat
        /\ forall a, a ∈ created new ->
             follows_table a
             /\ exists metrics, metrics ∈ fst pods
                  /\ Labels a !! "pod" = Some (pm_PodName metrics)
                  /\ Labels a !! "namespace" = Some (pm_Namespace metrics)
                  /\ (0 < CPURequestMillis metrics \/ 0 < MemoryRequestBytes metrics))
  /\ (forall err, snd nodes = Some err ->
        checkNodeMetrics thresholds nodes (asm, w, trace)
        = Done (Some err, (asm, w, trace ++ [LogError "Failed to get node metrics"])))
  /\ (snd nodes = None ->
      exists asm' w' new,
        checkNodeMetrics thresholds nodes (asm, w, trace)
        = Done (None, (asm', w', trace ++ new))
        /\ bus_open asm'
        /\ (length (created new) <= 2 * length (fst nodes))%nat
        /\ forall a, a ∈ created new ->
             follows_table a
             /\ exists metrics, metrics ∈ fst nodes
                  /\ Labels a !! "node" = Some (nm_NodeName metrics)).
Proof.
  split; [| split; [| split]].
  - intros err Herr. unfold checkPodMetrics. by rewrite Herr.
  - intros Hok. unfold checkPodMetrics, logging. rewrite Hok.
    destruct (range_checkPodMetric thresholds (fst pods) asm w
                (trace ++ [LogInfo "Checking pod metrics"]) Hopen)
      as (asm' & w' & new & -> & Hopen' & Hlen & Hall).
    cbn [bind]. exists asm', w', (LogInfo "Checking pod metrics" :: new).
    split; [by rewrite <- app_assoc |]. done.
  - intros err Herr. unfold checkNodeMetrics. by rewrite Herr.
  - intros Hok. unfold checkNodeMetrics, logging. rewrite Hok.
    destruct (range_checkNodeMetric thresholds (fst nodes) asm w
                (trace ++ [LogInfo "Checking node metrics"]) Hopen)
      as (asm' & w' & new & -> & Hopen' & Hlen & Hall).
    cbn [bind]. exists asm', w', (LogInfo "Checking node metrics" :: new).
    split; [by rewrite <- app_assoc |]. done.
Qed.

End MetricLoops.

Lemma metric_checks_run_to_the_end_witness :
  checkPodMetrics default_rules ([], Some "metrics server unavailable")
                  (memory_manager, mkWorld 1 0, [])
  = Done (Some "metrics server unavailable",
          (memory_manager, mkWorld 1 0, [LogError "Failed to get pod metrics"]))
  /\ exists asm' w' new,
      checkNodeMetrics default_rules ([busy_node_metrics], None)
                       (memory_manager, mkWorld 1 0, [])
      = Done (None, (asm', w', new))
      /\ (length (created new) <= 2)%nat.
Proof.
  destruct (metric_checks_run_to_the_end default_rules
              ([], Some "metrics server unavailable") ([busy_node_metrics], None)
              memory_manager (mkWorld 1 0) [] eq_refl)
    as (Hfail & _ & _ & Hnodes).
  split; [exact (Hfail _ eq_refl) |].
  destruct (Hnodes eq_refl) as (asm' & w' & new & Hrun & _ & Hlen & _).
  exists asm', w', new. split; [exact Hrun | exact Hlen].
Defined.

(** ** The metrics client *)

Lemma sum_int64_zero {A : Type} (f : A -> Z) (l : list A) :
  (forall x, x ∈ l -> f x = 0) -> sum_int64 f l = 0.
Proof.
  unfold sum_int64. induction l as [| x l IH]; intros Hzero; [done |].
  cbn [fold_left]. rewrite (Hzero x (list_elem_of_here _ _)).
  change (int64 (0 + 0)) with 0. apply IH.
  intros y Hy. apply Hzero. by apply list_elem_of_further.
Qed.

(** X22: a pod whose containers request neither CPU nor memory never
    raises a metric alert, however much it uses: [GetPodMetrics] reports
    both percentages as zero instead of dividing by the zero request, and
    [checkPodMetric] skips the snapshot without calling the state manager. *)
Theorem pod_without_requests_never_alerts {R : Type} `{AlertRepo R} {O : Type}
  (thresholds : AlertRulesConfig) (namespace podName : string)
  (usage : list ContainerUsage) (specs : list ContainerRequests)
  (asm : AlertStateManager R O) (w : World) (trace : list Effect)
  (Hcpu : forall c, c ∈ specs -> request_cpu c = 0)
  (Hmemory : forall c, c ∈ specs -> request_memory c = 0) :
  exists metrics,
    GetPodMetrics namespace podName (inl usage) (inl specs) = (Some metrics, None)
    /\ pm_CPUUsagePercent metrics = 0%float
    /\ pm_MemoryUsagePercent metrics = 0%float
    /\ pm_CPUUsageMillicores metrics = sum_int64 usage_cpu usage
    /\ checkPodMetric thresholds (asm, w, trace) metrics = Done (asm, w, trace).
Proof.
  unfold GetPodMetrics.
  rewrite (sum_int64_zero request_cpu specs Hcpu),
    (sum_int64_zero request_memory specs Hmemory).
  eexists. split; [reflexivity |]. done.
Qed.

Lemma pod_without_requests_never_alerts_witness :
  exists metrics,
    GetPodMetrics "a" "b" (inl [mkContainerUsage 4000 1000]) (inl [mkContainerRequests 0 0])
    = (Some metrics, None)
    /\ checkPodMetric default_rules (memory_manager, mkWorld 1 0, []) metrics
       = Done (memory_manager, mkWorld 1 0, []).
Proof.
  destruct (pod_without_requests_never_alerts
              default_rules "a" "b" [mkContainerUsage 4000 1000] [mkContainerRequests 0 0]
              memory_manager (mkWorld 1 0) [])
    as (metrics & Hget & _ & _ & _ & Hcheck).
  - intros c Hc. apply list_elem_of_singleton in Hc as ->. reflexivity.
  - intros c Hc. apply list_elem_of_singleton in Hc as ->. reflexivity.
  - exists metrics. split; [exact Hget | exact Hcheck].
Defined.

Lemma GetAllPodsMetrics_fold (items : list PodMetricsItem)
      (acc : list PodMetrics * list Effect) :
  let step (acc : list PodMetrics * list Effect) (item : PodMetricsItem) :=
    match GetPodMetrics (item_Namespace item) (item_Name item)
                        (item_metrics item) (item_pod item) with
    | (Some metrics, None) => (fst acc ++ [metrics], snd acc)
    | _ => (fst acc, snd acc ++ [LogWarn "Failed to get pod metrics"])
    end in
  let ok (item : PodMetricsItem) :=
    match item_metrics item, item_pod item with
    | inl _, inl _ => true
    | _, _ => false
    end in
  map (fun m => (pm_Namespace m, pm_PodName m)) (fst (fold_left step items acc))
  = map (fun m => (pm_Namespace m, pm_PodName m)) (fst acc)
    ++ map (fun i => (item_Namespace i, item_Name i)) (List.filter ok items)
  /\ snd (fold_left step items acc)
     = snd acc ++ replicate (length (List.filter (fun i => negb (ok i)) items))
                            (LogWarn "Failed to get pod metrics").
Proof.
  intros step ok. revert acc. induction items as [| item items IH]; intros acc.
  - simpl. by rewrite !app_nil_r.
  - cbn [fold_left List.filter]. destruct (IH (step acc item)) as [-> ->].
    subst step ok. cbn beta. unfold GetPodMetrics.
    destruct (item_metrics item) as [usage | e], (item_pod item) as [specs | e'];
      cbn [fst snd negb map app length replicate].
    + rewrite map_app, <- app_assoc. done.
    + rewrite <- app_assoc. done.
    + rewrite <- app_assoc. done.
    + rewrite <- app_assoc. done.
Qed.

(** X23: [GetAllPodsMetrics] fails only when the list of pod metrics cannot
    be got.  Otherwise it returns nil with one snapshot, in the order of the
    list, for every listed pod whose metrics and whose details can both be
    got; each other pod is left out with one warning, so that snapshots and
    warnings together are as many as the listed pods. *)
Theorem GetAllPodsMetrics_skips_failures (items : list PodMetricsItem) (err : string) :
  GetAllPodsMetrics (inr err) = ([], Some ("failed to list pod metrics: " +++ err), [])
  /\ exists all logs,
      GetAllPodsMetrics (inl items) = (all, None, logs)
      /\ map (fun m => (pm_Namespace m, pm_PodName m)) all
         = map (fun i => (item_Namespace i, item_Name i))
               (List.filter (fun i => match item_metrics i, item_pod i with
                                      | inl _, inl _ => true
                                      | _, _ => false
                                      end) items)
      /\ logs = replicate (length items - length all) (LogWarn "Failed to get pod metrics")
      /\ (length all <= length items)%nat.
Proof.
  split; [reflexivity |].
  unfold GetAllPodsMetrics.
  pose proof (GetAllPodsMetrics_fold items ([], [])) as Hfold. cbn zeta in Hfold.
  destruct Hfold as [Hall Hlogs].
  destruct (fold_left _ items ([], [])) as [all logs]. cbn [fst snd app map] in *.
  exists all, logs. split; [reflexivity |]. split; [exact Hall |].
  apply (f_equal length) in Hall. rewrite !length_map in Hall.
  pose proof (List.filter_length
                (fun i => match item_metrics i, item_pod i with
                          | inl _, inl _ => true
                          | _, _ => false
                          end) items) as Hsplit.
  split.
  - rewrite Hlogs, Hall. f_equal. symmetry. apply Nat.add_sub_eq_l. exact Hsplit.
  - rewrite Hall, <- Hsplit. apply Nat.le_add_r.
Qed.

(** ** The email dispatcher, continued *)

Lemma append_assoc (a b c : string) : (a +++ b) +++ c = a +++ b +++ c.
Proof.
  induction a as [| ch a IH]; [reflexivity |].
  change (String ch ((a +++ b) +++ c) = String ch (a +++ b +++ c)). by f_equal.
Qed.

(** X24: with a complete configuration [OnAlert] calls [SendMail] at most
    twice, with the same mail.  When the first call succeeds nothing is
    slept.  When only the first call fails one second is slept and the
    result is nil.  When both calls fail a second is slept after each of
    them, also after the last, and the result wraps the error of the second
    call. *)
Theorem OnAlert_retries_once
  (format_RFC3339 : Time -> string) (json_text : gmap string string -> string)
  (ed : EmailDispatcher) (event : AlertEvent) (net : Net)
  (Hhost : SMTPHost (config ed) <> "") (Huser : Username (config ed) <> "") :
  exists mail,
    mail_addr mail = SMTPHost (config ed) +++ ":" +++ fmt_d (SMTPPort (config ed))
    /\ mail_from mail = From (config ed)
    /\ mail_to mail = To (config ed)
    /\ mail_msg mail
       = "Subject: Alert: " +++ Severity (Event_Alert event) +++ " - "
         +++ Source (Event_Alert event) +++ crlf +++ crlf
         +++ body format_RFC3339 json_text event
    /\ match failures net with
       | [] =>
           OnAlert format_RFC3339 json_text ed event net
           = (None, mkNet (attempts net ++ [mail]) [] (slept net),
              [LogInfo "Alert email sent"])
       | [e] =>
           OnAlert format_RFC3339 json_text ed event net
           = (None, mkNet (attempts net ++ [mail; mail]) [] (slept net + 1 * Second),
              [LogInfo "Alert email sent"])
       | e1 :: e2 :: rest =>
           OnAlert format_RFC3339 json_text ed event net
           = (Some ("email dispatch failed after retries: " +++ e2),
              mkNet (attempts net ++ [mail; mail]) rest
                    (slept net + 1 * Second + 1 * Second),
              [])
       end.
Proof.
  unfold OnAlert.
  apply String.eqb_neq in Hhost, Huser. rewrite Hhost, Huser. cbn [orb].
  exists (mkMail (SMTPHost (config ed) +++ ":" +++ fmt_d (SMTPPort (config ed)))
                 (Username (config ed)) (Password (config ed)) (SMTPHost (config ed))
                 (From (config ed)) (To (config ed))
                 ("Subject: " +++ subject event +++ crlf +++ crlf
                  +++ body format_RFC3339 json_text event)).
  split; [reflexivity |]. split; [reflexivity |]. split; [reflexivity |].
  split; [cbn [mail_msg]; unfold subject; by rewrite !append_assoc |].
  unfold sendLoop, SendMail, Sleep.
  destruct (failures net) as [| e1 [| e2 rest]]; cbn [failures attempts slept];
    rewrite <- ?app_assoc; reflexivity.
Qed.

Lemma OnAlert_retries_once_witness :
  (exists mail,
      OnAlert (fun _ => "1970-01-01T00:00:01Z") (fun _ => "{}") configured_dispatcher
              (mkAlertEvent (sample_alert 1 0) 2) flaky_net
      = (None, mkNet [mail; mail] [] (1 * Second), [LogInfo "Alert email sent"])
      /\ mail_addr mail = "smtp.example.org:587")
  /\ fst (fst (OnAlert (fun _ => "1970-01-01T00:00:01Z") (fun _ => "{}")
                       configured_dispatcher (mkAlertEvent (sample_alert 1 0) 2) dead_net))
     = Some "email dispatch failed after retries: connection refused".
Proof.
  split.
  - destruct (OnAlert_retries_once (fun _ => "1970-01-01T00:00:01Z") (fun _ => "{}")
                configured_dispatcher (mkAlertEvent (sample_alert 1 0) 2) flaky_net)
      as (mail & Haddr & _ & _ & _ & Hrun); [discriminate | discriminate |].
    exists mail. split; [exact Hrun |]. rewrite Haddr. reflexivity.
  - destruct (OnAlert_retries_once (fun _ => "1970-01-01T00:00:01Z") (fun _ => "{}")
                configured_dispatcher (mkAlertEvent (sample_alert 1 0) 2) dead_net)
      as (mail & _ & _ & _ & _ & Hrun); [discriminate | discriminate |].
    cbn [dead_net failures] in Hrun. rewrite Hrun. reflexivity.
Defined.

(** ** The metrics watcher's loop *)

(** X25: the metrics watcher's interval.  A configured interval of zero
    seconds becomes 60 seconds, and a positive one is taken as it is; a
    negative one is taken as it is too, and the ticker that [metricsLoop]
    makes from it panics before the first check is submitted. *)
Theorem negative_metrics_interval_panics (seconds : Z)
  (wp : WorkerPool MetricsTask) (ctx : Context)
  (Hrange : - 9223372036 <= seconds <= 9223372036) :
  (seconds = 0 -> NewMetricsWatcher_interval seconds = 60 * Second)
  /\ (seconds <> 0 -> NewMetricsWatcher_interval seconds = seconds * Second)
  /\ (0 <= seconds ->
      metricsLoop_start (NewMetricsWatcher_interval seconds) wp ctx
      = checkAllMetrics wp ctx)
  /\ (seconds < 0 ->
      metricsLoop_start (NewMetricsWatcher_interval seconds) wp ctx
      = Panic "non-positive interval for NewTicker").
Proof.
  assert (Hinterval : int64 (int64 seconds * Second) = seconds * Second).
  { unfold Second.
    rewrite (int64_id seconds) by (unfold is_int64, minInt64, maxInt64; lia).
    apply int64_id. unfold is_int64, minInt64, maxInt64. lia. }
  unfold NewMetricsWatcher_interval. rewrite Hinterval. unfold Second in *.
  split; [intros ->; reflexivity |].
  split.
  { intros Hne. destruct (Z.eqb_spec (seconds * 1000000000) 0); [lia | reflexivity]. }
  split.
  - intros Hpos. unfold metricsLoop_start, NewTicker.
    destruct (Z.eqb_spec (seconds * 1000000000) 0) as [Hz | Hnz]; [reflexivity |].
    destruct (Z.leb_spec (seconds * 1000000000) 0); [lia | reflexivity].
  - intros Hneg. unfold metricsLoop_start, NewTicker.
    destruct (Z.eqb_spec (seconds * 1000000000) 0) as [Hz | Hnz]; [lia |].
    destruct (Z.leb_spec (seconds * 1000000000) 0); [reflexivity | lia].
Qed.

Lemma negative_metrics_interval_panics_witness :
  NewMetricsWatcher_interval (-30) = -30 * Second
  /\ metricsLoop_start (NewMetricsWatcher_interval (-30))
                       (pool.Start (NewWorkerPool 5 300)) Background
     = Panic "non-positive interval for NewTicker".
Proof.
  destruct (negative_metrics_interval_panics (-30) (pool.Start (NewWorkerPool 5 300))
                                             Background ltac:(lia))
    as (_ & Hinterval & _ & Hpanic).
  split; [apply Hinterval; lia | apply Hpanic; lia].
Defined.

(** X26: [checkAllMetrics] never parks the loop.  On a running pool with
    room for two tasks it queues the pod check and then the node check; with
    room for one it queues the pod check only; and when the pool is stopped,
    its queue is full or the context is done, the checks of this tick are
    dropped with a warning. *)
Theorem checkAllMetrics_drops_when_full (wp : WorkerPool MetricsTask) (ctx : Context)
  (Hreach : reachable wp) :
  exists wp' logs,
    checkAllMetrics wp ctx = Done (wp', logs)
    /\ (ctx_Err ctx = None -> stopped wp = false ->
        (len (taskQueue wp) + 2 <= cap (taskQueue wp))%nat ->
        buf (taskQueue wp') = buf (taskQueue wp) ++ [PodMetricsCheck; NodeMetricsCheck]
        /\ logs = [LogInfo "Checking all metrics"])
    /\ (ctx_Err ctx = None -> stopped wp = false ->
        (len (taskQueue wp) + 1 = cap (taskQueue wp))%nat ->
        buf (taskQueue wp') = buf (taskQueue wp) ++ [PodMetricsCheck]
        /\ logs = [LogInfo "Checking all metrics";
                   LogWarn "Failed to submit node metrics check (worker pool queue full)"])
    /\ (ctx_Err ctx <> None \/ stopped wp = true
        \/ len (taskQueue wp) = cap (taskQueue wp) ->
        wp' = wp
        /\ logs = [LogInfo "Checking all metrics";
                   LogWarn "Failed to submit pod metrics check (worker pool queue full)";
                   LogWarn "Failed to submit node metrics check (worker pool queue full)"]).
Proof.
  destruct (reachable_inv wp Hreach) as [Hcap Hopen].
  unfold checkAllMetrics, SubmitWithContext.
  destruct (ctx_Err ctx) as [e |] eqn:Hctx.
  { cbn [bind]. do 2 eexists. split; [reflexivity |].
    split; [discriminate |]. split; [discriminate |]. done. }
  unfold Submit at 1. destruct (stopped wp) eqn:Hs.
  { cbn [bind]. unfold Submit. rewrite Hs. cbn [bind].
    do 2 eexists. split; [reflexivity |].
    split; [discriminate |]. split; [discriminate |]. done. }
  destruct (Hopen eq_refl) as [Hq _]. unfold try_send, len in *. rewrite Hq. cbn [bind].
  destruct (Nat.ltb_spec (length (buf (taskQueue wp))) (cap (taskQueue wp)))
    as [Hroom | Hfull]; cbn [bind].
  - unfold Submit, try_send. cbn [stopped taskQueue closed buf cap]. rewrite ?Hs.
    cbn [bind]. rewrite length_app. cbn [length].
    destruct (Nat.ltb_spec (length (buf (taskQueue wp)) + 1) (cap (taskQueue wp)))
      as [Hroom2 | Hfull2]; cbn [bind].
    + do 2 eexists. split; [reflexivity |]. cbn [taskQueue buf].
      split; [intros _ _ _; by rewrite <- app_assoc |].
      split; [intros _ _ ?; lia |].
      intros [Hf | [Hf | Hf]]; [done | discriminate | lia].
    + do 2 eexists. split; [reflexivity |]. cbn [taskQueue buf].
      split; [intros _ _ ?; lia |].
      split; [done |].
      intros [Hf | [Hf | Hf]]; [done | discriminate | lia].
  - unfold Submit, try_send. rewrite ?Hs, Hq. cbn [bind].
    destruct (Nat.ltb_spec (length (buf (taskQueue wp))) (cap (taskQueue wp)));
      [lia |].
    cbn [bind]. do 2 eexists. split; [reflexivity |].
    split; [intros _ _ ?; lia |]. split; [intros _ _ ?; lia |]. done.
Qed.

Lemma checkAllMetrics_drops_when_full_witness :
  exists wp' logs,
    checkAllMetrics (NewWorkerPool 1 1) Background = Done (wp', logs)
    /\ buf (taskQueue wp') = [PodMetricsCheck]
    /\ logs = [LogInfo "Checking all metrics";
               LogWarn "Failed to submit node metrics check (worker pool queue full)"].
Proof.
  destruct (checkAllMetrics_drops_when_full (NewWorkerPool 1 1) Background (reach_new 1 1))
    as (wp' & logs & Hrun & _ & Hone & _).
  exists wp', logs. split; [exact Hrun |].
  apply Hone; reflexivity.
Defined.

(** ** The Kubernetes client and the node metrics *)

(** X27: [K8sClient.Stop] may be called any number of times, as happens at
    shutdown, when both [main] and the goroutine of [Start] call it: the
    first call closes the stop channel, every later call finds it closed
    and leaves it alone, and no call panics. *)
Theorem K8sClient_Stop_idempotent (kc : K8sClient) :
  exists kc',
    K8sClient_Stop kc = Done kc'
    /\ closed (k8s_stopCh kc') = true
    /\ buf (k8s_stopCh kc') = buf (k8s_stopCh kc)
    /\ K8sClient_Stop kc' = Done kc'
    /\ (closed (k8s_stopCh kc) = true -> kc' = kc).
Proof.
  unfold K8sClient_Stop at 1, close.
  destruct (closed (k8s_stopCh kc)) eqn:Hclosed.
  - exists kc. unfold K8sClient_Stop. rewrite Hclosed. done.
  - cbn [bind]. eexists. split; [reflexivity |]. done.
Qed.

Lemma ltb_nan (x : float) : PrimFloat.ltb x nan = false.
Proof.
  rewrite FloatAxioms.ltb_spec. change (Prim2SF nan) with S754_nan.
  unfold SFltb, SFcompare. by destruct (Prim2SF x) as [| [] | | [] ? ?].
Qed.

(** X28: [GetNodeMetrics] divides by the node's capacity without the guard
    that [GetPodMetrics] has.  For a node that reports neither capacity nor
    usage both percentages are NaN, which is above no threshold: whatever
    the thresholds are, [checkNodeMetric] raises no alert for the node and
    calls nothing. *)
Theorem node_without_capacity_is_silent {R : Type} `{AlertRepo R} {O : Type}
  (thresholds : AlertRulesConfig) (nodeName : string)
  (asm : AlertStateManager R O) (w : World) (trace : list Effect) :
  exists metrics,
    GetNodeMetrics nodeName (inl (mkNodeUsage 0 0)) (inl (mkNodeCapacity 0 0))
    = (Some metrics, None)
    /\ nm_CPUUsagePercent metrics = nan
    /\ nm_MemoryUsagePercent metrics = nan
    /\ checkNodeMetric thresholds (asm, w, trace) metrics = Done (asm, w, trace)
    /\ (forall err,
          GetNodeMetrics nodeName (inr err) (inl (mkNodeCapacity 0 0))
          = (None, Some ("failed to get node metrics: " +++ err))).
Proof.
  assert (Hnan : (float64_of_int 0 / float64_of_int 0 * 100)%float = nan)
    by (vm_compute; reflexivity).
  exists (mkNodeMetrics nodeName 0 nan 0 nan 0 0).
  split.
  { unfold GetNodeMetrics.
    cbn [node_usage_cpu node_usage_memory capacity_cpu capacity_memory].
    by rewrite Hnan. }
  split; [reflexivity |]. split; [reflexivity |].
  split; [| reflexivity].
  unfold checkNodeMetric, when. cbn [nm_CPUUsagePercent nm_MemoryUsagePercent].
  rewrite !ltb_nan. reflexivity.
Qed.

(** ** The configuration *)

Lemma ReplaceAll_at_clean (s : string) :
  ("@"%char ∉ list_ascii_of_string (ReplaceAll_at s))
  /\ ("@"%char ∉ list_ascii_of_string s -> ReplaceAll_at s = s).
Proof.
  induction s as [| c s [IHclean IHsame]]; [split; [apply not_elem_of_nil | done] |].
  cbn [ReplaceAll_at]. destruct (Ascii.eqb_spec c "@") as [-> | Hc].
  - change ("%40" +++ ReplaceAll_at s)
      with (String "%" (String "4" (String "0" (ReplaceAll_at s)))).
    cbn [list_ascii_of_string]. split.
    + rewrite !not_elem_of_cons. repeat split; try discriminate. exact IHclean.
    + intros Hno. exfalso. apply Hno. apply list_elem_of_here.
  - cbn [list_ascii_of_string]. split.
    + rewrite not_elem_of_cons. split; [congruence | exact IHclean].
    + rewrite not_elem_of_cons. intros [_ Hno]. by rewrite (IHsame Hno).
Qed.

(** X29: [MigrationDatabaseURL] puts the password into the URL with every
    [@] replaced by [%40], so the password part holds no [@], and a
    password without [@] is put there as it is.  Nothing else is escaped,
    not even the percent sign: the passwords [a@b] and [a%40b] give the
    same URL, whatever the other settings are. *)
Theorem MigrationDatabaseURL_escapes_at_only (p : PostgresConfig) :
  exists password,
    MigrationDatabaseURL p
    = "postgres://" +++ pg_User p +++ ":" +++ password +++ "@" +++ pg_Host p +++ ":"
                    +++ fmt_d (pg_Port p) +++ "/" +++ pg_Database p
                    +++ "?sslmode=" +++ pg_SSLMode p
    /\ ("@"%char ∉ list_ascii_of_string password)
    /\ ("@"%char ∉ list_ascii_of_string (pg_Password p) -> password = pg_Password p)
    /\ MigrationDatabaseURL
         (mkPostgresConfig (AutoMigrate p) (pg_Host p) (pg_Port p) (pg_User p) "a@b"
                           (pg_Database p) (pg_SSLMode p))
       = MigrationDatabaseURL
           (mkPostgresConfig (AutoMigrate p) (pg_Host p) (pg_Port p) (pg_User p) "a%40b"
                             (pg_Database p) (pg_SSLMode p)).
Proof.
  exists (ReplaceAll_at (pg_Password p)).
  destruct (ReplaceAll_at_clean (pg_Password p)) as [Hclean Hsame].
  split; [reflexivity |]. split; [exact Hclean |]. split; [exact Hsame |]. reflexivity.
Qed.
